(** * FHETaxCalculator: the tax engine of [app.js] and the ledger of
      [PrivateTaxCalculator.sol]

    The development has three parts.

    - [Number] and [TaxEngine] embed the client-side tax computation.  A
      JavaScript number is an IEEE 754 binary64 value; it is modelled by
      [spec_float] with the operations of [SpecFloat] at precision 53, so
      every product, sum and difference is rounded the way the engine of a
      browser rounds it.
    - [Ledger] embeds the Solidity contract: storage as a record of
      mappings, a call as a function into an error type, checked [uint256]
      arithmetic, and reachability from the constructor; [History] adds
      sequences of transactions and their event logs, and [Dispatch] the
      ether a call carries and what the dispatcher does with a call that
      brings ether to a function that is not [payable].
    - [Client] embeds what [app.js] decides around the two: which inputs
      it submits and with which arguments, which buttons it enables, and
      what the result view computes and prints. *)

From Stdlib Require Import ZArith Lia Bool List String.
From Stdlib Require Import Floats.SpecFloat.
From Stdlib Require Import QArith Qround.
From Stdlib Require Import Reals Lra.
From stdpp Require Import gmap.

Local Open Scope Z_scope.

(* ===================================================================== *)
(** * JavaScript numbers *)
(* ===================================================================== *)

Module Number.

(** binary64: 53 bits of precision, infinities at exponent 1024. *)
Definition prec : Z := 53.
Definition emax : Z := 1024.

(** A number is a [spec_float]; the values that occur at run time are the
    canonical ones ([valid]). *)
Definition number : Type := spec_float.

Definition valid (x : number) : bool := valid_binary prec emax x.

(** [Number.MAX_SAFE_INTEGER]: up to it every integer is a number. *)
Definition MAX_SAFE_INTEGER : Z := 2 ^ 53 - 1.

(** The number denoted by an integer literal, or produced by [parseInt]:
    the integer rounded to the nearest double. *)
Definition of_Z (z : Z) : number := binary_normalize prec emax z 0 false.

(** [*], [+], [-] and [/] on numbers. *)
Definition mul (x y : number) : number := SFmul prec emax x y.
Definition add (x y : number) : number := SFadd prec emax x y.
Definition sub (x y : number) : number := SFsub prec emax x y.
Definition div (x y : number) : number := SFdiv prec emax x y.

(** [x <= y]; false as soon as one side is NaN. *)
Definition le (x y : number) : bool := SFleb x y.

(** [Math.max(x, y)]: NaN if either is NaN, and [+0] counts as larger
    than [-0]. *)
Definition Math_max (x y : number) : number :=
  match SFcompare x y with
  | None => S754_nan
  | Some Lt => y
  | Some Gt => x
  | Some Eq =>
      match x with
      | S754_zero true => y
      | _ => x
      end
  end.

(** The integer [Math.round] yields on a finite number of exponent
    [e < 0]: the floor of [x + 1/2], so halves go towards +infinity. *)
Definition round_half_up (s : bool) (m : positive) (e : Z) : Z :=
  let den := 2 ^ (- e) in
  (2 * cond_Zopp s (Zpos m) + den) / (2 * den).

(** [Math.round(x)].  NaN, the infinities and the zeros are returned as
    they are, and so is a number of non-negative exponent, which is an
    integer already.  A result of zero keeps the sign of [x]. *)
Definition Math_round (x : number) : number :=
  match x with
  | S754_finite s m e =>
      if 0 <=? e then x
      else
        let n := round_half_up s m e in
        if n =? 0 then S754_zero s else of_Z n
  | _ => x
  end.

(** The decimal literals of the tax schedule.  A literal denotes the
    double nearest to its decimal value; correctly rounded division of
    the two integers yields exactly that double. *)
Definition lit_0_10 : number := Eval vm_compute in div (of_Z 1) (of_Z 10).
Definition lit_0_20 : number := Eval vm_compute in div (of_Z 2) (of_Z 10).
Definition lit_0_30 : number := Eval vm_compute in div (of_Z 3) (of_Z 10).

End Number.

(* ===================================================================== *)
(** * The tax engine ([app.js]) *)
(* ===================================================================== *)

Module TaxEngine.
Import Number.

(** [calculateEstimatedTax(income, deductions)], app.js 393-407. *)
Definition calculateEstimatedTax (income deductions : number) : number :=
  let taxableIncome := Math_max (of_Z 0) (sub income deductions) in
  let tax :=
    if le taxableIncome (of_Z 50000) then
      mul taxableIncome lit_0_10
    else if le taxableIncome (of_Z 100000) then
      add (of_Z 5000) (mul (sub taxableIncome (of_Z 50000)) lit_0_20)
    else
      add (of_Z 15000) (mul (sub taxableIncome (of_Z 100000)) lit_0_30) in
  Math_round tax.

(** [calculateProgressiveTax(taxableIncome)], app.js 862-877.  The sum of
    three terms associates to the left, as [+] does in JavaScript. *)
Definition calculateProgressiveTax (taxableIncome : number) : number :=
  let tax :=
    if le taxableIncome (of_Z 50000) then
      mul taxableIncome lit_0_10
    else if le taxableIncome (of_Z 100000) then
      add (mul (of_Z 50000) lit_0_10)
          (mul (sub taxableIncome (of_Z 50000)) lit_0_20)
    else
      add (add (mul (of_Z 50000) lit_0_10) (mul (of_Z 50000) lit_0_20))
          (mul (sub taxableIncome (of_Z 100000)) lit_0_30) in
  Math_round tax.

(** [getMarginalTaxRate(taxableIncome)], app.js 880-888; the rate is
    returned as a string. *)
Definition getMarginalTaxRate (taxableIncome : number) : string :=
  if le taxableIncome (of_Z 50000) then "10"%string
  else if le taxableIncome (of_Z 100000) then "20"%string
  else "30"%string.

(** The taxable income the result view computes before it calls
    [calculateProgressiveTax] and [getMarginalTaxRate], app.js 785. *)
Definition taxableIncomeOf (income deductions : number) : number :=
  Math_max (of_Z 0) (sub income deductions).

(** One preset of [this.scenarios], app.js 51-80. *)
Record Scenario : Type := {
  income : number;
  deductions : number;
  description : string;
  expectedTax : number;
  gasEstimate : string
}.

Definition low : Scenario :=
  {| income := of_Z 30000; deductions := of_Z 5000;
     description := "Low Income Scenario";
     expectedTax := of_Z 2500; gasEstimate := "150000" |}.

Definition medium : Scenario :=
  {| income := of_Z 75000; deductions := of_Z 12000;
     description := "Medium Income Scenario";
     expectedTax := of_Z 10800; gasEstimate := "180000" |}.

Definition high : Scenario :=
  {| income := of_Z 150000; deductions := of_Z 25000;
     description := "High Income Scenario";
     expectedTax := of_Z 29000; gasEstimate := "200000" |}.

Definition custom : Scenario :=
  {| income := of_Z 0; deductions := of_Z 0;
     description := "Custom Amount";
     expectedTax := of_Z 0; gasEstimate := "200000" |}.

(** The schedule as the specification words it, in exact rational
    arithmetic: taxable income is income minus deductions floored at
    zero; 10% on the part up to [B1], 20% on the part between [B1] and
    [B2], 30% on the part above [B2]; the result is rounded to the nearest
    integer, halves up. *)
Definition B1 : Z := 50000.
Definition B2 : Z := 100000.

Definition taxableIncome_spec (income deductions : Z) : Z :=
  Z.max 0 (income - deductions).

Definition tax_spec (taxableIncome : Z) : Q :=
  if taxableIncome <=? B1 then
    (inject_Z taxableIncome * 0.10)%Q
  else if taxableIncome <=? B2 then
    (inject_Z B1 * 0.10
     + inject_Z (taxableIncome - B1) * 0.20)%Q
  else
    (inject_Z B1 * 0.10 + inject_Z (B2 - B1) * 0.20
     + inject_Z (taxableIncome - B2) * 0.30)%Q.

Definition round_half_up_spec (q : Q) : Z := Qfloor (q + (1 # 2))%Q.

Definition progressiveTax_spec (taxableIncome : Z) : Z :=
  round_half_up_spec (tax_spec taxableIncome).

Definition taxOwed_spec (income deductions : Z) : Z :=
  progressiveTax_spec (taxableIncome_spec income deductions).

End TaxEngine.

(* ===================================================================== *)
(** * The ledger ([PrivateTaxCalculator.sol]) *)
(* ===================================================================== *)

Module Ledger.

(** ** Solidity values *)

Definition address : Type := Z.
Definition uint256 : Type := Z.
Definition bytes32 : Type := Z.
Definition bytes : Type := list Byte.byte.

Definition MAX_UINT256 : Z := 2 ^ 256 - 1.

(** The outcome of a call: it returns, it reverts with the message of a
    failed [require], or it panics with a code (0x11 is arithmetic
    overflow). *)
Inductive result (A : Type) : Type :=
| Ok (a : A)
| Revert (reason : string)
| Panic (code : Z).
Arguments Ok {A} a.
Arguments Revert {A} reason.
Arguments Panic {A} code.

(** [result] is a monad; a function body is written with the bind
    notations [x ← c; k] and [c;; k]. *)
#[global] Instance result_ret : MRet result := fun A a => Ok a.

#[global] Instance result_bind : MBind result := fun A B k c =>
  match c with
  | Ok a => k a
  | Revert reason => Revert reason
  | Panic code => Panic code
  end.

Definition require (cond : bool) (reason : string) : result unit :=
  if cond then Ok tt else Revert reason.

Definition succeeds {A : Type} (c : result A) : bool :=
  match c with Ok _ => true | _ => false end.

(** [x++] on a [uint256] under Solidity 0.8: checked, panics on
    overflow. *)
Definition checked_incr (x : uint256) : result uint256 :=
  if x + 1 <=? MAX_UINT256 then Ok (x + 1) else Panic 17.

(** ** Storage *)

Record TaxRecord : Type := {
  incomeHash : bytes32;
  deductionsHash : bytes32;
  taxOwedHash : bytes32;
  calculated : bool;
  submissionTime : uint256;
  calculationTime : uint256;
  lastAccessTime : uint256
}.

(** The value an unset or deleted slot of [taxRecords] reads as. *)
Definition zeroRecord : TaxRecord :=
  {| incomeHash := 0; deductionsHash := 0; taxOwedHash := 0;
     calculated := false;
     submissionTime := 0; calculationTime := 0; lastAccessTime := 0 |}.

Definition VERSION : uint256 := 1.

Record Storage : Type := {
  owner : address;
  deploymentTime : uint256;
  totalTaxpayers : uint256;
  taxRecords : gmap Z TaxRecord;
  hasSubmitted : gmap Z bool
}.

(** Reading [taxRecords[a]] and [hasSubmitted[a]]: a mapping is total. *)
Definition recordOf (s : Storage) (a : address) : TaxRecord :=
  default zeroRecord (taxRecords s !! a).

Definition submitted (s : Storage) (a : address) : bool :=
  default false (hasSubmitted s !! a).

(** The part of the transaction a function body reads.  (No body reads
    the ether the transaction carries; [Dispatch] below has it.) *)
Record Msg : Type := {
  sender : address;
  timestamp : uint256
}.

Inductive Event : Type :=
| TaxSubmitted (taxpayer : address) (time : uint256) (txHash : bytes32)
| TaxCalculated (taxpayer : address) (time : uint256) (txHash : bytes32)
| TaxRecordCleared (taxpayer : address) (time : uint256)
| ContractDeployed (deployer : address) (time : uint256).

(** ** [abi.encodePacked] *)

Definition byte_of_Z (z : Z) : Byte.byte :=
  match Byte.of_N (Z.to_N (z mod 256)) with
  | Some b => b
  | None => Byte.x00
  end.

(** The [n] bytes of [z], most significant first. *)
Fixpoint be_bytes (n : nat) (z : Z) : list Byte.byte :=
  match n with
  | O => []
  | S k => be_bytes k (z / 256) ++ [byte_of_Z z]
  end.

Definition pack_word (z : Z) : bytes := be_bytes 32 z.
Definition pack_address (a : address) : bytes := be_bytes 20 a.
Definition pack_string (str : string) : bytes := list_byte_of_string str.

#[global] Arguments pack_word : simpl never.
#[global] Arguments pack_address : simpl never.
#[global] Arguments pack_string : simpl never.

Section Contract.

(** [keccak256] is a primitive of the execution environment. *)
Variable keccak256 : bytes -> bytes32.

(** Each function below is the function of the contract as it runs once
    a call has reached it: its modifiers and its body. *)

(** constructor *)
Definition constructor (msg : Msg) : Storage * list Event :=
  ({| owner := sender msg;
      deploymentTime := timestamp msg;
      totalTaxpayers := 0;
      taxRecords := ∅;
      hasSubmitted := ∅ |},
   [ContractDeployed (sender msg) (timestamp msg)]).

(** [submitTaxInfo], lines 70-96.  The arrays of two words are pairs;
    only their first word is stored. *)
Definition submitTaxInfo (s : Storage) (msg : Msg)
    (encryptedIncome : bytes32 * bytes32) (incomeProof : bytes)
    (encryptedDeductions : bytes32 * bytes32) (deductionsProof : bytes)
    : result (Storage * list Event) :=
  require (negb (submitted s (sender msg)))
    "Tax information already submitted for this address" ;;
  require (0 <? Z.of_nat (length incomeProof)) "Income proof required" ;;
  require (0 <? Z.of_nat (length deductionsProof))
    "Deductions proof required" ;;
  let record :=
    {| incomeHash := fst encryptedIncome;
       deductionsHash := fst encryptedDeductions;
       taxOwedHash := 0;
       calculated := false;
       submissionTime := timestamp msg;
       calculationTime := 0;
       lastAccessTime := timestamp msg |} in
  total ← checked_incr (totalTaxpayers s);
  Ok ({| owner := owner s;
         deploymentTime := deploymentTime s;
         totalTaxpayers := total;
         taxRecords := <[sender msg := record]> (taxRecords s);
         hasSubmitted := <[sender msg := true]> (hasSubmitted s) |},
      [TaxSubmitted (sender msg) (timestamp msg)
         (keccak256 (pack_word (timestamp msg)
                     ++ pack_address (sender msg)))]).

(** [calculateTax], lines 100-122. *)
Definition calculateTax (s : Storage) (msg : Msg)
    : result (Storage * list Event) :=
  require (submitted s (sender msg)) "No tax information submitted" ;;
  require (negb (calculated (recordOf s (sender msg))))
    "Tax already calculated" ;;
  let record := recordOf s (sender msg) in
  let calculatedTaxHash :=
    keccak256 (pack_word (incomeHash record)
               ++ pack_word (deductionsHash record)
               ++ pack_word (timestamp msg)
               ++ pack_string "tax_calculation") in
  let record' :=
    {| incomeHash := incomeHash record;
       deductionsHash := deductionsHash record;
       taxOwedHash := calculatedTaxHash;
       calculated := true;
       submissionTime := submissionTime record;
       calculationTime := timestamp msg;
       lastAccessTime := timestamp msg |} in
  Ok ({| owner := owner s;
         deploymentTime := deploymentTime s;
         totalTaxpayers := totalTaxpayers s;
         taxRecords := <[sender msg := record']> (taxRecords s);
         hasSubmitted := hasSubmitted s |},
      [TaxCalculated (sender msg) (timestamp msg)
         (keccak256 (pack_word (timestamp msg)
                     ++ pack_address (sender msg)
                     ++ pack_string "calculate"))]).

(** The modifier [onlyTaxpayer], lines 45-48. *)
Definition onlyTaxpayer (s : Storage) (msg : Msg) : result unit :=
  require (submitted s (sender msg)) "No tax record found".

(** [getTaxOwed], lines 126-129. *)
Definition getTaxOwed (s : Storage) (msg : Msg)
    : result (bytes32 * bytes32) :=
  onlyTaxpayer s msg ;;
  require (calculated (recordOf s (sender msg)))
    "Tax not yet calculated" ;;
  Ok (taxOwedHash (recordOf s (sender msg)), 0).

(** [isCalculated], [getSubmissionTime], [getCalculationTime]. *)
Definition isCalculated (s : Storage) (taxpayer : address) : bool :=
  calculated (recordOf s taxpayer).

Definition getSubmissionTime (s : Storage) (taxpayer : address)
    : uint256 :=
  submissionTime (recordOf s taxpayer).

Definition getCalculationTime (s : Storage) (taxpayer : address)
    : uint256 :=
  calculationTime (recordOf s taxpayer).

(** [getContractStats], lines 147-154. *)
Definition getContractStats (s : Storage)
    : uint256 * uint256 * address * uint256 :=
  (totalTaxpayers s, deploymentTime s, owner s, VERSION).

(** [clearTaxRecord], lines 158-163. *)
Definition clearTaxRecord (s : Storage) (msg : Msg)
    : result (Storage * list Event) :=
  onlyTaxpayer s msg ;;
  Ok ({| owner := owner s;
         deploymentTime := deploymentTime s;
         totalTaxpayers := totalTaxpayers s;
         taxRecords := delete (sender msg) (taxRecords s);
         hasSubmitted := <[sender msg := false]> (hasSubmitted s) |},
      [TaxRecordCleared (sender msg) (timestamp msg)]).

(** [emergencyPause], lines 166-169: an empty body behind
    [onlyOwner]. *)
Definition emergencyPause (s : Storage) (msg : Msg)
    : result (Storage * list Event) :=
  require (sender msg =? owner s) "Only owner can perform this action" ;;
  Ok (s, []).

(** [hasValidTaxRecord] and [getLastAccessTime]. *)
Definition hasValidTaxRecord (s : Storage) (taxpayer : address) : bool :=
  submitted s taxpayer && (0 <? submissionTime (recordOf s taxpayer)).

Definition getLastAccessTime (s : Storage) (taxpayer : address)
    : result uint256 :=
  require (submitted s taxpayer) "No tax record found" ;;
  Ok (lastAccessTime (recordOf s taxpayer)).

(** The record [submitTaxInfo] stores, and the one [calculateTax] replaces
    it by. *)
Definition submittedRecord (msg : Msg) (encryptedIncome encryptedDeductions
    : bytes32 * bytes32) : TaxRecord :=
  {| incomeHash := fst encryptedIncome;
     deductionsHash := fst encryptedDeductions;
     taxOwedHash := 0;
     calculated := false;
     submissionTime := timestamp msg;
     calculationTime := 0;
     lastAccessTime := timestamp msg |}.

Definition calculatedRecord (msg : Msg) (record : TaxRecord) : TaxRecord :=
  {| incomeHash := incomeHash record;
     deductionsHash := deductionsHash record;
     taxOwedHash :=
       keccak256 (pack_word (incomeHash record)
                  ++ pack_word (deductionsHash record)
                  ++ pack_word (timestamp msg)
                  ++ pack_string "tax_calculation");
     calculated := true;
     submissionTime := submissionTime record;
     calculationTime := timestamp msg;
     lastAccessTime := timestamp msg |}.

(** ** Transactions and reachable states *)

(** The state-changing entry points with their arguments. *)
Inductive Call : Type :=
| CallSubmitTaxInfo (encryptedIncome : bytes32 * bytes32)
    (incomeProof : bytes)
    (encryptedDeductions : bytes32 * bytes32) (deductionsProof : bytes)
| CallCalculateTax
| CallClearTaxRecord
| CallEmergencyPause.

Definition execute (s : Storage) (msg : Msg) (c : Call)
    : result (Storage * list Event) :=
  match c with
  | CallSubmitTaxInfo ei ip ed dp => submitTaxInfo s msg ei ip ed dp
  | CallCalculateTax => calculateTax s msg
  | CallClearTaxRecord => clearTaxRecord s msg
  | CallEmergencyPause => emergencyPause s msg
  end.

(** A transaction that reverts or panics leaves storage as it was. *)
Definition transact (s : Storage) (msg : Msg) (c : Call) : Storage :=
  match execute s msg c with
  | Ok (s', _) => s'
  | _ => s
  end.

(** What the chain guarantees of a transaction: the sender is an
    address, and the block it is in has a timestamp that fits a word
    and is later than that of the genesis block, hence positive. *)
Definition wf_msg (msg : Msg) : Prop :=
  0 <= sender msg < 2 ^ 160 /\ 0 < timestamp msg <= MAX_UINT256.

Inductive reachable : Storage -> Prop :=
| reachable_deploy (msg : Msg) :
    wf_msg msg -> reachable (fst (constructor msg))
| reachable_call (s : Storage) (msg : Msg) (c : Call) :
    reachable s -> wf_msg msg -> reachable (transact s msg c).

End Contract.

End Ledger.

(* ===================================================================== *)
(** * Histories of the ledger *)
(* ===================================================================== *)

Module History.
Import Ledger.

Section Contract.
Variable keccak256 : bytes -> bytes32.

(** A sequence of transactions, applied in order. *)
Definition run (s : Storage) (txs : list (Msg * Call)) : Storage :=
  fold_left (fun s tx => transact keccak256 s (fst tx) (snd tx)) txs s.

(** The events a transaction emits; none if it fails. *)
Definition emitted (s : Storage) (msg : Msg) (c : Call) : list Event :=
  match execute keccak256 s msg c with
  | Ok (_, events) => events
  | _ => []
  end.

(** The log of a sequence of transactions. *)
Fixpoint log (s : Storage) (txs : list (Msg * Call)) : list Event :=
  match txs with
  | [] => []
  | tx :: rest =>
      emitted s (fst tx) (snd tx)
      ++ log (transact keccak256 s (fst tx) (snd tx)) rest
  end.

End Contract.

(** The number of accounts whose [hasSubmitted] flag is set. *)
Definition activeRecords (s : Storage) : Z :=
  Z.of_nat (size (filter (fun kv : Z * bool => snd kv = true) (hasSubmitted s))).

Definition isTaxSubmitted (e : Event) : bool :=
  match e with TaxSubmitted _ _ _ => true | _ => false end.

Definition isTaxRecordCleared (e : Event) : bool :=
  match e with TaxRecordCleared _ _ => true | _ => false end.

(** How many events of a log satisfy a test. *)
Definition count (test : Event -> bool) (events : list Event) : Z :=
  Z.of_nat (length (List.filter test events)).

(** The blocks of a sequence of transactions follow one another in time,
    from [now] on. *)
Fixpoint chronological (now : uint256) (txs : list (Msg * Call)) : Prop :=
  match txs with
  | [] => True
  | tx :: rest =>
      now <= timestamp (fst tx) /\ chronological (timestamp (fst tx)) rest
  end.

(** What holds of the times of a state at time [now], along a
    chronological history. *)
Definition timed (s : Storage) (now : uint256) : Prop :=
  deploymentTime s <= now /\
  forall a,
    (calculated (recordOf s a) = true -> submitted s a = true) /\
    (submitted s a = true ->
       deploymentTime s <= submissionTime (recordOf s a) <= now /\
       (calculated (recordOf s a) = true ->
          submissionTime (recordOf s a) <= calculationTime (recordOf s a)
          /\ calculationTime (recordOf s a) <= now)).

End History.

(* ===================================================================== *)
(** * Calls from outside: ether and the dispatcher *)
(* ===================================================================== *)

Module Dispatch.
Import Ledger History.

(** A call from outside reaches a function of the contract through its
    dispatcher, with the ether it carries ([msg.value]); no function body
    reads that amount.  Of all functions [submitTaxInfo] alone is declared
    [payable].  To every other function the dispatcher lets a call through
    only if it carries no ether; otherwise it reverts before a modifier or
    a [require] of the function has run, and without return data.  (The
    constructor is not [payable] either: a deployment with ether creates
    no contract.) *)

(** What the caller gets: the dispatcher turned the call down, or the
    function ran and ended as [r]. *)
Inductive reply (A : Type) : Type :=
| Rejected
| Ran (r : result A).
Arguments Rejected {A}.
Arguments Ran {A} r.

Definition payable {A : Type} (value : uint256) (body : result A)
    : reply A :=
  Ran body.

Definition nonpayable {A : Type} (value : uint256) (body : result A)
    : reply A :=
  if value =? 0 then Ran body else Rejected.

(** The call returned, neither turned down nor reverted. *)
Definition returned {A : Type} (r : reply A) : bool :=
  match r with Ran (Ok _) => true | _ => false end.

Section Contract.
Variable keccak256 : bytes -> bytes32.

(** The state-changing functions as they are called, lines 75, 100, 158
    and 166. *)
Definition dispatch (s : Storage) (msg : Msg) (value : uint256) (c : Call)
    : reply (Storage * list Event) :=
  match c with
  | CallSubmitTaxInfo ei ip ed dp =>
      payable value (submitTaxInfo keccak256 s msg ei ip ed dp)
  | CallCalculateTax => nonpayable value (calculateTax keccak256 s msg)
  | CallClearTaxRecord => nonpayable value (clearTaxRecord s msg)
  | CallEmergencyPause => nonpayable value (emergencyPause s msg)
  end.

(** The two reading functions that can revert, lines 126 and 177. *)
Definition dispatch_getTaxOwed (s : Storage) (msg : Msg) (value : uint256)
    : reply (bytes32 * bytes32) :=
  nonpayable value (getTaxOwed s msg).

Definition dispatch_getLastAccessTime (s : Storage) (taxpayer : address)
    (value : uint256) : reply uint256 :=
  nonpayable value (getLastAccessTime s taxpayer).

(** A transaction: who sends it and when, the ether it carries, and the
    function it calls. *)
Record Transaction : Type := {
  tx_msg : Msg;
  tx_value : uint256;
  tx_call : Call
}.

(** Storage after a transaction; one that is turned down, reverts or
    panics leaves it as it was. *)
Definition send (s : Storage) (tx : Transaction) : Storage :=
  match dispatch s (tx_msg tx) (tx_value tx) (tx_call tx) with
  | Ran (Ok (s', _)) => s'
  | _ => s
  end.

Definition sendAll (s : Storage) (txs : list Transaction) : Storage :=
  fold_left send txs s.

End Contract.

(** Whether the dispatcher lets a transaction through to its function. *)
Definition passes (tx : Transaction) : bool :=
  match tx_call tx with
  | CallSubmitTaxInfo _ _ _ _ => true
  | _ => tx_value tx =? 0
  end.

(** The transactions of a sequence that reach their function, as the
    function sees them. *)
Definition effective (txs : list Transaction) : list (Msg * Call) :=
  List.map (fun tx => (tx_msg tx, tx_call tx)) (List.filter passes txs).

End Dispatch.

(* ===================================================================== *)
(** * The client around the engine and the ledger ([app.js]) *)
(* ===================================================================== *)

Module Client.
Import Number TaxEngine Ledger Dispatch.

(** ** Numbers in conditions *)

(** A number in a condition: every number counts as true but [0], [-0]
    and NaN. *)
Definition truthy (x : number) : bool :=
  match x with
  | S754_zero _ | S754_nan => false
  | _ => true
  end.

(** [x || 0]. *)
Definition or_zero (x : number) : number :=
  if truthy x then x else of_Z 0.

(** [x > y]; false as soon as one side is NaN. *)
Definition gt (x y : number) : bool := SFltb y x.

(** ** What [submitTaxInfo] submits, app.js 513-545 *)

(** The keys of [this.scenarios], which the page passes to
    [selectScenario]. *)
Inductive ScenarioKey : Type := key_low | key_medium | key_high | key_custom.

Definition scenarios (key : ScenarioKey) : Scenario :=
  match key with
  | key_low => low
  | key_medium => medium
  | key_high => high
  | key_custom => custom
  end.

(** The function either shows an error and returns, or goes on to submit
    an income and a deductions amount. *)
Inductive Inputs : Type :=
| Refused (message : string)
| Accepted (income deductions : number).

(** The start of [submitTaxInfo], up to the [try] block.  [contract] says
    whether [this.contract] is set, [selectedScenario] is
    [this.selectedScenario] ([None] for [null]), and [incomeInput],
    [deductionsInput] are what [parseInt] made of the two fields. *)
Definition submitTaxInfo_inputs (contract : bool)
    (selectedScenario : option ScenarioKey)
    (incomeInput deductionsInput : number) : Inputs :=
  if negb contract then Refused "Please connect your wallet first!"
  else
    match selectedScenario with
    | None => Refused "Please select a tax scenario first!"
    | Some key_custom =>
        let income := or_zero incomeInput in
        let deductions := or_zero deductionsInput in
        if le income (of_Z 0) then
          Refused "Please enter valid income amount!"
        else if gt deductions income then
          Refused "Deductions cannot exceed income!"
        else Accepted income deductions
    | Some key =>
        let scenario := scenarios key in
        Accepted (income scenario) (deductions scenario)
    end.

(** The estimate [selectScenario] displays for a preset, app.js
    1083-1114; for the custom scenario it displays the input fields
    instead. *)
Definition selectScenario_estimatedTax (scenarioType : ScenarioKey)
    : option number :=
  match scenarioType with
  | key_custom => None
  | _ =>
      let scenario := scenarios scenarioType in
      Some (calculateEstimatedTax (income scenario) (deductions scenario))
  end.

(** ** The arguments of the submission, app.js 565-578 *)

Section Submission.

(** [keccak256] of ethers is that of the chain; how a number prints in a
    template or under [toString] is left open. *)
Variable keccak256 : bytes -> bytes32.
Variable toString : number -> string.

(** [ethers.toUtf8Bytes]; a string is held as its UTF-8 bytes. *)
Definition toUtf8Bytes (str : string) : bytes := list_byte_of_string str.

Definition ZeroHash : bytes32 := 0.

(** The four arguments [submitTaxInfo] passes to the contract for an
    income, a deductions amount and the value of [Date.now()]. *)
Definition submitTaxInfo_arguments (income deductions timestamp : number)
    : (bytes32 * bytes32) * bytes * (bytes32 * bytes32) * bytes :=
  let encryptedIncome :=
    (keccak256 (toUtf8Bytes (toString income ++ toString timestamp)),
     ZeroHash) in
  let encryptedDeductions :=
    (keccak256 (toUtf8Bytes (toString deductions ++ toString timestamp)),
     ZeroHash) in
  let incomeProof :=
    toUtf8Bytes ("proof_income_" ++ toString income ++ "_"
                 ++ toString timestamp) in
  let deductionsProof :=
    toUtf8Bytes ("proof_deductions_" ++ toString deductions ++ "_"
                 ++ toString timestamp) in
  (encryptedIncome, incomeProof, encryptedDeductions, deductionsProof).

(** The arguments [estimateGasForSubmission] passes, app.js 489-503. *)
Definition estimateGasForSubmission_arguments (income deductions : number)
    : (bytes32 * bytes32) * bytes * (bytes32 * bytes32) * bytes :=
  let encryptedIncome :=
    (keccak256 (toUtf8Bytes (toString income)), ZeroHash) in
  let encryptedDeductions :=
    (keccak256 (toUtf8Bytes (toString deductions)), ZeroHash) in
  let incomeProof := toUtf8Bytes ("income_proof_" ++ toString income) in
  let deductionsProof :=
    toUtf8Bytes ("deductions_proof_" ++ toString deductions) in
  (encryptedIncome, incomeProof, encryptedDeductions, deductionsProof).

End Submission.

(** ** The status line and the buttons, app.js 325-391 *)



(** ** The figures of the result view, app.js 780-807 *)

(** The numbers [viewTaxResult] computes from the submitted data it kept:
    the effective rate is the number before [toFixed(2)] formats it. *)
Record TaxCalculation : Type := {
  taxableIncome : number;
  calculatedTax : number;
  effectiveRate : number;
  marginalRate : string;
  afterTaxIncome : number
}.

(** [submittedData] is [None] when nothing was kept, and otherwise the
    income and the deductions of the submission.  The details are
    computed only if both are truthy. *)
Definition viewTaxResult_calculation
    (submittedData : option (number * number)) : option TaxCalculation :=
  match submittedData with
  | Some (income, deductions) =>
      if truthy income && truthy deductions then
        let taxableIncome := Math_max (of_Z 0) (sub income deductions) in
        let calculatedTax := calculateProgressiveTax taxableIncome in
        let effectiveRate := mul (div calculatedTax income) (of_Z 100) in
        let marginalRate := getMarginalTaxRate taxableIncome in
        Some {| taxableIncome := taxableIncome;
                calculatedTax := calculatedTax;
                effectiveRate := effectiveRate;
                marginalRate := marginalRate;
                afterTaxIncome := sub income calculatedTax |}
      else None
  | None => None
  end.

(** ** What [viewTaxResult] reads from the contract, app.js 747-768 *)

(** The function shows a message and returns, or ends in its [catch]
    block with the failure of a call, or has the encrypted result and the
    two times. *)
Inductive ViewOutcome : Type :=
| ViewMessage (message : string)
| ViewCaught (failure : reply (bytes32 * bytes32))
| ViewRetrieved (encryptedResult : bytes32 * bytes32)
    (submissionTime calculationTime : uint256).

(** [contract] says whether [this.contract] is set.  [signer] is the
    address of the signer [connectWallet] built the contract object with
    (app.js 189-193): it is the sender of [getTaxOwed()].  [account] is
    [this.account], the argument of the three other reads;
    [handleAccountChange] (app.js 147-151) replaces it and leaves the
    signer as it is.  Each [await] is a call of its own, answered in the
    state the ledger is in by then: [s1], [s2], [s3] and [s4] are the
    states the four reads are answered in, in this order, and [now] is the
    time of the block [getTaxOwed] is evaluated in.  None of the calls
    carries ether.  A failure of the transport is left out. *)
Definition viewTaxResult_retrieve (contract : bool)
    (signer account : address) (s1 s2 s3 s4 : Storage) (now : uint256)
    : ViewOutcome :=
  if negb contract then ViewMessage "Please connect your wallet first!"
  else
    let isCalculated := Ledger.isCalculated s1 account in
    if negb isCalculated then
      ViewMessage "‚ùå Tax not yet calculated. Please calculate tax first."
    else
      match dispatch_getTaxOwed s2
              {| sender := signer; timestamp := now |} 0 with
      | Ran (Ok encryptedResult) =>
          let submissionTime := getSubmissionTime s3 account in
          let calculationTime := getCalculationTime s4 account in
          ViewRetrieved encryptedResult submissionTime calculationTime
      | failure => ViewCaught failure
      end.

(** ** The breakdown, app.js 891-912 *)

Section Breakdown.

(** [Number.prototype.toLocaleString] depends on the locale of the
    browser and is left open. *)
Variable toLocaleString : number -> string.

(** The line feed a template writes as a backslash and an n. *)
Definition nl : string := String (Ascii.ascii_of_nat 10) EmptyString.

(** [getDetailedTaxBreakdown(taxableIncome, totalTax)], app.js 891-912. *)
Definition getDetailedTaxBreakdown (taxableIncome totalTax : number)
    : string :=
  let breakdown := ("üìä Tax Bracket Breakdown:" ++ nl)%string in
  let breakdown :=
    if le taxableIncome (of_Z 50000) then
      (breakdown
       ++ ("‚Ä¢ 10% bracket: $"
           ++ toLocaleString (Math_round (mul taxableIncome lit_0_10))
           ++ " (on $" ++ toLocaleString taxableIncome ++ ")" ++ nl))%string
    else if le taxableIncome (of_Z 100000) then
      let bracket1 := mul (of_Z 50000) lit_0_10 in
      let bracket2 := mul (sub taxableIncome (of_Z 50000)) lit_0_20 in
      let breakdown :=
        (breakdown
         ++ ("‚Ä¢ 10% bracket: $" ++ toLocaleString (Math_round bracket1)
             ++ " (on first $50,000)" ++ nl))%string in
      (breakdown
       ++ ("‚Ä¢ 20% bracket: $" ++ toLocaleString (Math_round bracket2)
           ++ " (on $"
           ++ toLocaleString (sub taxableIncome (of_Z 50000))
           ++ ")" ++ nl))%string
    else
      let bracket1 := mul (of_Z 50000) lit_0_10 in
      let bracket2 := mul (of_Z 50000) lit_0_20 in
      let bracket3 := mul (sub taxableIncome (of_Z 100000)) lit_0_30 in
      let breakdown :=
        (breakdown
         ++ ("‚Ä¢ 10% bracket: $" ++ toLocaleString (Math_round bracket1)
             ++ " (on first $50,000)" ++ nl))%string in
      let breakdown :=
        (breakdown
         ++ ("‚Ä¢ 20% bracket: $" ++ toLocaleString (Math_round bracket2)
             ++ " (on next $50,000)" ++ nl))%string in
      (breakdown
       ++ ("‚Ä¢ 30% bracket: $" ++ toLocaleString (Math_round bracket3)
           ++ " (on $"
           ++ toLocaleString (sub taxableIncome (of_Z 100000))
           ++ ")" ++ nl))%string in
  (breakdown
   ++ ("‚Ä¢ Total Tax: $" ++ toLocaleString totalTax ++ nl ++ nl))%string.

End Breakdown.

Module Pending.
Import Number.

(** ** Pending transactions, app.js 973-993 *)

(** A value of the map [this.pendingTransactions], which is keyed by the
    transaction hash. *)
Record PendingTransaction : Type := {
  description : string;
  timestamp : number
}.

Section Display.

(** How the count prints in the template is left open. *)
Variable toString : nat -> string.

(** [updatePendingTransactionsDisplay]: the message it shows, if any. *)
Definition updatePendingTransactionsDisplay
    (pendingTransactions : gmap string PendingTransaction) : option string :=
  let pendingCount := size pendingTransactions in
  if (0 <? pendingCount)%nat then
    Some ("‚è≥ " ++ toString pendingCount ++ " transaction"
          ++ (if (1 <? pendingCount)%nat then "s" else "")
          ++ " pending confirmation...")%string
  else None.

(** [addPendingTransaction] and [removePendingTransaction]: the map
    after the call and the message shown; [now] is [Date.now()]. *)
Definition addPendingTransaction
    (pendingTransactions : gmap string PendingTransaction)
    (txHash description : string) (now : number)
    : gmap string PendingTransaction * option string :=
  let pendingTransactions :=
    <[txHash := {| description := description; timestamp := now |}]>
      pendingTransactions in
  (pendingTransactions,
   updatePendingTransactionsDisplay pendingTransactions).

Definition removePendingTransaction
    (pendingTransactions : gmap string PendingTransaction) (txHash : string)
    : gmap string PendingTransaction * option string :=
  let pendingTransactions := delete txHash pendingTransactions in
  (pendingTransactions,
   updatePendingTransactionsDisplay pendingTransactions).

(** What [submitTaxInfo], [calculateTax] and [clearTaxRecord] do to the
    map between sending a transaction and its receipt (app.js 596-604,
    700-707, 935-939): the hash is added, [tx.wait()] is awaited, and the
    hash is removed.  [waited] is false when [tx.wait()] throws: control
    then passes to the [catch] block, which does not touch the map. *)
Definition awaitReceipt
    (pendingTransactions : gmap string PendingTransaction)
    (txHash description : string) (now : number) (waited : bool)
    : gmap string PendingTransaction :=
  let pendingTransactions :=
    fst (addPendingTransaction pendingTransactions txHash description now) in
  if waited then fst (removePendingTransaction pendingTransactions txHash)
  else pendingTransactions.

End Display.

End Pending.

End Client.

(* ===================================================================== *)
(** * Rounding in binary64: the notions the facts below are stated with *)
(* ===================================================================== *)

Module Rounding.
Import Number.

(** [2^e] as a real, for any integer exponent. *)
Definition pow2 (e : Z) : R := powerRZ 2 e.
#[global] Arguments pow2 : simpl never.

(** The real [m * 2^e]. *)
Definition F2R (m e : Z) : R := (IZR m * pow2 e)%R.
#[global] Arguments F2R : simpl never.

(** The real a number stands for; NaN and the infinities stand for none and
    are sent to 0. *)
Definition SF2R (x : number) : R :=
  match x with
  | S754_finite s m e => F2R (cond_Zopp s (Zpos m)) e
  | _ => 0%R
  end.

(** A finite number that is not negative: [+0] or a positive canonical
    double.  Every non-negative integer a number can hold is one. *)
Definition finite_nonneg (x : number) : bool :=
  match x with
  | S754_zero false => true
  | S754_finite false m e => SpecFloat.bounded prec emax m e
  | _ => false
  end.

(** A result that [Math.max(0, _)] replaces by [+0]. *)
Definition negative (x : number) : Prop :=
  match x with
  | S754_zero true | S754_infinity true | S754_finite true _ _ => True
  | _ => False
  end.

(** The number of bits of a mantissa. *)
Definition digits (m : positive) : Z := Zpos (digits2_pos m).

(** [M / P] rounded to the nearest integer, to the even one on a tie. *)
Definition rne (M P : Z) : Z :=
  let m := M / P in
  match 2 * (M mod P) ?= P with
  | Lt => m
  | Eq => if Z.even m then m else m + 1
  | Gt => m + 1
  end.

(** [mrs] is what [k] right shifts leave of [M]: the quotient, the bit
    shifted out last, and whether anything was shifted out before it. *)
Definition shr_inv (M k : Z) (mrs : shr_record) : Prop :=
  0 <= k /\ 0 <= shr_m mrs /\
  exists rem,
    M = shr_m mrs * 2 ^ k + rem /\ 0 <= rem < 2 ^ k /\
    (shr_r mrs = true <-> 2 ^ k <= 2 * rem) /\
    (shr_s mrs = true <-> rem <> 0 /\ 2 * rem <> 2 ^ k).

(** The mantissa and exponent [binary_round_aux] rounds [M * 2^e] to. *)
Definition round_mant (M : positive) (e : Z) : Z * Z :=
  let n := fexp prec emax (digits M + e) - e in
  if n <=? 0 then (Zpos M, e) else (rne (Zpos M) (2 ^ n), e + n).

(** The number with mantissa [q] and exponent [e], where [q] may have
    carried into bit 53 and [e] may be out of range. *)
Definition mk_float (s : bool) (qe : Z * Z) : number :=
  let (q, e) := qe in
  match q with
  | Z0 => S754_zero s
  | Zpos p =>
      if q =? 2 ^ prec then
        if e + 1 <=? emax - prec
        then S754_finite s (Z.to_pos (2 ^ (prec - 1))) (e + 1)
        else S754_infinity s
      else if e <=? emax - prec then S754_finite s p e else S754_infinity s
  | Zneg _ => S754_nan
  end.

(** [(M, e)] is as [shl_align] and the product of two canonical mantissas
    leave it: not above the exponent it will be rounded to. *)
Definition prenormal (M : positive) (e : Z) : Prop :=
  e <= fexp prec emax (digits M + e).

(** [Q] is a nearest multiple of [2^g] to [v], an even one on a tie. *)
Definition nearest (g : Z) (v : R) (Q : Z) : Prop :=
  (- pow2 g <= 2 * (F2R Q g - v) <= pow2 g)%R /\
  ((2 * (F2R Q g - v) = pow2 g)%R -> Z.even Q = true) /\
  ((2 * (F2R Q g - v) = - pow2 g)%R -> Z.even Q = true).

(** [x] is the number a non-negative real [v] rounds to.  The real is given
    by a mantissa and an exponent, the way every operation of [SpecFloat]
    hands its exact result to the rounding function. *)
Definition Rnd (v : R) (x : number) : Prop :=
  (v = 0%R /\ x = S754_zero false) \/
  exists M e, v = F2R (Zpos M) e /\ prenormal M e /\
              x = mk_float false (round_mant M e).

(** The largest finite number, and the power of two below it. *)
Definition max_float : number := S754_finite false (2 ^ 53 - 1) 971.
Definition half_top : number := S754_finite false (2 ^ 52) 971.

(** A rate of the schedule: a number between 0 and one half. *)
Definition rate (lit : number) : Prop :=
  finite_nonneg lit = true /\ (0 <= SF2R lit <= / 2)%R.

(** The tax before rounding, as [calculateEstimatedTax] branches on it;
    [calculateProgressiveTax] computes the two bracket bases instead of
    writing them, to the same numbers. *)
Definition bracketTax (taxableIncome : number) : number :=
  if le taxableIncome (of_Z 50000) then
    mul taxableIncome lit_0_10
  else if le taxableIncome (of_Z 100000) then
    add (of_Z 5000) (mul (sub taxableIncome (of_Z 50000)) lit_0_20)
  else
    add (of_Z 15000) (mul (sub taxableIncome (of_Z 100000)) lit_0_30).

(** The exact tax in tenths of a unit, an integer. *)
Definition tenths (t : Z) : Z :=
  if t <=? 50000 then t
  else if t <=? 100000 then 50000 + 2 * (t - 50000)
  else 150000 + 3 * (t - 100000).

End Rounding.

(* ===================================================================== *)
(** * Sample ledgers *)
(* ===================================================================== *)

Module Samples.
Import Ledger Dispatch.

(** A stand-in for the digest where a concrete one is needed; it never
    returns the zero word. *)
Definition sample_keccak (b : bytes) : bytes32 := 1 + Z.of_nat (length b).

Definition deployer : address := 1.
Definition alice : address := 2.

Definition deployMsg : Msg := {| sender := deployer; timestamp := 1700000000 |}.
Definition aliceMsg (t : uint256) : Msg := {| sender := alice; timestamp := t |}.

Definition bob : address := 3.
Definition bobMsg (t : uint256) : Msg := {| sender := bob; timestamp := t |}.

Definition someProof : bytes := [Byte.x01].
Definition otherProof : bytes := [Byte.x02; Byte.x03].
Definition someIncome : bytes32 * bytes32 := (7, 0).
Definition someDeductions : bytes32 * bytes32 := (9, 0).

Definition submitCall : Call :=
  CallSubmitTaxInfo someIncome someProof someDeductions someProof.

(** The ledger after deployment, after a submission of alice, and after her
    calculation. *)
Definition deployed : Storage := fst (constructor deployMsg).
Definition filed : Storage :=
  transact sample_keccak deployed (aliceMsg 1700000100) submitCall.
Definition assessed : Storage :=
  transact sample_keccak filed (aliceMsg 1700000200) CallCalculateTax.

(** The ledger after [n] submissions of alice, each but possibly the last
    one cleared: without a record ([idleState]) and with one
    ([filedState]). *)
Definition idleState (n : uint256) : Storage :=
  {| owner := deployer; deploymentTime := 1700000000; totalTaxpayers := n;
     taxRecords := ∅;
     hasSubmitted := if n =? 0 then ∅ else {[alice := false]} |}.

Definition filedState (n : uint256) : Storage :=
  {| owner := deployer; deploymentTime := 1700000000; totalTaxpayers := n;
     taxRecords :=
       {[alice := submittedRecord (aliceMsg 1700000100) someIncome
                    someDeductions]};
     hasSubmitted := {[alice := true]} |}.

(** What bob and the deployer send between two calls of alice: a
    submission with ether, a pause, a calculation, and a clear that the
    dispatcher turns down for the ether it carries. *)
Definition meanwhile : list Transaction :=
  [ {| tx_msg := bobMsg 1700000110; tx_value := 5; tx_call := submitCall |};
    {| tx_msg := deployMsg; tx_value := 0; tx_call := CallEmergencyPause |};
    {| tx_msg := bobMsg 1700000130; tx_value := 0;
       tx_call := CallCalculateTax |};
    {| tx_msg := bobMsg 1700000140; tx_value := 1;
       tx_call := CallClearTaxRecord |} ].



End Samples.

(* ===================================================================== *)
(** * Facts about rounding *)
(* ===================================================================== *)

Module RoundingFacts.
Import Number Rounding.

(** ** Powers of two *)

Lemma pow2_pos e : (0 < pow2 e)%R.
Proof. apply powerRZ_lt. lra. Qed.

Lemma pow2_add a b : pow2 (a + b) = (pow2 a * pow2 b)%R.
Proof. apply powerRZ_add. lra. Qed.

Lemma pow2_IZR n : 0 <= n -> pow2 n = IZR (2 ^ n).
Proof.
  intros Hn. unfold pow2.
  rewrite <- (Z2Nat.id n) by assumption.
  rewrite <- pow_powerRZ, pow_IZR. reflexivity.
Qed.

Lemma pow2_ge_1 n : 0 <= n -> (1 <= pow2 n)%R.
Proof.
  intros Hn. rewrite pow2_IZR by assumption.
  apply IZR_le. pose proof (Z.pow_pos_nonneg 2 n). lia.
Qed.

Lemma pow2_le a b : a <= b -> (pow2 a <= pow2 b)%R.
Proof.
  intros H. replace b with (a + (b - a)) by lia. rewrite pow2_add.
  pose proof (pow2_pos a). pose proof (pow2_ge_1 (b - a)). 
  assert (1 <= pow2 (b - a))%R by (apply H1; lia). nra.
Qed.

Lemma pow2_lt a b : a < b -> (pow2 a < pow2 b)%R.
Proof.
  intros H. replace b with (a + 1 + (b - a - 1)) by lia. rewrite !pow2_add.
  pose proof (pow2_pos a). pose proof (pow2_ge_1 (b - a - 1)).
  assert (1 <= pow2 (b - a - 1))%R by (apply H1; lia).
  replace (pow2 1) with 2%R by (unfold pow2; simpl; lra). nra.
Qed.

Lemma pow2_lt_inv a b : (pow2 a < pow2 b)%R -> a < b.
Proof.
  intros H. destruct (Z_lt_le_dec a b); auto.
  apply pow2_le in l. lra.
Qed.

Lemma pow2_succ a : pow2 (a + 1) = (2 * pow2 a)%R.
Proof. rewrite pow2_add. unfold pow2 at 2. simpl. lra. Qed.

Lemma pow2_pred a : pow2 (a - 1) = (pow2 a / 2)%R.
Proof.
  replace a with (a - 1 + 1) at 2 by lia. rewrite pow2_succ. lra.
Qed.

Lemma digits_bounds m : 2 ^ (digits m - 1) <= Zpos m < 2 ^ digits m.
Proof.
  unfold digits. induction m as [m IH | m IH |]; simpl digits2_pos.
  - rewrite Pos2Z.inj_succ.
    replace (Z.succ (Zpos (digits2_pos m)) - 1) with (Zpos (digits2_pos m) - 1 + 1) by lia.
    rewrite Z.pow_succ_r by lia. rewrite Z.pow_add_r by lia.
    change (2 ^ 1) with 2. lia.
  - rewrite Pos2Z.inj_succ.
    replace (Z.succ (Zpos (digits2_pos m)) - 1) with (Zpos (digits2_pos m) - 1 + 1) by lia.
    rewrite Z.pow_succ_r by lia. rewrite Z.pow_add_r by lia.
    change (2 ^ 1) with 2. lia.
  - simpl. lia.
Qed.

Lemma digits_pos m : 0 < digits m.
Proof. unfold digits. lia. Qed.

(** uniqueness of the number of digits *)
Lemma digits_unique m d : 2 ^ (d - 1) <= Zpos m < 2 ^ d -> digits m = d.
Proof.
  intros [Hl Hu]. pose proof (digits_bounds m) as [Hl' Hu'].
  pose proof (digits_pos m).
  assert (0 < d).
  { destruct (Z_lt_le_dec 0 d); auto.
    assert (2 ^ d <= 2 ^ 0) by (apply Z.pow_le_mono_r; lia). simpl in *. lia. }
  destruct (Z.lt_trichotomy (digits m) d) as [Hlt | [Heq | Hgt]]; auto.
  - assert (2 ^ digits m <= 2 ^ (d - 1)) by (apply Z.pow_le_mono_r; lia). lia.
  - assert (2 ^ d <= 2 ^ (digits m - 1)) by (apply Z.pow_le_mono_r; lia). lia.
Qed.

(** rne *)
Lemma rne_error M P : 0 < P -> 2 * Z.abs (rne M P * P - M) <= P.
Proof.
  intros HP. unfold rne.
  pose proof (Z.div_mod M P ltac:(lia)) as Hdm.
  pose proof (Z.mod_pos_bound M P HP) as Hb.
  destruct (Z.compare_spec (2 * (M mod P)) P); [destruct (Z.even (M / P))| |]; nia.
Qed.

Lemma rne_tie_even M P :
  0 < P -> 2 * Z.abs (rne M P * P - M) = P -> Z.even (rne M P) = true.
Proof.
  intros HP. unfold rne.
  pose proof (Z.div_mod M P ltac:(lia)) as Hdm.
  pose proof (Z.mod_pos_bound M P HP) as Hb.
  destruct (Z.compare_spec (2 * (M mod P)) P) as [He | Hl | Hg].
  - destruct (Z.even (M / P)) eqn:E; auto. intros _.
    rewrite Z.even_add, E. reflexivity.
  - intros H. nia.
  - intros H. nia.
Qed.

Lemma rne_exact H P : 0 < P -> rne (H * P) P = H.
Proof.
  intros HP. unfold rne. rewrite Z.mod_mul, Z.div_mul by lia.
  destruct (Z.compare_spec (2 * 0) P); lia.
Qed.

Lemma rne_nearest M P H :
  0 < P -> 2 * Z.abs (M - H * P) < P -> rne M P = H.
Proof.
  intros HP Hn. pose proof (rne_error M P HP). nia.
Qed.

Lemma rne_nonneg M P : 0 < P -> 0 <= M -> 0 <= rne M P.
Proof.
  intros HP HM. unfold rne.
  pose proof (Z.div_pos M P HM HP).
  destruct (_ ?= _); [destruct (Z.even _)| |]; lia.
Qed.

Lemma rne_upper M P B : 0 < P -> M < B * P -> rne M P <= B.
Proof.
  intros HP HM. unfold rne.
  assert (M / P < B) by (apply Z.div_lt_upper_bound; lia).
  destruct (_ ?= _); [destruct (Z.even _)| |]; lia.
Qed.

Lemma rne_lower M P B : 0 < P -> B * P <= M -> B <= rne M P.
Proof.
  intros HP HM. unfold rne.
  assert (B <= M / P) by (apply Z.div_le_lower_bound; lia).
  destruct (_ ?= _); [destruct (Z.even _)| |]; lia.
Qed.

(** ** Right shifts and the rounded mantissa *)

Lemma shr_1_inv M k mrs : shr_inv M k mrs -> shr_inv M (k + 1) (shr_1 mrs).
Proof.
  intros (Hk & Hm & rem & HM & Hrem & Hr & Hs).
  destruct mrs as [m r s]. cbn [shr_m shr_r shr_s] in *.
  assert (HP : 0 < 2 ^ k) by (apply Z.pow_pos_nonneg; lia).
  assert (HP2 : 2 ^ (k + 1) = 2 * 2 ^ k) by (rewrite Z.pow_add_r by lia; change (2 ^ 1) with 2; lia).
  assert (Hrs : (r || s)%bool = true <-> rem <> 0).
  { rewrite orb_true_iff, Hr, Hs. lia. }
  unfold shr_inv. rewrite HP2.
  destruct m as [| [p | p |] | p]; cbn [shr_1 shr_m shr_r shr_s]; try lia.
  - split; [lia|]. split; [lia|]. exists rem. rewrite Hrs. repeat split; try lia; congruence.
  - split; [lia|]. split; [lia|]. exists (2 ^ k + rem). rewrite Hrs.
    rewrite Pos2Z.inj_xI in HM. repeat split; try lia; congruence.
  - split; [lia|]. split; [lia|]. exists rem. rewrite Hrs.
    rewrite Pos2Z.inj_xO in HM. repeat split; try lia; congruence.
  - split; [lia|]. split; [lia|]. exists (2 ^ k + rem). rewrite Hrs.
    repeat split; try lia; congruence.
Qed.

Lemma iter_pos_shr_inv p : forall M k mrs,
  shr_inv M k mrs -> shr_inv M (k + Zpos p) (SpecFloat.iter_pos shr_1 p mrs).
Proof.
  induction p as [p IH | p IH |]; intros M k mrs H; simpl.
  - apply shr_1_inv in H. apply IH in H. apply IH in H.
    replace (k + Zpos p~1) with (k + 1 + Zpos p + Zpos p) by lia. exact H.
  - apply IH in H. apply IH in H.
    replace (k + Zpos p~0) with (k + Zpos p + Zpos p) by lia. exact H.
  - apply shr_1_inv. exact H.
Qed.

Lemma shr_inv_init M : 0 <= M -> shr_inv M 0 (shr_record_of_loc M loc_Exact).
Proof.
  intros HM. simpl. unfold shr_inv; simpl. split; [lia|]. split; [lia|].
  exists 0. repeat split; try lia; intros; try discriminate; lia.
Qed.

Lemma shr_inv_round M k mrs :
  shr_inv M k mrs ->
  round_nearest_even (shr_m mrs) (loc_of_shr_record mrs) = rne M (2 ^ k).
Proof.
  intros (Hk & Hm & rem & HM & Hrem & Hr & Hs).
  assert (HP : 0 < 2 ^ k) by (apply Z.pow_pos_nonneg; lia).
  assert (Hdiv : M / 2 ^ k = shr_m mrs).
  { symmetry. apply (Z.div_unique_pos M (2 ^ k) _ rem); lia. }
  assert (Hmod : M mod 2 ^ k = rem).
  { symmetry. apply (Z.mod_unique_pos M (2 ^ k) (shr_m mrs) rem); lia. }
  unfold rne. rewrite Hdiv, Hmod.
  destruct mrs as [m r s]. cbn [shr_m shr_r shr_s] in *.
  destruct r, s; cbn [loc_of_shr_record round_nearest_even];
    destruct (Z.compare_spec (2 * rem) (2 ^ k)); try reflexivity;
    try (exfalso; intuition (try lia; try discriminate; try congruence)).
Qed.

Lemma shr_pos_round M e n :
  0 < M -> 0 < n ->
  let '(mrs, e') := shr (shr_record_of_loc M loc_Exact) e n in
  round_nearest_even (shr_m mrs) (loc_of_shr_record mrs) = rne M (2 ^ n) /\
  e' = e + n.
Proof.
  intros HM Hn. destruct n as [|p|p]; try lia.
  unfold shr. split; [|reflexivity].
  apply shr_inv_round.
  apply (iter_pos_shr_inv p M 0). apply shr_inv_init. lia.
Qed.

Lemma fexp_eq k : fexp prec emax k = Z.max (k - 53) (-1074).
Proof. reflexivity. Qed.

Lemma digits_le m k : 0 <= k -> Zpos m < 2 ^ k -> digits m <= k.
Proof.
  intros Hk H. pose proof (digits_bounds m) as [Hl _]. pose proof (digits_pos m).
  destruct (Z_lt_le_dec k (digits m)); [|lia].
  assert (2 ^ k <= 2 ^ (digits m - 1)) by (apply Z.pow_le_mono_r; lia). lia.
Qed.

Lemma digits_ge m k : 2 ^ k <= Zpos m -> k < digits m.
Proof.
  intros H. pose proof (digits_bounds m) as [_ Hu]. pose proof (digits_pos m).
  destruct (Z_lt_le_dec k (digits m)); [lia|].
  assert (2 ^ digits m <= 2 ^ k) by (apply Z.pow_le_mono_r; lia). lia.
Qed.

(** The rounded mantissa fits 53 bits, up to a carry. *)
Lemma round_mant_bound M e :
  let n := fexp prec emax (digits M + e) - e in
  0 < n -> 0 <= rne (Zpos M) (2 ^ n) <= 2 ^ 53.
Proof.
  intros n Hn. assert (HP : 0 < 2 ^ n) by (apply Z.pow_pos_nonneg; lia).
  split; [apply rne_nonneg; lia|].
  apply rne_upper; auto.
  pose proof (digits_bounds M) as [_ Hu]. pose proof (digits_pos M).
  assert (digits M <= 53 + n) by (unfold n; rewrite fexp_eq; lia).
  assert (2 ^ digits M <= 2 ^ (53 + n)) by (apply Z.pow_le_mono_r; lia).
  rewrite Z.pow_add_r in H1 by lia. lia.
Qed.

Theorem binary_round_aux_spec s M e :
  binary_round_aux prec emax s (Zpos M) e loc_Exact = mk_float s (round_mant M e).
Proof.
  unfold binary_round_aux, round_mant, shr_fexp.
  change (Zdigits2 (Zpos M)) with (digits M).
  set (n := fexp prec emax (digits M + e) - e).
  destruct (Z.leb_spec n 0) as [Hn | Hn].
  - (* no shift *)
    assert (Hshr : forall mrs, shr mrs e n = (mrs, e)).
    { intros mrs. unfold shr. destruct n; try reflexivity. lia. }
    rewrite Hshr. cbn [shr_record_of_loc shr_m loc_of_shr_record round_nearest_even].
    change (Zdigits2 (Zpos M)) with (digits M). fold n. rewrite Hshr.
    cbn [shr_m mk_float].
    assert (Hd : digits M <= 53) by (unfold n in Hn; rewrite fexp_eq in Hn; lia).
    pose proof (digits_bounds M) as [_ Hu].
    assert (2 ^ digits M <= 2 ^ 53) by (apply Z.pow_le_mono_r; lia).
    destruct (Z.eqb_spec (Zpos M) (2 ^ prec)) as [E | _]; [unfold prec in E; lia|].
    reflexivity.
  - pose proof (shr_pos_round (Zpos M) e n ltac:(lia) Hn) as Hshr.
    destruct (shr (shr_record_of_loc (Zpos M) loc_Exact) e n) as [mrs e'].
    destruct Hshr as [Hq ->]. rewrite Hq.
    pose proof (round_mant_bound M e Hn) as Hb. fold n in Hb.
    set (q := rne (Zpos M) (2 ^ n)) in *.
    assert (He' : e + n = fexp prec emax (digits M + e)) by (unfold n; lia).
    assert (Hemin : -1074 <= e + n) by (rewrite He', fexp_eq; lia).
    destruct q as [|p|p] eqn:Eq; [| |lia].
    + (* zero *)
      cbn [Zdigits2]. rewrite fexp_eq.
      assert (Hshr : forall mrs, shr mrs (e + n) (Z.max (0 + (e + n) - 53) (-1074) - (e + n)) = (mrs, e + n)).
      { intros mrs'. unfold shr. destruct (Z.max _ _ - _) eqn:E; try reflexivity. lia. }
      rewrite Hshr. reflexivity.
    + change (Zdigits2 (Zpos p)) with (digits p).
      destruct (Z.eqb_spec (Zpos p) (2 ^ prec)) as [E | E].
      * (* carry *)
        assert (Hdq : digits p = 54).
        { apply digits_unique. rewrite E. unfold prec. simpl. lia. }
        rewrite Hdq, fexp_eq.
        replace (Z.max (54 + (e + n) - 53) (-1074) - (e + n)) with 1 by lia.
        cbn [mk_float]. rewrite E.
        change (2 ^ prec =? 2 ^ prec) with true. cbv iota.
        reflexivity.
      * assert (Hdq : digits p <= 53).
        { apply digits_le; [lia|]. unfold prec in E. lia. }
        rewrite fexp_eq.
        assert (Hshr : forall mrs, shr mrs (e + n) (Z.max (digits p + (e + n) - 53) (-1074) - (e + n)) = (mrs, e + n)).
        { intros mrs'. unfold shr. destruct (Z.max _ _ - _) eqn:E'; try reflexivity. lia. }
        rewrite Hshr. cbn [shr_record_of_loc shr_m mk_float].
        destruct (Z.eqb_spec (Zpos p) (2 ^ prec)); [contradiction|]. reflexivity.
Qed.

(** ** The real a rounded number stands for *)

Lemma F2R_shift m e j : 0 <= j -> F2R (m * 2 ^ j) (e - j) = F2R m e.
Proof.
  intros Hj. unfold F2R. rewrite mult_IZR. rewrite <- pow2_IZR by assumption.
  replace e with (e - j + j) at 2 by lia. rewrite pow2_add. ring.
Qed.

Lemma F2R_lt_pow2 m e k : 0 <= k -> m < 2 ^ k -> (F2R m e < pow2 (k + e))%R.
Proof.
  intros Hk H. unfold F2R. rewrite pow2_add. rewrite (pow2_IZR k) by assumption.
  apply Rmult_lt_compat_r; [apply pow2_pos | apply IZR_lt; assumption].
Qed.

Lemma F2R_ge_pow2 m e k : 0 <= k -> 2 ^ k <= m -> (pow2 (k + e) <= F2R m e)%R.
Proof.
  intros Hk H. unfold F2R. rewrite pow2_add. rewrite (pow2_IZR k) by assumption.
  apply Rmult_le_compat_r; [left; apply pow2_pos | apply IZR_le; assumption].
Qed.

Lemma F2R_le m1 m2 e : m1 <= m2 -> (F2R m1 e <= F2R m2 e)%R.
Proof.
  intros H. unfold F2R.
  apply Rmult_le_compat_r; [left; apply pow2_pos | apply IZR_le; assumption].
Qed.

Lemma F2R_lt m1 m2 e : m1 < m2 -> (F2R m1 e < F2R m2 e)%R.
Proof.
  intros H. unfold F2R.
  apply Rmult_lt_compat_r; [apply pow2_pos | apply IZR_lt; assumption].
Qed.

Lemma F2R_lt_inv m1 m2 e : (F2R m1 e < F2R m2 e)%R -> m1 < m2.
Proof.
  intros H. destruct (Z_lt_le_dec m1 m2); auto.
  apply (F2R_le _ _ e) in l. lra.
Qed.

Lemma F2R_le_inv m1 m2 e : (F2R m1 e <= F2R m2 e)%R -> m1 <= m2.
Proof.
  intros H. destruct (Z_le_gt_dec m1 m2); auto.
  assert (m2 < m1) by lia. apply (F2R_lt _ _ e) in H0. lra.
Qed.

Lemma F2R_pos m e : 0 < m -> (0 < F2R m e)%R.
Proof.
  intros H. unfold F2R. apply Rmult_lt_0_compat; [apply IZR_lt; assumption | apply pow2_pos].
Qed.

Lemma F2R_0 e : F2R 0 e = 0%R.
Proof. unfold F2R. lra. Qed.

(** magnitude *)
Lemma F2R_mag M e :
  (pow2 (digits M + e - 1) <= F2R (Zpos M) e < pow2 (digits M + e))%R.
Proof.
  pose proof (digits_bounds M) as [Hl Hu]. pose proof (digits_pos M).
  split.
  - replace (digits M + e - 1) with (digits M - 1 + e) by lia.
    apply F2R_ge_pow2; [lia | assumption].
  - apply F2R_lt_pow2; [lia | assumption].
Qed.

(** what [bounded] says *)
Lemma bounded_spec m e :
  SpecFloat.bounded prec emax m e = true <->
  e = fexp prec emax (digits m + e) /\ e <= 971.
Proof.
  unfold SpecFloat.bounded, canonical_mantissa. fold (digits m).
  rewrite andb_true_iff, Z.eqb_eq, Z.leb_le. unfold emax, prec at 2. lia.
Qed.

Lemma bounded_digits m e :
  SpecFloat.bounded prec emax m e = true ->
  -1074 <= e <= 971 /\ digits m <= 53 /\ (-1074 < e -> digits m = 53).
Proof.
  intros H. apply bounded_spec in H. destruct H as [H1 H2].
  rewrite fexp_eq in H1. lia.
Qed.

(** the rounded mantissa of a pre-normalized pair *)
Lemma round_mant_prenormal M e :
  prenormal M e ->
  let (q, e') := round_mant M e in
  e' = fexp prec emax (digits M + e) /\ 0 <= q <= 2 ^ 53 /\
  (-1074 < e' -> 2 ^ 52 <= q).
Proof.
  unfold prenormal, round_mant. intros Hp.
  set (n := fexp prec emax (digits M + e) - e).
  pose proof (digits_bounds M) as [Hl Hu]. pose proof (digits_pos M).
  destruct (Z.leb_spec n 0) as [Hn | Hn].
  - assert (n = 0) by (unfold n; lia). unfold n in *.
    rewrite fexp_eq in *.
    split; [lia|]. split.
    + split; [lia|]. assert (2 ^ digits M <= 2 ^ 53) by (apply Z.pow_le_mono_r; lia). lia.
    + intros He. assert (digits M = 53) by lia.
      rewrite H1 in Hl. simpl in Hl. lia.
  - split; [unfold n; lia|]. split; [apply (round_mant_bound M e Hn)|].
    intros He. assert (Hnd : n = digits M - 53) by (unfold n in *; rewrite fexp_eq in *; lia).
    apply rne_lower; [apply Z.pow_pos_nonneg; lia|].
    rewrite <- Z.pow_add_r by lia. replace (52 + n) with (digits M - 1) by lia. exact Hl.
Qed.

Lemma mk_float_valid s M e :
  prenormal M e -> valid_binary prec emax (mk_float s (round_mant M e)) = true.
Proof.
  intros Hp. pose proof (round_mant_prenormal M e Hp) as H.
  destruct (round_mant M e) as [q e']. destruct H as (He' & Hq & Hn).
  assert (Hemin : -1074 <= e') by (rewrite He', fexp_eq; lia).
  unfold mk_float. destruct q as [|p|p]; try reflexivity.
  destruct (Z.eqb_spec (Zpos p) (2 ^ prec)) as [E | E].
  - destruct (Z.leb_spec (e' + 1) (emax - prec)); [|reflexivity].
    cbn [valid_binary]. apply bounded_spec. split; [|unfold emax, prec in *; lia].
    replace (digits (Z.to_pos (2 ^ (prec - 1)))) with 53 by reflexivity.
    rewrite fexp_eq. lia.
  - destruct (Z.leb_spec e' (emax - prec)); [|reflexivity].
    cbn [valid_binary]. apply bounded_spec. split; [|unfold emax, prec in *; lia].
    rewrite fexp_eq. unfold prec in E.
    assert (digits p <= 53) by (apply digits_le; lia).
    destruct (Z.eq_dec e' (-1074)); [lia|].
    assert (52 < digits p) by (apply digits_ge; apply Hn; lia). lia.
Qed.

(** The value of what [mk_float] builds, and when it overflows. *)
Lemma mk_float_cases M e :
  prenormal M e ->
  let (q, e') := round_mant M e in
  (mk_float false (q, e') = S754_infinity false /\ (pow2 1024 <= F2R q e')%R) \/
  (finite_nonneg (mk_float false (q, e')) = true /\
   SF2R (mk_float false (q, e')) = F2R q e' /\ (F2R q e' < pow2 1024)%R).
Proof.
  intros Hp. pose proof (round_mant_prenormal M e Hp) as H.
  pose proof (mk_float_valid false M e Hp) as Hv.
  destruct (round_mant M e) as [q e']. destruct H as (He' & Hq & Hn).
  assert (Hemin : -1074 <= e') by (rewrite He', fexp_eq; lia).
  unfold mk_float in *. destruct q as [|p|p]; [| |lia].
  - right. rewrite F2R_0. repeat split; auto. apply pow2_pos.
  - change (emax - prec) with 971 in *. change (2 ^ prec) with (2 ^ 53) in *.
    change (Z.to_pos (2 ^ (prec - 1))) with (Z.to_pos (2 ^ 52)) in *.
    destruct (Z.eqb_spec (Zpos p) (2 ^ 53)) as [E | E].
    + rewrite E.
      assert (HF : F2R (2 ^ 53) e' = pow2 (53 + e')).
      { unfold F2R. rewrite <- pow2_IZR by lia. rewrite <- pow2_add. reflexivity. }
      rewrite HF.
      destruct (Z.leb_spec (e' + 1) 971) as [Hle | Hgt].
      * right. split; [exact Hv|]. split.
        -- cbn [SF2R cond_Zopp]. change (Zpos (Z.to_pos (2 ^ 52))) with (2 ^ 52).
           unfold F2R. rewrite <- pow2_IZR by lia. rewrite <- pow2_add.
           f_equal. lia.
        -- apply pow2_lt. lia.
      * left. split; auto. apply pow2_le. lia.
    + destruct (Z.leb_spec e' 971) as [Hle | Hgt].
      * right. split; [exact Hv|]. split; [reflexivity|].
        apply Rlt_le_trans with (pow2 (53 + e')).
        -- apply F2R_lt_pow2; lia.
        -- apply pow2_le. lia.
      * left. split; auto.
        apply Rle_trans with (pow2 (52 + e')).
        -- apply pow2_le. lia.
        -- apply F2R_ge_pow2; [lia|]. apply Hn. lia.
Qed.

(** ** Nearest multiples, and their order *)

Lemma F2R_plus a b e : F2R (a + b) e = (F2R a e + F2R b e)%R.
Proof. unfold F2R. rewrite plus_IZR. ring. Qed.

Lemma F2R_minus a b e : F2R (a - b) e = (F2R a e - F2R b e)%R.
Proof. unfold F2R. rewrite minus_IZR. ring. Qed.

Lemma F2R_1 e : F2R 1 e = pow2 e.
Proof. unfold F2R. lra. Qed.

Lemma F2R_pow2 k e : 0 <= k -> F2R (2 ^ k) e = pow2 (k + e).
Proof.
  intros Hk. unfold F2R. rewrite <- pow2_IZR by assumption.
  rewrite pow2_add. reflexivity.
Qed.

Lemma F2R_eq_inv m1 m2 e : F2R m1 e = F2R m2 e -> m1 = m2.
Proof.
  intros H. assert (m1 <= m2) by (apply (F2R_le_inv _ _ e); lra).
  assert (m2 <= m1) by (apply (F2R_le_inv _ _ e); lra). lia.
Qed.

(** an integer within less than a half above [b] is at most [b] *)
Lemma F2R_half_le a b g : (2 * (F2R a g - F2R b g) < pow2 g)%R -> a <= b.
Proof.
  intros H. enough (2 * a < 2 * b + 1) by lia.
  apply (F2R_lt_inv _ _ g). rewrite F2R_plus, F2R_1.
  replace (2 * a) with (a + a) by lia. replace (2 * b) with (b + b) by lia.
  rewrite !F2R_plus. lra.
Qed.

Lemma round_mant_nearest M e :
  let (q, e') := round_mant M e in
  let g := fexp prec emax (digits M + e) in
  exists Q, F2R q e' = F2R Q g /\ 0 <= Q /\ nearest g (F2R (Zpos M) e) Q.
Proof.
  unfold round_mant.
  set (g := fexp prec emax (digits M + e)). set (n := g - e).
  destruct (Z.leb_spec n 0) as [Hn | Hn].
  - exists (Zpos M * 2 ^ (e - g)).
    assert (HF : F2R (Zpos M * 2 ^ (e - g)) g = F2R (Zpos M) e).
    { replace g with (e - (e - g)) at 2 by lia. apply F2R_shift. unfold n in Hn. lia. }
    split; [symmetry; exact HF|].
    split; [assert (0 < 2 ^ (e - g)) by (apply Z.pow_pos_nonneg; unfold n in *; lia); lia|].
    unfold nearest. rewrite HF. pose proof (pow2_pos g).
    repeat split; try lra; intros; exfalso; lra.
  - exists (rne (Zpos M) (2 ^ n)).
    assert (HP : 0 < 2 ^ n) by (apply Z.pow_pos_nonneg; lia).
    replace (e + n) with g by (unfold n; lia).
    split; [reflexivity|]. split; [apply rne_nonneg; lia|].
    set (q := rne (Zpos M) (2 ^ n)).
    assert (HM : F2R (Zpos M) e = F2R (Zpos M * 2 ^ 0) e) by (f_equal; lia).
    assert (Hq : F2R q g = F2R (q * 2 ^ n) e).
    { replace e with (g - n) by (unfold n; lia). symmetry. apply F2R_shift. lia. }
    assert (HG : pow2 g = F2R (2 ^ n) e).
    { rewrite F2R_pow2 by lia. f_equal. unfold n. lia. }
    pose proof (rne_error (Zpos M) (2 ^ n) HP) as Herr. fold q in Herr.
    unfold nearest. rewrite Hq, HG.
    replace (2 * (F2R (q * 2 ^ n) e - F2R (Zpos M) e))%R
      with (F2R (2 * (q * 2 ^ n - Zpos M)) e).
    2:{ replace (2 * (q * 2 ^ n - Zpos M)) with ((q * 2 ^ n - Zpos M) + (q * 2 ^ n - Zpos M)) by lia.
        rewrite F2R_plus, F2R_minus. lra. }
    replace (- F2R (2 ^ n) e)%R with (F2R (- 2 ^ n) e)
      by (unfold F2R; rewrite opp_IZR; ring).
    split; [split; apply F2R_le; lia|].
    split; intros Ht; apply F2R_eq_inv in Ht;
      apply (rne_tie_even (Zpos M) (2 ^ n) HP); fold q; lia.
Qed.

Lemma fexp_mono a b : a <= b -> fexp prec emax a <= fexp prec emax b.
Proof. intros H. rewrite !fexp_eq. lia. Qed.

(** Rounding is monotone. *)
Lemma nearest_mono mu1 mu2 v1 v2 Q1 Q2 :
  (pow2 (mu1 - 1) <= v1 < pow2 mu1)%R ->
  (pow2 (mu2 - 1) <= v2 < pow2 mu2)%R ->
  (v1 <= v2)%R ->
  nearest (fexp prec emax mu1) v1 Q1 ->
  nearest (fexp prec emax mu2) v2 Q2 ->
  (F2R Q1 (fexp prec emax mu1) <= F2R Q2 (fexp prec emax mu2))%R.
Proof.
  intros Hm1 Hm2 Hv (Hb1 & Hu1 & Hl1) (Hb2 & Hu2 & Hl2).
  assert (Hmu : mu1 <= mu2).
  { enough (mu1 - 1 < mu2) by lia. apply pow2_lt_inv. lra. }
  pose proof (fexp_mono _ _ Hmu) as Hg.
  set (g1 := fexp prec emax mu1) in *. set (g2 := fexp prec emax mu2) in *.
  destruct (Z.eq_dec g1 g2) as [Heq | Hne].
  - (* same grid *)
    rewrite <- Heq in *. clearbody g1. clear g2 Heq Hg.
    destruct (Z_le_gt_dec Q1 Q2) as [Hle | Hgt]; [apply F2R_le; exact Hle|].
    exfalso.
    assert (H1 : (F2R (Q2 + 1) g1 <= F2R Q1 g1)%R) by (apply F2R_le; lia).
    rewrite F2R_plus, F2R_1 in H1.
    assert (E1 : (2 * (F2R Q1 g1 - v1) = pow2 g1)%R) by lra.
    assert (E2 : (2 * (F2R Q2 g1 - v2) = - pow2 g1)%R) by lra.
    assert (E3 : F2R Q1 g1 = F2R (Q2 + 1) g1) by (rewrite F2R_plus, F2R_1; lra).
    apply F2R_eq_inv in E3. apply Hu1 in E1. apply Hl2 in E2.
    rewrite E3, Z.even_add, E2 in E1. discriminate.
  - (* the second value is in a binade above *)
    assert (Hg2 : g2 = mu2 - 53) by (unfold g1, g2 in *; rewrite !fexp_eq in *; lia).
    assert (Hmu' : mu1 < mu2).
    { destruct (Z.eq_dec mu1 mu2); [subst; unfold g1, g2 in *; lia | lia]. }
    apply Rle_trans with (pow2 (mu2 - 1)).
    + (* the first rounds to the top of its binade at most *)
      set (k := Z.max mu1 g1).
      apply Rle_trans with (pow2 k); [|apply pow2_le; unfold k; lia].
      replace k with (k - g1 + g1) by lia.
      rewrite <- F2R_pow2 by (unfold k; lia).
      apply F2R_le. apply (F2R_half_le _ _ g1).
      rewrite F2R_pow2 by (unfold k; lia).
      replace (k - g1 + g1) with k by lia.
      assert (pow2 mu1 <= pow2 k)%R by (apply pow2_le; unfold k; lia).
      pose proof (pow2_pos g1). lra.
    + (* the second rounds to the bottom of its binade at least *)
      replace (mu2 - 1) with (52 + g2) by lia.
      rewrite <- F2R_pow2 by lia.
      apply F2R_le.
      enough (2 ^ 52 - 1 <= Q2 - 1) by lia.
      apply (F2R_half_le _ _ g2).
      rewrite !F2R_minus, F2R_1, F2R_pow2 by lia.
      replace (52 + g2) with (mu2 - 1) by lia.
      pose proof (pow2_pos g2). 
      destruct (Req_dec v2 (pow2 (mu2 - 1))) as [Hv2 | Hv2]; [|lra].
      destruct (Req_dec (2 * (F2R Q2 g2 - v2)) (- pow2 g2)) as [Et | Et]; [|lra].
      (* a tie at the bottom of the binade would sit on an odd multiple *)
      exfalso.
      assert (HQ : F2R (2 * Q2) g2 = F2R (2 * 2 ^ 52 - 1) g2).
      { replace (2 * Q2) with (Q2 + Q2) by lia.
        replace (2 * 2 ^ 52 - 1) with (2 ^ 52 + 2 ^ 52 - 1) by lia.
        rewrite !F2R_plus, F2R_minus, !F2R_plus, F2R_1, F2R_pow2 by lia.
        replace (52 + g2) with (mu2 - 1) by lia. lra. }
      apply F2R_eq_inv in HQ. lia.
Qed.

(** ** Comparison, and the rounding predicate *)

Lemma finite_nonneg_cases x :
  finite_nonneg x = true ->
  x = S754_zero false \/
  exists m e, x = S754_finite false m e /\ SpecFloat.bounded prec emax m e = true.
Proof.
  destruct x as [[|]| | |[|] m e]; simpl; try discriminate; eauto.
Qed.

Lemma finite_nonneg_nonneg x : finite_nonneg x = true -> (0 <= SF2R x)%R.
Proof.
  intros H. apply finite_nonneg_cases in H. destruct H as [-> | (m & e & -> & Hb)]; simpl.
  - lra.
  - left. apply F2R_pos. lia.
Qed.

Lemma finite_nonneg_lt_top x : finite_nonneg x = true -> (SF2R x < pow2 1024)%R.
Proof.
  intros H. apply finite_nonneg_cases in H. destruct H as [-> | (m & e & -> & Hb)]; simpl.
  - apply pow2_pos.
  - apply bounded_digits in Hb. destruct Hb as (He & Hd & _).
    pose proof (digits_bounds m) as [_ Hu].
    assert (2 ^ digits m <= 2 ^ 53) by (apply Z.pow_le_mono_r; lia).
    apply Rlt_le_trans with (pow2 (53 + e)).
    + apply F2R_lt_pow2; lia.
    + apply pow2_le. lia.
Qed.

(** canonical numbers compare by exponent first *)
Lemma bounded_lt m1 e1 m2 e2 :
  SpecFloat.bounded prec emax m1 e1 = true ->
  SpecFloat.bounded prec emax m2 e2 = true ->
  e1 < e2 -> (F2R (Zpos m1) e1 < F2R (Zpos m2) e2)%R.
Proof.
  intros H1 H2 He.
  apply bounded_digits in H1, H2.
  destruct H1 as (He1 & Hd1 & _). destruct H2 as (He2 & _ & Hd2).
  pose proof (digits_bounds m1) as [_ Hu1].
  pose proof (digits_bounds m2) as [Hl2 _].
  rewrite Hd2 in Hl2 by lia.
  assert (2 ^ digits m1 <= 2 ^ 53) by (apply Z.pow_le_mono_r; lia).
  apply Rlt_le_trans with (pow2 (53 + e1)).
  - apply F2R_lt_pow2; lia.
  - apply Rle_trans with (pow2 (52 + e2)).
    + apply pow2_le. lia.
    + apply F2R_ge_pow2; [lia | exact Hl2].
Qed.

Lemma SFleb_finite_nonneg x y :
  finite_nonneg x = true -> finite_nonneg y = true ->
  (SFleb x y = true <-> (SF2R x <= SF2R y)%R).
Proof.
  intros Hx Hy.
  pose proof (finite_nonneg_nonneg y Hy) as Hny.
  apply finite_nonneg_cases in Hx, Hy.
  destruct Hx as [-> | (m1 & e1 & -> & Hb1)];
    destruct Hy as [-> | (m2 & e2 & -> & Hb2)]; unfold SFleb; simpl.
  - split; [lra | reflexivity].
  - split; [intros _; left; apply F2R_pos; lia | reflexivity].
  - split; [discriminate|]. intros H. exfalso.
    assert (0 < F2R (Zpos m1) e1)%R by (apply F2R_pos; lia). lra.
  - destruct (Z.compare_spec e1 e2) as [He | He | He].
    + subst e2. change (Pos.compare_cont Eq m1 m2) with (Pos.compare m1 m2).
      destruct (Pos.compare_spec m1 m2) as [Hm | Hm | Hm].
      * subst. split; [lra | reflexivity].
      * split; [|reflexivity]. intros _. apply F2R_le. lia.
      * split; [discriminate|]. intros H. apply F2R_le_inv in H. lia.
    + split; [|reflexivity]. intros _. left. apply bounded_lt; assumption.
    + split; [discriminate|]. intros H.
      pose proof (bounded_lt _ _ _ _ Hb2 Hb1 He). lra.
Qed.

Lemma finite_nonneg_eq x y :
  finite_nonneg x = true -> finite_nonneg y = true -> SF2R x = SF2R y -> x = y.
Proof.
  intros Hx Hy Hv.
  apply finite_nonneg_cases in Hx, Hy.
  destruct Hx as [-> | (m1 & e1 & -> & Hb1)];
    destruct Hy as [-> | (m2 & e2 & -> & Hb2)]; simpl in Hv.
  - reflexivity.
  - exfalso. assert (0 < F2R (Zpos m2) e2)%R by (apply F2R_pos; lia). lra.
  - exfalso. assert (0 < F2R (Zpos m1) e1)%R by (apply F2R_pos; lia). lra.
  - destruct (Z.lt_trichotomy e1 e2) as [He | [He | He]].
    + pose proof (bounded_lt _ _ _ _ Hb1 Hb2 He). lra.
    + subst e2. apply F2R_eq_inv in Hv. congruence.
    + pose proof (bounded_lt _ _ _ _ Hb2 Hb1 He). lra.
Qed.

(** Three outcomes of rounding a positive real. *)
Lemma Rnd_pos M e :
  prenormal M e ->
  let x := mk_float false (round_mant M e) in
  let g := fexp prec emax (digits M + e) in
  exists Q, 0 <= Q /\ nearest g (F2R (Zpos M) e) Q /\
    ((x = S754_infinity false /\ (pow2 1024 <= F2R Q g)%R) \/
     (finite_nonneg x = true /\ SF2R x = F2R Q g /\ (F2R Q g < pow2 1024)%R)).
Proof.
  intros Hp x g. unfold x.
  pose proof (round_mant_nearest M e) as Hn.
  pose proof (mk_float_cases M e Hp) as Hc.
  destruct (round_mant M e) as [q e'].
  destruct Hn as (Q & HQ & HQ0 & Hn). fold g in HQ, Hn.
  exists Q. split; [exact HQ0|]. split; [exact Hn|].
  rewrite <- HQ. exact Hc.
Qed.

Lemma Rnd_valid v x : Rnd v x -> valid_binary prec emax x = true.
Proof.
  intros [[_ ->] | (M & e & _ & Hp & ->)]; [reflexivity|].
  apply mk_float_valid. exact Hp.
Qed.

(** every rounded value is [+0], positive and finite, or [+infinity] *)
Lemma Rnd_cases v x :
  Rnd v x -> finite_nonneg x = true \/ x = S754_infinity false.
Proof.
  intros [[_ ->] | (M & e & _ & Hp & ->)]; [left; reflexivity|].
  destruct (Rnd_pos M e Hp) as (Q & _ & _ & [[H _] | [H _]]); auto.
Qed.

Theorem Rnd_mono v1 v2 x1 x2 :
  Rnd v1 x1 -> Rnd v2 x2 -> (v1 <= v2)%R -> SFleb x1 x2 = true.
Proof.
  intros H1 H2 Hv.
  destruct H1 as [[E1 ->] | (M1 & e1 & E1 & Hp1 & ->)].
  - destruct (Rnd_cases _ _ H2) as [Hf | ->]; [|reflexivity].
    apply SFleb_finite_nonneg; auto. simpl. apply finite_nonneg_nonneg. exact Hf.
  - destruct H2 as [[E2 ->] | (M2 & e2 & E2 & Hp2 & ->)].
    + exfalso. assert (0 < F2R (Zpos M1) e1)%R by (apply F2R_pos; lia). lra.
    + destruct (Rnd_pos M1 e1 Hp1) as (Q1 & _ & Hn1 & Hc1).
      destruct (Rnd_pos M2 e2 Hp2) as (Q2 & _ & Hn2 & Hc2).
      assert (Hr : (F2R Q1 (fexp prec emax (digits M1 + e1)) <=
                    F2R Q2 (fexp prec emax (digits M2 + e2)))%R).
      { apply (nearest_mono _ _ (F2R (Zpos M1) e1) (F2R (Zpos M2) e2));
          auto using F2R_mag. lra. }
      destruct Hc2 as [[-> Ht2] | (Hf2 & Hs2 & Ht2)].
      * destruct Hc1 as [[-> _] | (Hf1 & _)]; [reflexivity|].
        apply finite_nonneg_cases in Hf1. destruct Hf1 as [-> | (m & e & -> & _)]; reflexivity.
      * destruct Hc1 as [[_ Ht1] | (Hf1 & Hs1 & _)]; [lra|].
        apply SFleb_finite_nonneg; auto. lra.
Qed.

(** A finite non-negative number is what its own value rounds to. *)
Lemma Rnd_finite_nonneg x : finite_nonneg x = true -> Rnd (SF2R x) x.
Proof.
  intros H. apply finite_nonneg_cases in H. destruct H as [-> | (m & e & -> & Hb)].
  - left. auto.
  - right. exists m, e. split; [reflexivity|].
    pose proof (bounded_digits m e Hb) as (He & Hd & _).
    apply bounded_spec in Hb. destruct Hb as [Hc _].
    split; [unfold prenormal; lia|].
    unfold round_mant. rewrite <- Hc, Z.sub_diag. cbn [Z.leb Z.compare mk_float].
    pose proof (digits_bounds m) as [_ Hu].
    assert (2 ^ digits m <= 2 ^ 53) by (apply Z.pow_le_mono_r; lia).
    destruct (Z.eqb_spec (Zpos m) (2 ^ prec)) as [E|_]; [change (2 ^ prec) with (2 ^ 53) in E; lia|].
    destruct (Z.leb_spec e (emax - prec)) as [_|Hgt]; [reflexivity|].
    change (emax - prec) with 971 in Hgt. lia.
Qed.

(** Rounding stays below every finite number above the real, and above
    every finite number below it. *)
Lemma Rnd_below v x y :
  Rnd v x -> finite_nonneg y = true -> (v <= SF2R y)%R ->
  finite_nonneg x = true /\ (SF2R x <= SF2R y)%R.
Proof.
  intros Hx Hy Hv.
  pose proof (Rnd_mono _ _ _ _ Hx (Rnd_finite_nonneg y Hy) Hv) as Hle.
  destruct (Rnd_cases _ _ Hx) as [Hf | ->].
  - split; auto. apply SFleb_finite_nonneg; auto.
  - exfalso. apply finite_nonneg_cases in Hy.
    destruct Hy as [-> | (m & e & -> & _)]; discriminate.
Qed.

Lemma Rnd_above v x y :
  Rnd v x -> finite_nonneg y = true -> finite_nonneg x = true -> (SF2R y <= v)%R ->
  (SF2R y <= SF2R x)%R.
Proof.
  intros Hx Hy Hfx Hv.
  pose proof (Rnd_mono _ _ _ _ (Rnd_finite_nonneg y Hy) Hx Hv) as Hle.
  apply SFleb_finite_nonneg; auto.
Qed.

Lemma Rnd_nonneg v x : Rnd v x -> (0 <= v)%R.
Proof.
  intros [[-> _] | (M & e & -> & _)]; [lra|]. left. apply F2R_pos. lia.
Qed.

(** ** The operations *)

Lemma F2R_mult m1 e1 m2 e2 :
  F2R (m1 * m2) (e1 + e2) = (F2R m1 e1 * F2R m2 e2)%R.
Proof. unfold F2R. rewrite mult_IZR, pow2_add. ring. Qed.

Lemma digits_mul m1 m2 : digits m1 + digits m2 - 1 <= digits (m1 * m2).
Proof.
  pose proof (digits_bounds m1) as [H1 _]. pose proof (digits_bounds m2) as [H2 _].
  pose proof (digits_pos m1). pose proof (digits_pos m2).
  enough (digits m1 + digits m2 - 2 < digits (m1 * m2)) by lia.
  apply digits_ge. rewrite Pos2Z.inj_mul.
  replace (digits m1 + digits m2 - 2) with ((digits m1 - 1) + (digits m2 - 1)) by lia.
  rewrite Z.pow_add_r by lia.
  apply Z.mul_le_mono_nonneg; auto; apply Z.pow_nonneg; lia.
Qed.

Lemma prenormal_mul m1 e1 m2 e2 :
  SpecFloat.bounded prec emax m1 e1 = true ->
  SpecFloat.bounded prec emax m2 e2 = true ->
  prenormal (m1 * m2) (e1 + e2).
Proof.
  intros H1 H2. apply bounded_digits in H1, H2.
  pose proof (digits_mul m1 m2). pose proof (digits_pos m1). pose proof (digits_pos m2).
  unfold prenormal. rewrite fexp_eq. lia.
Qed.

Theorem mul_Rnd x y :
  finite_nonneg x = true -> finite_nonneg y = true ->
  Rnd (SF2R x * SF2R y) (SFmul prec emax x y).
Proof.
  intros Hx Hy. apply finite_nonneg_cases in Hx, Hy.
  destruct Hx as [-> | (m1 & e1 & -> & Hb1)];
    destruct Hy as [-> | (m2 & e2 & -> & Hb2)]; cbn [SFmul SF2R xorb cond_Zopp].
  - left. split; [lra | reflexivity].
  - left. split; [lra | reflexivity].
  - left. split; [lra | reflexivity].
  - right. exists (m1 * m2)%positive, (e1 + e2).
    rewrite binary_round_aux_spec, Pos2Z.inj_mul, F2R_mult.
    split; [reflexivity|]. split; [|reflexivity].
    apply prenormal_mul; assumption.
Qed.

Lemma iter_xO m d : Zpos (Pos.iter xO m d) = Zpos m * 2 ^ Zpos d.
Proof.
  induction d as [|d IH] using Pos.peano_ind.
  - simpl. lia.
  - rewrite Pos.iter_succ, Pos2Z.inj_xO, IH, Pos2Z.inj_succ, Z.pow_succ_r by lia. lia.
Qed.

Lemma shl_align_spec m e e' :
  let (m', e'') := shl_align m e e' in
  e'' = Z.min e e' /\ Zpos m' = Zpos m * 2 ^ (e - e'').
Proof.
  unfold shl_align. destruct (e' - e) as [|d|d] eqn:E.
  - split; [lia|]. replace (e - e) with 0 by lia. simpl. lia.
  - split; [lia|]. replace (e - e) with 0 by lia. simpl. lia.
  - split; [lia|]. rewrite iter_xO. f_equal. f_equal. lia.
Qed.

Lemma shl_align_F2R m e e' :
  F2R (Zpos (fst (shl_align m e e'))) (snd (shl_align m e e')) = F2R (Zpos m) e.
Proof.
  pose proof (shl_align_spec m e e') as H.
  destruct (shl_align m e e') as [m' e'']. destruct H as [He Hm]. cbn [fst snd].
  rewrite Hm. replace e'' with (e - (e - e'')) at 2 by lia.
  apply F2R_shift. lia.
Qed.

Lemma digits_shift m j : 0 <= j -> forall m', Zpos m' = Zpos m * 2 ^ j -> digits m' = digits m + j.
Proof.
  intros Hj m' Hm. apply digits_unique. rewrite Hm.
  pose proof (digits_bounds m) as [Hl Hu]. pose proof (digits_pos m).
  assert (HP : 0 < 2 ^ j) by (apply Z.pow_pos_nonneg; lia).
  replace (digits m + j - 1) with (digits m - 1 + j) by lia.
  rewrite !Z.pow_add_r by lia. nia.
Qed.

(** [binary_round] is [mk_float] of a pre-normalized pair of the same
    value. *)
Lemma binary_round_spec s m e :
  exists M e', F2R (Zpos M) e' = F2R (Zpos m) e /\ prenormal M e' /\
    binary_round prec emax s m e = mk_float s (round_mant M e').
Proof.
  unfold binary_round. fold (digits m).
  pose proof (shl_align_spec m e (fexp prec emax (digits m + e))) as H.
  pose proof (shl_align_F2R m e (fexp prec emax (digits m + e))) as HF.
  destruct (shl_align m e (fexp prec emax (digits m + e))) as [M e'].
  destruct H as [He HM]. cbn [fst snd] in HF.
  exists M, e'. split; [exact HF|]. split; [|apply binary_round_aux_spec].
  unfold prenormal.
  rewrite (digits_shift m (e - e') ltac:(lia) M HM).
  replace (digits m + (e - e') + e') with (digits m + e) by lia. lia.
Qed.

Lemma binary_round_Rnd m e :
  Rnd (F2R (Zpos m) e) (binary_round prec emax false m e).
Proof.
  destruct (binary_round_spec false m e) as (M & e' & HF & Hp & ->).
  right. exists M, e'. auto.
Qed.

Lemma mk_float_negative qe : 0 <= fst qe -> negative (mk_float true qe).
Proof.
  destruct qe as [q e]. cbn [fst]. intros Hq. unfold mk_float.
  destruct q as [|p|p]; [exact I | | lia].
  destruct (_ =? _); destruct (_ <=? _); exact I.
Qed.

Lemma binary_round_negative m e : negative (binary_round prec emax true m e).
Proof.
  destruct (binary_round_spec true m e) as (M & e' & _ & Hp & ->).
  apply mk_float_negative.
  pose proof (round_mant_prenormal M e' Hp) as H.
  destruct (round_mant M e') as [q e'']. cbn [fst]. lia.
Qed.

Lemma binary_normalize_Rnd z e :
  0 <= z -> Rnd (F2R z e) (binary_normalize prec emax z e false).
Proof.
  intros Hz. destruct z as [|p|p]; [| |lia].
  - left. split; [apply F2R_0 | reflexivity].
  - apply binary_round_Rnd.
Qed.

Lemma binary_normalize_negative z e :
  z < 0 -> negative (binary_normalize prec emax z e false).
Proof.
  intros Hz. destruct z as [|p|p]; try lia. apply binary_round_negative.
Qed.

(** The exact sum or difference [SFadd] and [SFsub] round. *)
Lemma aligned_F2R m e e' :
  e' <= e -> F2R (Zpos (fst (shl_align m e e'))) e' = F2R (Zpos m) e.
Proof.
  intros H. pose proof (shl_align_spec m e e') as Hs.
  pose proof (shl_align_F2R m e e') as HF.
  destruct (shl_align m e e') as [m' e'']. destruct Hs as [He _]. cbn [fst snd] in *.
  replace e'' with e' in HF by lia. exact HF.
Qed.

Theorem add_Rnd x y :
  finite_nonneg x = true -> finite_nonneg y = true ->
  Rnd (SF2R x + SF2R y) (SFadd prec emax x y).
Proof.
  intros Hx Hy.
  pose proof (Rnd_finite_nonneg x Hx) as Rx. pose proof (Rnd_finite_nonneg y Hy) as Ry.
  apply finite_nonneg_cases in Hx, Hy.
  destruct Hx as [-> | (m1 & e1 & -> & Hb1)];
    destruct Hy as [-> | (m2 & e2 & -> & Hb2)]; cbn [SFadd SF2R cond_Zopp] in *.
  - left. split; [lra | reflexivity].
  - rewrite Rplus_0_l. exact Ry.
  - rewrite Rplus_0_r. exact Rx.
  - rewrite <- (aligned_F2R m1 e1 (Z.min e1 e2)) by lia.
    rewrite <- (aligned_F2R m2 e2 (Z.min e1 e2)) by lia.
    rewrite <- F2R_plus. apply binary_normalize_Rnd. lia.
Qed.

Theorem sub_Rnd x y :
  finite_nonneg x = true -> finite_nonneg y = true ->
  ((SF2R y <= SF2R x)%R -> Rnd (SF2R x - SF2R y) (SFsub prec emax x y)) /\
  ((SF2R x < SF2R y)%R -> negative (SFsub prec emax x y)).
Proof.
  intros Hx Hy.
  pose proof (Rnd_finite_nonneg x Hx) as Rx.
  apply finite_nonneg_cases in Hx, Hy.
  destruct Hx as [-> | (m1 & e1 & -> & Hb1)];
    destruct Hy as [-> | (m2 & e2 & -> & Hb2)]; cbn [SFsub SF2R cond_Zopp negb] in *.
  - split; intros H; [left; split; [lra | reflexivity] | lra].
  - assert (0 < F2R (Zpos m2) e2)%R by (apply F2R_pos; lia).
    split; intros H'; [lra | exact I].
  - rewrite Rminus_0_r. split; intros H; [exact Rx|].
    assert (0 < F2R (Zpos m1) e1)%R by (apply F2R_pos; lia). lra.
  - rewrite <- (aligned_F2R m1 e1 (Z.min e1 e2)) by lia.
    rewrite <- (aligned_F2R m2 e2 (Z.min e1 e2)) by lia.
    set (a := Zpos (fst (shl_align m1 e1 (Z.min e1 e2)))).
    set (b := Zpos (fst (shl_align m2 e2 (Z.min e1 e2)))).
    split; intros H.
    + rewrite <- F2R_minus. apply binary_normalize_Rnd.
      apply F2R_le_inv in H. lia.
    + apply binary_normalize_negative. apply F2R_lt_inv in H. lia.
Qed.

End RoundingFacts.

(* ===================================================================== *)
(** * Facts about the tax engine *)
(* ===================================================================== *)

Module TaxFacts.
Import Number TaxEngine Rounding RoundingFacts.

(** ** Integers and taxable income *)

Lemma nearest_exact g v Q H : nearest g v Q -> v = F2R H g -> Q = H.
Proof.
  intros ((Hl & Hu) & _) ->.
  assert (H1 : (F2R (2 * (Q - H)) g <= F2R 1 g)%R).
  { replace (2 * (Q - H)) with ((Q - H) + (Q - H)) by lia.
    rewrite F2R_plus, F2R_minus, F2R_1. lra. }
  assert (H2 : (F2R (2 * (H - Q)) g <= F2R 1 g)%R).
  { replace (2 * (H - Q)) with ((H - Q) + (H - Q)) by lia.
    rewrite F2R_plus, F2R_minus, F2R_1. lra. }
  apply F2R_le_inv in H1, H2. lia.
Qed.

(** A real with a mantissa of at most 53 bits at an exponent in range is
    rounded to itself. *)
Theorem Rnd_representable v x H e0 :
  Rnd v x -> v = F2R H e0 -> 0 <= H < 2 ^ 53 -> -1074 <= e0 <= 971 ->
  finite_nonneg x = true /\ SF2R x = v.
Proof.
  intros Hr Hv HH He0.
  destruct Hr as [[E ->] | (M & e & E & Hp & ->)]; [split; [reflexivity | simpl; lra]|].
  destruct (Rnd_pos M e Hp) as (Q & HQ0 & Hn & Hc).
  set (g := fexp prec emax (digits M + e)) in *.
  pose proof (F2R_mag M e) as [Hl Hu]. rewrite <- E in Hl, Hu.
  assert (Htop : (v < pow2 (53 + e0))%R) by (rewrite Hv; apply F2R_lt_pow2; lia).
  assert (Hmu : digits M + e - 1 < 53 + e0) by (apply pow2_lt_inv; lra).
  assert (Hg : g <= e0) by (unfold g; rewrite fexp_eq; lia).
  assert (Hgrid : v = F2R (H * 2 ^ (e0 - g)) g).
  { rewrite Hv. replace g with (e0 - (e0 - g)) at 2 by lia.
    symmetry. apply F2R_shift. lia. }
  rewrite <- E in Hn.
  pose proof (nearest_exact g v Q _ Hn Hgrid) as ->. rewrite <- Hgrid in Hc.
  assert (pow2 (53 + e0) <= pow2 1024)%R by (apply pow2_le; lia).
  destruct Hc as [[_ Hc] | (Hf & Hs & _)]; [lra | auto].
Qed.

Lemma of_Z_Rnd z : 0 <= z -> Rnd (IZR z) (of_Z z).
Proof.
  intros Hz. replace (IZR z) with (F2R z 0).
  - apply binary_normalize_Rnd. exact Hz.
  - unfold F2R. change (pow2 0) with 1%R. lra.
Qed.

Lemma F2R_exp0 z : F2R z 0 = IZR z.
Proof. unfold F2R. change (pow2 0) with 1%R. lra. Qed.

(** Integers below [2^53] are numbers. *)
Theorem of_Z_exact z :
  0 <= z < 2 ^ 53 -> finite_nonneg (of_Z z) = true /\ SF2R (of_Z z) = IZR z.
Proof.
  intros Hz.
  apply (Rnd_representable (IZR z) (of_Z z) z 0); try lia.
  - apply of_Z_Rnd. lia.
  - symmetry. apply F2R_exp0.
Qed.

Lemma Math_max_0_finite_nonneg t : finite_nonneg t = true -> Math_max (of_Z 0) t = t.
Proof.
  intros H. apply finite_nonneg_cases in H. destruct H as [-> | (m & e & -> & _)]; reflexivity.
Qed.

Lemma Math_max_0_negative t : negative t -> Math_max (of_Z 0) t = S754_zero false.
Proof.
  destruct t as [[|]|[|]| |[|] m e]; simpl; intros H; try contradiction; reflexivity.
Qed.

(** ** Taxable income *)
Theorem taxableIncomeOf_spec i d :
  finite_nonneg i = true -> finite_nonneg d = true ->
  let t := taxableIncomeOf i d in
  finite_nonneg t = true /\ (SF2R t <= SF2R i)%R /\
  ((SF2R i <= SF2R d)%R -> t = S754_zero false) /\
  ((SF2R d <= SF2R i)%R -> Rnd (SF2R i - SF2R d) t).
Proof.
  intros Hi Hd t. unfold t, taxableIncomeOf, sub.
  pose proof (sub_Rnd i d Hi Hd) as [Hge Hlt].
  pose proof (finite_nonneg_nonneg i Hi) as Hi0. pose proof (finite_nonneg_nonneg d Hd) as Hd0.
  destruct (Rle_lt_dec (SF2R d) (SF2R i)) as [Hle | Hgt].
  - specialize (Hge Hle).
    destruct (Rnd_below _ _ i Hge Hi ltac:(lra)) as [Hf Hb].
    rewrite Math_max_0_finite_nonneg by exact Hf.
    repeat split; auto.
    intros Hle'. assert (E : (SF2R i - SF2R d)%R = 0%R) by lra.
    rewrite E in Hge.
    apply (finite_nonneg_eq _ (S754_zero false)); auto.
    apply (Rnd_representable 0%R _ 0 0); auto; try lia.
    symmetry. apply F2R_0.
  - specialize (Hlt Hgt). rewrite Math_max_0_negative by exact Hlt.
    repeat split; auto; simpl; try lra.
Qed.

Lemma taxableIncomeOf_mono_income i1 i2 d :
  finite_nonneg i1 = true -> finite_nonneg i2 = true -> finite_nonneg d = true ->
  (SF2R i1 <= SF2R i2)%R ->
  (SF2R (taxableIncomeOf i1 d) <= SF2R (taxableIncomeOf i2 d))%R.
Proof.
  intros H1 H2 Hd Hle.
  destruct (taxableIncomeOf_spec i1 d H1 Hd) as (Hf1 & _ & Hz1 & Hr1).
  destruct (taxableIncomeOf_spec i2 d H2 Hd) as (Hf2 & _ & Hz2 & Hr2).
  destruct (Rle_lt_dec (SF2R i1) (SF2R d)) as [Hs | Hs].
  - rewrite (Hz1 Hs). simpl. apply finite_nonneg_nonneg. exact Hf2.
  - apply SFleb_finite_nonneg; auto.
    apply (Rnd_mono (SF2R i1 - SF2R d) (SF2R i2 - SF2R d)); [apply Hr1 | apply Hr2 |]; lra.
Qed.

Lemma taxableIncomeOf_mono_deductions i d1 d2 :
  finite_nonneg i = true -> finite_nonneg d1 = true -> finite_nonneg d2 = true ->
  (SF2R d1 <= SF2R d2)%R ->
  (SF2R (taxableIncomeOf i d2) <= SF2R (taxableIncomeOf i d1))%R.
Proof.
  intros Hi H1 H2 Hle.
  destruct (taxableIncomeOf_spec i d1 Hi H1) as (Hf1 & _ & Hz1 & Hr1).
  destruct (taxableIncomeOf_spec i d2 Hi H2) as (Hf2 & _ & Hz2 & Hr2).
  destruct (Rle_lt_dec (SF2R i) (SF2R d2)) as [Hs | Hs].
  - rewrite (Hz2 Hs). simpl. apply finite_nonneg_nonneg. exact Hf1.
  - apply SFleb_finite_nonneg; auto.
    apply (Rnd_mono (SF2R i - SF2R d2) (SF2R i - SF2R d1)); [apply Hr2 | apply Hr1 |]; lra.
Qed.

(** ** [Math.round] *)

(** [Math.round] on a finite non-negative number is the floor of the
    number plus one half. *)
Lemma round_half_up_floor m e :
  e < 0 ->
  let n := round_half_up false m e in
  (IZR n <= F2R (Zpos m) e + / 2 < IZR n + 1)%R /\ 0 <= n.
Proof.
  intros He n. unfold n, round_half_up. cbn [cond_Zopp].
  set (den := 2 ^ (- e)).
  assert (Hden : 0 < den) by (apply Z.pow_pos_nonneg; lia).
  pose proof (Z.div_mod (2 * Zpos m + den) (2 * den) ltac:(lia)) as Hdm.
  pose proof (Z.mod_pos_bound (2 * Zpos m + den) (2 * den) ltac:(lia)) as Hb.
  set (q := (2 * Zpos m + den) / (2 * den)) in *.
  assert (Hq : 0 <= q) by (apply Z.div_pos; lia).
  split; [|exact Hq].
  (* everything at exponent [e - 1], where [den] is one half *)
  assert (Hhalf : F2R den (e - 1) = (/ 2)%R).
  { unfold den. rewrite F2R_pow2 by lia. replace (- e + (e - 1)) with (0 - 1) by lia.
    rewrite pow2_pred. change (pow2 0) with 1%R. lra. }
  assert (Hm : F2R (2 * Zpos m) (e - 1) = F2R (Zpos m) e).
  { replace (2 * Zpos m) with (Zpos m * 2 ^ 1) by lia. apply F2R_shift. lia. }
  assert (Hone : forall k, F2R (k * (2 * den)) (e - 1) = IZR k).
  { intros k. replace (k * (2 * den)) with ((k * den) + (k * den)) by lia.
    rewrite F2R_plus. unfold F2R in *. rewrite mult_IZR.
    rewrite Rmult_assoc, Hhalf. lra. }
  rewrite <- Hm, <- Hhalf, <- F2R_plus.
  rewrite <- (Hone q). replace (F2R (q * (2 * den)) (e - 1) + 1)%R with (F2R ((q + 1) * (2 * den)) (e - 1))
    by (rewrite !Hone, plus_IZR; lra).
  split; [apply F2R_le | apply F2R_lt]; lia.
Qed.

Theorem Math_round_finite_nonneg x :
  finite_nonneg x = true ->
  finite_nonneg (Math_round x) = true /\
  exists n, SF2R (Math_round x) = IZR n /\
            (IZR n <= SF2R x + / 2 < IZR n + 1)%R.
Proof.
  intros Hx. pose proof Hx as Hx'. apply finite_nonneg_cases in Hx'.
  destruct Hx' as [-> | (m & e & -> & Hb)].
  - split; [reflexivity|]. exists 0. simpl. lra.
  - cbn [Math_round]. destruct (Z.leb_spec 0 e) as [He | He].
    + split; [exact Hx|]. exists (Zpos m * 2 ^ e). cbn [SF2R cond_Zopp].
      replace (IZR (Zpos m * 2 ^ e)) with (F2R (Zpos m) e).
      * lra.
      * rewrite <- F2R_exp0. replace 0 with (e - e) by lia.
        symmetry. apply F2R_shift. exact He.
    + pose proof (round_half_up_floor m e He) as [Hfl Hn0].
      set (n := round_half_up false m e) in *. cbn [SF2R cond_Zopp].
      (* the rounded integer fits 53 bits *)
      assert (Hn : n < 2 ^ 53).
      { pose proof (bounded_digits m e Hb) as (_ & Hd & _).
        pose proof (digits_bounds m) as [_ Hu].
        assert (2 ^ digits m <= 2 ^ 53) by (apply Z.pow_le_mono_r; lia).
        assert (F2R (Zpos m) e < F2R (2 ^ 53) (-1))%R.
        { apply Rlt_le_trans with (pow2 (53 + e)); [apply F2R_lt_pow2; lia|].
          rewrite F2R_pow2 by lia. apply pow2_le. lia. }
        rewrite F2R_pow2 in H0 by lia. change (53 + -1) with 52 in H0.
        rewrite pow2_IZR in H0 by lia.
        enough (n < 2 ^ 52 + 1) by lia.
        apply lt_IZR. rewrite plus_IZR. lra. }
      destruct (Z.eqb_spec n 0) as [E | E].
      * split; [reflexivity|]. exists 0. rewrite E in Hfl. simpl. lra.
      * destruct (of_Z_exact n ltac:(lia)) as [Hf Hv].
        split; [exact Hf|]. exists n. rewrite Hv. lra.
Qed.

Theorem Math_round_mono x1 x2 :
  finite_nonneg x1 = true -> finite_nonneg x2 = true -> (SF2R x1 <= SF2R x2)%R ->
  le (Math_round x1) (Math_round x2) = true.
Proof.
  intros H1 H2 Hle.
  destruct (Math_round_finite_nonneg x1 H1) as (Hf1 & n1 & Hv1 & Hb1).
  destruct (Math_round_finite_nonneg x2 H2) as (Hf2 & n2 & Hv2 & Hb2).
  apply SFleb_finite_nonneg; auto. rewrite Hv1, Hv2.
  apply IZR_le. enough (n1 < n2 + 1) by lia.
  apply lt_IZR. rewrite plus_IZR. lra.
Qed.

(** ** Brackets: finiteness and order *)

Lemma rate_mantissa m e :
  SpecFloat.bounded prec emax m e = true -> e <= -54 ->
  rate (S754_finite false m e).
Proof.
  intros Hb He. split; [exact Hb|]. cbn [SF2R cond_Zopp].
  split; [left; apply F2R_pos; lia|].
  pose proof (bounded_digits m e Hb) as (_ & Hd & _).
  pose proof (digits_bounds m) as [_ Hu].
  assert (2 ^ digits m <= 2 ^ 53) by (apply Z.pow_le_mono_r; lia).
  apply Rle_trans with (pow2 (53 + e)).
  - left. apply F2R_lt_pow2; lia.
  - replace (/ 2)%R with (pow2 (0 - 1)) by (rewrite pow2_pred; change (pow2 0) with 1%R; lra).
    apply pow2_le. lia.
Qed.

Lemma rate_0_10 : rate lit_0_10.
Proof. apply rate_mantissa; [reflexivity | unfold lit_0_10; lia]. Qed.
Lemma rate_0_20 : rate lit_0_20.
Proof. apply rate_mantissa; [reflexivity | unfold lit_0_20; lia]. Qed.
Lemma rate_0_30 : rate lit_0_30.
Proof. apply rate_mantissa; [reflexivity | unfold lit_0_30; lia]. Qed.

Lemma finite_nonneg_half_top : finite_nonneg half_top = true /\ SF2R half_top = pow2 1023.
Proof.
  split; [reflexivity|]. unfold half_top. cbn [SF2R cond_Zopp].
  change (Zpos (2 ^ 52)) with (2 ^ 52). rewrite F2R_pow2 by lia. reflexivity.
Qed.

Lemma finite_nonneg_max_float :
  finite_nonneg max_float = true /\ (15000 + pow2 1023 <= SF2R max_float)%R.
Proof.
  split; [reflexivity|]. unfold max_float. cbn [SF2R cond_Zopp].
  replace (pow2 1023) with (F2R (2 ^ 52) 971) by (rewrite F2R_pow2 by lia; reflexivity).
  unfold F2R. pose proof (pow2_ge_1 971 ltac:(lia)) as HP.
  change (Zpos (2 ^ 53 - 1)) with 9007199254740991.
  change (2 ^ 52) with 4503599627370496. lra.
Qed.

(** A product by a rate: finite, at most [2^1023]. *)
Lemma mul_rate s lit :
  finite_nonneg s = true -> rate lit ->
  Rnd (SF2R s * SF2R lit) (mul s lit) /\ finite_nonneg (mul s lit) = true /\
  (SF2R (mul s lit) <= pow2 1023)%R.
Proof.
  intros Hs [Hl Hb]. pose proof (mul_Rnd s lit Hs Hl) as Hr. fold (mul s lit) in Hr.
  split; [exact Hr|].
  destruct finite_nonneg_half_top as [Hh Hv]. rewrite <- Hv.
  apply (Rnd_below _ _ half_top Hr Hh). rewrite Hv.
  pose proof (finite_nonneg_nonneg s Hs). pose proof (finite_nonneg_lt_top s Hs).
  replace 1024 with (1023 + 1) in H0 by lia. rewrite pow2_succ in H0. nra.
Qed.

(** A sum of a bracket base and such a product: finite. *)
Lemma add_base c p :
  finite_nonneg c = true -> (SF2R c <= 15000)%R -> finite_nonneg p = true ->
  (SF2R p <= pow2 1023)%R ->
  Rnd (SF2R c + SF2R p) (add c p) /\ finite_nonneg (add c p) = true /\
  (SF2R c <= SF2R (add c p))%R.
Proof.
  intros Hc Hcv Hp Hpv. pose proof (add_Rnd c p Hc Hp) as Hr. fold (add c p) in Hr.
  split; [exact Hr|].
  destruct finite_nonneg_max_float as [Hm Hv].
  destruct (Rnd_below _ _ max_float Hr Hm ltac:(lra)) as [Hf _].
  split; [exact Hf|].
  apply (Rnd_above _ _ c Hr Hc Hf). pose proof (finite_nonneg_nonneg p Hp). lra.
Qed.

(** The part of taxable income above a bracket boundary. *)
Lemma sub_boundary t b :
  finite_nonneg t = true -> finite_nonneg b = true -> (SF2R b <= SF2R t)%R ->
  Rnd (SF2R t - SF2R b) (sub t b) /\ finite_nonneg (sub t b) = true.
Proof.
  intros Ht Hb Hle. destruct (sub_Rnd t b Ht Hb) as [Hr _].
  specialize (Hr Hle). fold (sub t b) in Hr. split; [exact Hr|].
  pose proof (finite_nonneg_nonneg b Hb).
  apply (Rnd_below _ _ t Hr Ht). lra.
Qed.

(** One bracket above the first: [c + (t - b) * lit]. *)
Lemma piece_finite_nonneg c b lit t :
  finite_nonneg c = true -> (SF2R c <= 15000)%R -> finite_nonneg b = true -> rate lit ->
  finite_nonneg t = true -> (SF2R b <= SF2R t)%R ->
  finite_nonneg (add c (mul (sub t b) lit)) = true /\
  (SF2R c <= SF2R (add c (mul (sub t b) lit)))%R.
Proof.
  intros Hc Hcv Hb Hl Ht Hle.
  destruct (sub_boundary t b Ht Hb Hle) as [_ Hs].
  destruct (mul_rate _ lit Hs Hl) as (_ & Hp & Hpv).
  destruct (add_base c _ Hc Hcv Hp Hpv) as (_ & Ha & Hlow). auto.
Qed.

Lemma piece_mono c b lit t1 t2 :
  finite_nonneg c = true -> (SF2R c <= 15000)%R -> finite_nonneg b = true -> rate lit ->
  finite_nonneg t1 = true -> finite_nonneg t2 = true ->
  (SF2R b <= SF2R t1)%R -> (SF2R t1 <= SF2R t2)%R ->
  (SF2R (add c (mul (sub t1 b) lit)) <= SF2R (add c (mul (sub t2 b) lit)))%R.
Proof.
  intros Hc Hcv Hb Hl Ht1 Ht2 Hle1 Hle.
  destruct (sub_boundary t1 b Ht1 Hb Hle1) as [Hr1 Hs1].
  destruct (sub_boundary t2 b Ht2 Hb ltac:(lra)) as [Hr2 Hs2].
  assert (Hs : (SF2R (sub t1 b) <= SF2R (sub t2 b))%R).
  { apply SFleb_finite_nonneg; auto. apply (Rnd_mono _ _ _ _ Hr1 Hr2). lra. }
  destruct (mul_rate _ lit Hs1 Hl) as (Hm1 & Hp1 & Hpv1).
  destruct (mul_rate _ lit Hs2 Hl) as (Hm2 & Hp2 & Hpv2).
  assert (Hp : (SF2R (mul (sub t1 b) lit) <= SF2R (mul (sub t2 b) lit))%R).
  { apply SFleb_finite_nonneg; auto. apply (Rnd_mono _ _ _ _ Hm1 Hm2).
    apply Rmult_le_compat_r; [apply Hl | exact Hs]. }
  destruct (add_base c _ Hc Hcv Hp1 Hpv1) as (Ha1 & Hf1 & _).
  destruct (add_base c _ Hc Hcv Hp2 Hpv2) as (Ha2 & Hf2 & _).
  apply SFleb_finite_nonneg; auto. apply (Rnd_mono _ _ _ _ Ha1 Ha2). lra.
Qed.

(** The first bracket. *)
Lemma first_mono t1 t2 :
  finite_nonneg t1 = true -> finite_nonneg t2 = true -> (SF2R t1 <= SF2R t2)%R ->
  finite_nonneg (mul t1 lit_0_10) = true /\
  (SF2R (mul t1 lit_0_10) <= SF2R (mul t2 lit_0_10))%R.
Proof.
  intros H1 H2 Hle.
  destruct (mul_rate t1 _ H1 rate_0_10) as (Hm1 & Hp1 & _).
  destruct (mul_rate t2 _ H2 rate_0_10) as (Hm2 & Hp2 & _).
  split; [exact Hp1|]. apply SFleb_finite_nonneg; auto.
  apply (Rnd_mono _ _ _ _ Hm1 Hm2).
  apply Rmult_le_compat_r; [apply rate_0_10 | exact Hle].
Qed.

Lemma of_Z_value z : 0 <= z < 2 ^ 53 -> SF2R (of_Z z) = IZR z.
Proof. intros H. apply of_Z_exact. exact H. Qed.

Lemma of_Z_finite_nonneg z : 0 <= z < 2 ^ 53 -> finite_nonneg (of_Z z) = true.
Proof. intros H. apply of_Z_exact. exact H. Qed.

Lemma le_of_Z t z :
  finite_nonneg t = true -> 0 <= z < 2 ^ 53 ->
  (le t (of_Z z) = true <-> (SF2R t <= IZR z)%R).
Proof.
  intros Ht Hz. unfold le. rewrite <- (of_Z_value z Hz).
  apply SFleb_finite_nonneg; auto using of_Z_finite_nonneg.
Qed.

Lemma le_of_Z_false t z :
  finite_nonneg t = true -> 0 <= z < 2 ^ 53 ->
  le t (of_Z z) = false -> (IZR z < SF2R t)%R.
Proof.
  intros Ht Hz H. destruct (Rle_lt_dec (SF2R t) (IZR z)) as [Hle | Hgt]; auto.
  apply (le_of_Z t z Ht Hz) in Hle. congruence.
Qed.

(** The tax before rounding is finite, and below or above the bracket
    bases as the taxable income is. *)
Lemma bracketTax_finite_nonneg t :
  finite_nonneg t = true ->
  finite_nonneg (bracketTax t) = true /\
  ((SF2R t <= 50000)%R -> (SF2R (bracketTax t) <= 5000)%R) /\
  ((50000 < SF2R t)%R -> (5000 <= SF2R (bracketTax t))%R) /\
  ((SF2R t <= 100000)%R -> (SF2R (bracketTax t) <= 15000)%R) /\
  ((100000 < SF2R t)%R -> (15000 <= SF2R (bracketTax t))%R).
Proof.
  intros Ht. unfold bracketTax.
  assert (H5 : SF2R (of_Z 5000) = 5000%R) by (apply of_Z_value; lia).
  assert (H15 : SF2R (of_Z 15000) = 15000%R) by (apply of_Z_value; lia).
  assert (H50 : SF2R (of_Z 50000) = 50000%R) by (apply of_Z_value; lia).
  assert (H100 : SF2R (of_Z 100000) = 100000%R) by (apply of_Z_value; lia).
  assert (F5 : finite_nonneg (of_Z 5000) = true) by reflexivity.
  assert (F15 : finite_nonneg (of_Z 15000) = true) by reflexivity.
  assert (F50 : finite_nonneg (of_Z 50000) = true) by reflexivity.
  assert (F100 : finite_nonneg (of_Z 100000) = true) by reflexivity.
  destruct (le t (of_Z 50000)) eqn:E1.
  - apply (le_of_Z t 50000 Ht ltac:(lia)) in E1.
    destruct (first_mono t (of_Z 50000) Ht F50 ltac:(lra)) as [Hf Hm].
    change (mul (of_Z 50000) lit_0_10) with (of_Z 5000) in Hm.
    repeat split; auto; intros; lra.
  - apply (le_of_Z_false t 50000 Ht ltac:(lia)) in E1.
    destruct (le t (of_Z 100000)) eqn:E2.
    + apply (le_of_Z t 100000 Ht ltac:(lia)) in E2.
      destruct (piece_finite_nonneg (of_Z 5000) (of_Z 50000) lit_0_20 t F5 ltac:(lra) F50
                  rate_0_20 Ht ltac:(lra)) as [Hf Hlow].
      pose proof (piece_mono (of_Z 5000) (of_Z 50000) lit_0_20 t (of_Z 100000)
                    F5 ltac:(lra) F50 rate_0_20 Ht F100 ltac:(lra) ltac:(lra)) as Hup.
      change (add (of_Z 5000) (mul (sub (of_Z 100000) (of_Z 50000)) lit_0_20))
        with (of_Z 15000) in Hup.
      repeat split; auto; intros; lra.
    + apply (le_of_Z_false t 100000 Ht ltac:(lia)) in E2.
      destruct (piece_finite_nonneg (of_Z 15000) (of_Z 100000) lit_0_30 t F15 ltac:(lra) F100
                  rate_0_30 Ht ltac:(lra)) as [Hf Hlow].
      repeat split; auto; intros; lra.
Qed.

Theorem bracketTax_mono t1 t2 :
  finite_nonneg t1 = true -> finite_nonneg t2 = true -> (SF2R t1 <= SF2R t2)%R ->
  (SF2R (bracketTax t1) <= SF2R (bracketTax t2))%R.
Proof.
  intros Ht1 Ht2 Hle.
  destruct (bracketTax_finite_nonneg t1 Ht1) as (_ & A1 & B1 & C1 & D1).
  destruct (bracketTax_finite_nonneg t2 Ht2) as (_ & A2 & B2 & C2 & D2).
  assert (F5 : finite_nonneg (of_Z 5000) = true) by reflexivity.
  assert (F15 : finite_nonneg (of_Z 15000) = true) by reflexivity.
  assert (F50 : finite_nonneg (of_Z 50000) = true) by reflexivity.
  assert (F100 : finite_nonneg (of_Z 100000) = true) by reflexivity.
  assert (H5 : SF2R (of_Z 5000) = 5000%R) by (apply of_Z_value; lia).
  assert (H15 : SF2R (of_Z 15000) = 15000%R) by (apply of_Z_value; lia).
  assert (H50 : SF2R (of_Z 50000) = 50000%R) by (apply of_Z_value; lia).
  assert (H100 : SF2R (of_Z 100000) = 100000%R) by (apply of_Z_value; lia).
  destruct (Rle_lt_dec (SF2R t2) 50000) as [L2 | G2].
  { (* both in the first bracket *)
    unfold bracketTax.
    rewrite (proj2 (le_of_Z t1 50000 Ht1 ltac:(lia)) ltac:(lra)).
    rewrite (proj2 (le_of_Z t2 50000 Ht2 ltac:(lia)) L2).
    apply first_mono; auto. }
  destruct (Rle_lt_dec (SF2R t1) 50000) as [L1 | G1]; [specialize (A1 L1); specialize (B2 G2); lra|].
  destruct (Rle_lt_dec (SF2R t2) 100000) as [M2 | N2].
  { (* both in the second bracket *)
    unfold bracketTax.
    destruct (le t1 (of_Z 50000)) eqn:E1;
      [apply (le_of_Z t1 50000 Ht1 ltac:(lia)) in E1; lra|].
    destruct (le t2 (of_Z 50000)) eqn:E2;
      [apply (le_of_Z t2 50000 Ht2 ltac:(lia)) in E2; lra|].
    rewrite (proj2 (le_of_Z t1 100000 Ht1 ltac:(lia)) ltac:(lra)).
    rewrite (proj2 (le_of_Z t2 100000 Ht2 ltac:(lia)) M2).
    apply piece_mono; auto using rate_0_20; lra. }
  destruct (Rle_lt_dec (SF2R t1) 100000) as [M1 | N1]; [specialize (C1 M1); specialize (D2 N2); lra|].
  (* both in the third bracket *)
  unfold bracketTax.
  destruct (le t1 (of_Z 50000)) eqn:E1;
    [apply (le_of_Z t1 50000 Ht1 ltac:(lia)) in E1; lra|].
  destruct (le t2 (of_Z 50000)) eqn:E2;
    [apply (le_of_Z t2 50000 Ht2 ltac:(lia)) in E2; lra|].
  destruct (le t1 (of_Z 100000)) eqn:E3;
    [apply (le_of_Z t1 100000 Ht1 ltac:(lia)) in E3; lra|].
  destruct (le t2 (of_Z 100000)) eqn:E4;
    [apply (le_of_Z t2 100000 Ht2 ltac:(lia)) in E4; lra|].
  apply piece_mono; auto using rate_0_30; lra.
Qed.

Lemma calculateEstimatedTax_unfold i d :
  calculateEstimatedTax i d = Math_round (bracketTax (taxableIncomeOf i d)).
Proof. reflexivity. Qed.


(** ** Error of one rounding; the schedule in tenths *)

Lemma pow2_opp n : 0 <= n -> pow2 (- n) = (/ IZR (2 ^ n))%R.
Proof.
  intros Hn. pose proof (pow2_add (- n) n) as H.
  replace (- n + n) with 0 in H by lia. change (pow2 0) with 1%R in H.
  rewrite (pow2_IZR n Hn) in H.
  assert (0 < IZR (2 ^ n))%R by (rewrite <- pow2_IZR by assumption; apply pow2_pos).
  apply Rmult_eq_reg_r with (IZR (2 ^ n)); [|lra].
  rewrite <- H. field. lra.
Qed.

Lemma F2R_half H : F2R H (-1) = (IZR H / 2)%R.
Proof. unfold F2R. change (-1) with (- (1)). rewrite (pow2_opp 1) by lia. change (2 ^ 1) with 2. lra. Qed.

(** The error of one rounding below [2^k]. *)
Theorem Rnd_error v x k :
  Rnd v x -> finite_nonneg x = true -> (v < pow2 k)%R -> -1021 <= k ->
  (- pow2 (k - 54) <= SF2R x - v <= pow2 (k - 54))%R.
Proof.
  intros Hr Hf Hv Hk. pose proof (pow2_pos (k - 54)) as Hpos.
  destruct Hr as [[-> ->] | (M & e & E & Hp & ->)]; [simpl; lra|].
  destruct (Rnd_pos M e Hp) as (Q & _ & ((Hl & Hu) & _) & Hc).
  set (g := fexp prec emax (digits M + e)) in *.
  destruct Hc as [[Hinf _] | (_ & Hs & _)]; [rewrite Hinf in Hf; discriminate|].
  pose proof (F2R_mag M e) as [Hlo _]. rewrite <- E in *.
  assert (Hmu : digits M + e - 1 < k) by (apply pow2_lt_inv; lra).
  assert (Hg : g <= k - 53) by (unfold g; rewrite fexp_eq; lia).
  apply pow2_le in Hg. replace (k - 53) with (k - 54 + 1) in Hg by lia.
  rewrite pow2_succ in Hg. rewrite Hs. lra.
Qed.

Lemma F2R_near a b g : (F2R a g - F2R b g < pow2 g)%R -> a <= b.
Proof.
  intros H. enough (a - b < 1) by lia.
  apply (F2R_lt_inv _ _ g). rewrite F2R_minus, F2R_1. lra.
Qed.

(** A real close enough to a representable one rounds to it. *)
Theorem Rnd_snap v x H e0 :
  Rnd v x -> (0 < v)%R -> (v < pow2 (53 + e0))%R ->
  0 <= H < 2 ^ 53 -> -1074 <= e0 <= 971 ->
  (- (v * pow2 (-53)) <= 2 * (F2R H e0 - v) <= v * pow2 (-53))%R ->
  finite_nonneg x = true /\ SF2R x = F2R H e0.
Proof.
  intros Hr Hv Htop HH He0 Hclose.
  destruct Hr as [[-> _] | (M & e & E & Hp & ->)]; [lra|].
  destruct (Rnd_pos M e Hp) as (Q & _ & Hn & Hc).
  set (g := fexp prec emax (digits M + e)) in *.
  pose proof (F2R_mag M e) as [Hlo Hhi]. rewrite <- E in *.
  assert (Hmu : digits M + e - 1 < 53 + e0) by (apply pow2_lt_inv; lra).
  assert (Hg : g <= e0) by (unfold g; rewrite fexp_eq; lia).
  assert (Hgrid : F2R H e0 = F2R (H * 2 ^ (e0 - g)) g).
  { replace g with (e0 - (e0 - g)) at 2 by lia. symmetry. apply F2R_shift. lia. }
  (* the grid step exceeds [v * 2^-53] *)
  assert (Hstep : (v * pow2 (-53) < pow2 g)%R).
  { apply Rlt_le_trans with (pow2 (digits M + e) * pow2 (-53))%R.
    - apply Rmult_lt_compat_r; [apply pow2_pos | exact Hhi].
    - rewrite <- pow2_add. apply pow2_le. unfold g. rewrite fexp_eq. lia. }
  destruct Hn as ((Hl & Hu) & _).
  assert (HQ : Q = H * 2 ^ (e0 - g)).
  { rewrite Hgrid in Hclose.
    apply Z.le_antisymm; apply (F2R_near _ _ g); lra. }
  rewrite <- HQ in Hgrid. rewrite <- Hgrid in Hc.
  assert (F2R H e0 < pow2 1024)%R.
  { apply Rlt_le_trans with (pow2 (53 + e0)); [apply F2R_lt_pow2; lia | apply pow2_le; lia]. }
  destruct Hc as [[_ Hc] | (Hf & Hs & _)]; [lra | auto].
Qed.

Lemma progressiveTax_spec_tenths t :
  progressiveTax_spec t = (tenths t + 5) / 10.
Proof.
  unfold progressiveTax_spec, round_half_up_spec, tenths, tax_spec, B1, B2.
  assert (H : forall q T, Qeq q (T # 10) -> Qfloor q = T / 10).
  { intros q T ->. reflexivity. }
  destruct (t <=? 50000); [|destruct (t <=? 100000)]; apply H;
    unfold Qeq, Qplus, Qmult, inject_Z; simpl; lia.
Qed.

Lemma F2R_opp_exp m n : 0 <= n -> F2R m (- n) = (IZR m / IZR (2 ^ n))%R.
Proof. intros Hn. unfold F2R. rewrite pow2_opp by assumption. reflexivity. Qed.

Lemma lit_0_10_value :
  SF2R lit_0_10 = (7205759403792794 / 72057594037927936)%R.
Proof. exact (F2R_opp_exp 7205759403792794 56 ltac:(lia)). Qed.

Lemma lit_0_20_value :
  SF2R lit_0_20 = (7205759403792794 / 36028797018963968)%R.
Proof. exact (F2R_opp_exp 7205759403792794 55 ltac:(lia)). Qed.

Lemma lit_0_30_value :
  SF2R lit_0_30 = (5404319552844595 / 18014398509481984)%R.
Proof. exact (F2R_opp_exp 5404319552844595 54 ltac:(lia)). Qed.

Lemma pow2_49 : pow2 49 = 562949953421312%R.
Proof. rewrite pow2_IZR by lia. reflexivity. Qed.

Lemma pow2_m5 : pow2 (-5) = (/ 32)%R.
Proof. change (-5) with (- (5)). rewrite pow2_opp by lia. reflexivity. Qed.

Lemma pow2_m53 : pow2 (-53) = (/ 9007199254740992)%R.
Proof. change (-53) with (- (53)). rewrite pow2_opp by lia. reflexivity. Qed.

Lemma pow2_52 : pow2 52 = 4503599627370496%R.
Proof. rewrite pow2_IZR by lia. reflexivity. Qed.

(** One rounding of a real below [2^49] errs by at most [1/32]. *)
Lemma Rnd_below_2_49 v x :
  Rnd v x -> (v < 562949953421312)%R ->
  finite_nonneg x = true /\ (- / 32 <= SF2R x - v <= / 32)%R.
Proof.
  intros Hr Hv.
  destruct (of_Z_exact (2 ^ 49) ltac:(lia)) as [Hf Hval].
  change (IZR (2 ^ 49)) with 562949953421312%R in Hval.
  destruct (Rnd_below v x (of_Z (2 ^ 49)) Hr Hf ltac:(lra)) as [Hfx _].
  split; [exact Hfx|].
  rewrite <- pow2_m5. change (-5) with (49 - 54).
  apply Rnd_error; auto; [rewrite pow2_49; exact Hv | lia].
Qed.

(** [Math.round] of a number within a tenth of [T/10], and equal to it when
    [T/10] is a half. *)
Theorem Math_round_tenths a T :
  finite_nonneg a = true -> 0 <= T -> (SF2R a < 4503599627370496)%R ->
  (-1 < 10 * SF2R a - IZR T < 1)%R ->
  (T mod 10 = 5 -> (10 * SF2R a = IZR T)%R) ->
  Math_round a = of_Z ((T + 5) / 10).
Proof.
  intros Hf HT Htop Hnear Hhalf.
  destruct (Math_round_finite_nonneg a Hf) as (Hfr & n & Hv & Hfl).
  pose proof (Z.div_mod (T + 5) 10 ltac:(lia)) as Hdm.
  pose proof (Z.mod_pos_bound (T + 5) 10 ltac:(lia)) as Hb.
  set (N := (T + 5) / 10) in *.
  assert (Hn1 : 10 * n < T + 6).
  { apply lt_IZR. rewrite mult_IZR, plus_IZR. lra. }
  assert (Hn2 : T + 5 < 10 * n + 10).
  { destruct (Z.eq_dec (T mod 10) 5) as [E | E].
    - specialize (Hhalf E). apply lt_IZR. rewrite !plus_IZR, mult_IZR. lra.
    - assert (T + 4 < 10 * n + 10).
      { apply lt_IZR. rewrite !plus_IZR, mult_IZR. lra. }
      assert ((T + 5) mod 10 <> 0).
      { rewrite Z.add_mod by lia. pose proof (Z.mod_pos_bound T 10 ltac:(lia)).
        intros Hc. apply E.
        destruct (Z.eq_dec (T mod 10) 5); auto.
        assert (0 <= T mod 10 + 5 < 20) by lia.
        change (5 mod 10) with 5 in Hc.
        destruct (Z_lt_le_dec (T mod 10 + 5) 10).
        + rewrite Z.mod_small in Hc by lia. lia.
        + replace (T mod 10 + 5) with ((T mod 10 - 5) + 1 * 10) in Hc by lia.
          rewrite Z.mod_add, Z.mod_small in Hc by lia. lia. }
      lia. }
  assert (HnN : n = N) by lia.
  assert (HN : 0 <= N < 2 ^ 53).
  { split; [lia|]. enough (N < 2 ^ 52 + 1) by lia.
    apply lt_IZR. rewrite <- HnN, plus_IZR.
    change (IZR (2 ^ 52)) with 4503599627370496%R. lra. }
  destruct (of_Z_exact N HN) as [HfN HvN].
  apply finite_nonneg_eq; auto. rewrite Hv, HvN, HnN. reflexivity.
Qed.

(** [Math.round] of a number within a half of an integer. *)
Theorem Math_round_between a N :
  finite_nonneg a = true -> 0 <= N < 2 ^ 53 ->
  (IZR N - / 2 <= SF2R a < IZR N + / 2)%R ->
  Math_round a = of_Z N.
Proof.
  intros Hf HN Hb.
  destruct (Math_round_finite_nonneg a Hf) as (Hfr & m & Hv & Hfl).
  assert (Hm : m = N).
  { assert (N < m + 1) by (apply lt_IZR; rewrite plus_IZR; lra).
    assert (m < N + 1) by (apply lt_IZR; rewrite plus_IZR; lra). lia. }
  destruct (of_Z_exact N HN) as [HfN HvN].
  apply finite_nonneg_eq; auto. rewrite Hv, HvN, Hm. reflexivity.
Qed.

(** A mantissa of at most 53 bits at an exponent in range is a number. *)
Lemma dyadic_number H e0 :
  0 <= H < 2 ^ 53 -> -1074 <= e0 <= 971 ->
  exists y, Rnd (F2R H e0) y /\ finite_nonneg y = true /\ SF2R y = F2R H e0.
Proof.
  intros HH He0. exists (binary_normalize prec emax H e0 false).
  pose proof (binary_normalize_Rnd H e0 ltac:(lia)) as Hr.
  split; [exact Hr|].
  apply (Rnd_representable _ _ H e0 Hr); auto.
Qed.

Lemma Rnd_above_dyadic v x H e0 :
  Rnd v x -> finite_nonneg x = true -> (F2R H e0 <= v)%R ->
  0 <= H < 2 ^ 53 -> -1074 <= e0 <= 971 ->
  (F2R H e0 <= SF2R x)%R.
Proof.
  intros Hr Hf Hv HH He0.
  destruct (dyadic_number H e0 HH He0) as (y & _ & Hfy & Hvy).
  rewrite <- Hvy in *. apply (Rnd_above v x y); auto.
Qed.

Lemma Rnd_below_dyadic v x H e0 :
  Rnd v x -> (v <= F2R H e0)%R ->
  0 <= H < 2 ^ 53 -> -1074 <= e0 <= 971 ->
  finite_nonneg x = true /\ (SF2R x <= F2R H e0)%R.
Proof.
  intros Hr Hv HH He0.
  destruct (dyadic_number H e0 HH He0) as (y & _ & Hfy & Hvy).
  rewrite <- Hvy in *. apply (Rnd_below v x y); auto.
Qed.

(** A real below a dyadic that rounds to the number [H * 2^e0] is rounded
    to that number at most. *)
Lemma Rnd_below_snap v x V e H e0 :
  Rnd v x -> (v <= F2R V e)%R -> 0 < V ->
  (F2R V e < pow2 (53 + e0))%R ->
  0 <= H < 2 ^ 53 -> -1074 <= e0 <= 971 ->
  (- (F2R V e * pow2 (-53)) <= 2 * (F2R H e0 - F2R V e) <= F2R V e * pow2 (-53))%R ->
  finite_nonneg x = true /\ (SF2R x <= F2R H e0)%R.
Proof.
  intros Hr Hv HV Htop HH He0 Hclose.
  pose proof (binary_normalize_Rnd V e ltac:(lia)) as Hr'.
  destruct (Rnd_snap _ _ H e0 Hr') as [Hf' Hs']; auto.
  { apply F2R_pos. exact HV. }
  pose proof (Rnd_mono _ _ _ _ Hr Hr' Hv) as Hle.
  destruct (Rnd_cases _ _ Hr) as [Hfx | ->].
  - split; auto. rewrite <- Hs'. apply SFleb_finite_nonneg; auto.
  - exfalso. apply finite_nonneg_cases in Hf'.
    destruct Hf' as [E | (m & e' & E & _)]; rewrite E in Hle; discriminate.
Qed.

Lemma F2R_eighth m : F2R m (-3) = (IZR m / 8)%R.
Proof. exact (F2R_opp_exp m 3 ltac:(lia)). Qed.

Lemma F2R_256th m : F2R m (-8) = (IZR m / 256)%R.
Proof. exact (F2R_opp_exp m 8 ltac:(lia)). Qed.

Lemma pow2_50 : pow2 50 = 1125899906842624%R.
Proof. rewrite pow2_IZR by lia. reflexivity. Qed.

(** The comparison of an integer with a bracket boundary. *)
Lemma le_of_Z_of_Z a b :
  0 <= a < 2 ^ 53 -> 0 <= b < 2 ^ 53 -> le (of_Z a) (of_Z b) = (a <=? b).
Proof.
  intros Ha Hb. destruct (Z.leb_spec a b) as [H | H].
  - apply le_of_Z; auto using of_Z_finite_nonneg. rewrite of_Z_value by assumption.
    apply IZR_le. exact H.
  - destruct (le (of_Z a) (of_Z b)) eqn:E; auto.
    apply le_of_Z in E; auto using of_Z_finite_nonneg. rewrite of_Z_value in E by assumption.
    apply le_IZR in E. lia.
Qed.

(** The difference of two integers below [2^53] is exact. *)
Lemma sub_of_Z a b :
  0 <= b <= a -> a < 2 ^ 53 -> sub (of_Z a) (of_Z b) = of_Z (a - b).
Proof.
  intros Hab Ha.
  destruct (of_Z_exact a ltac:(lia)) as [Hfa Hva].
  destruct (of_Z_exact b ltac:(lia)) as [Hfb Hvb].
  destruct (of_Z_exact (a - b) ltac:(lia)) as [Hfd Hvd].
  destruct (sub_boundary (of_Z a) (of_Z b) Hfa Hfb) as [Hr Hf].
  { rewrite Hva, Hvb. apply IZR_le. lia. }
  apply finite_nonneg_eq; auto. rewrite Hvd.
  destruct (Rnd_representable _ _ (a - b) 0 Hr) as [_ Hs]; try lia.
  - rewrite Hva, Hvb, F2R_exp0, minus_IZR. reflexivity.
  - rewrite Hs, Hva, Hvb, minus_IZR. reflexivity.
Qed.

Theorem taxableIncomeOf_exact i d :
  0 <= i < 2 ^ 53 -> 0 <= d < 2 ^ 53 ->
  taxableIncomeOf (of_Z i) (of_Z d) = of_Z (taxableIncome_spec i d).
Proof.
  intros Hi Hd. unfold taxableIncome_spec.
  destruct (of_Z_exact i Hi) as [Hfi Hvi].
  destruct (of_Z_exact d Hd) as [Hfd Hvd].
  destruct (taxableIncomeOf_spec (of_Z i) (of_Z d) Hfi Hfd) as (Hf & _ & Hz & Hr).
  destruct (Z_le_gt_dec i d) as [Hle | Hgt].
  - rewrite Z.max_l by lia. apply Hz. rewrite Hvi, Hvd. apply IZR_le. exact Hle.
  - rewrite Z.max_r by lia. unfold taxableIncomeOf.
    rewrite sub_of_Z by lia. apply Math_max_0_finite_nonneg. apply of_Z_finite_nonneg. lia.
Qed.

(** ** The three brackets, exactly *)

Lemma product_small X lit :
  finite_nonneg X = true -> rate lit ->
  (SF2R X * SF2R lit < 562949953421312)%R ->
  Rnd (SF2R X * SF2R lit) (mul X lit) /\ finite_nonneg (mul X lit) = true /\
  (- / 32 <= SF2R (mul X lit) - SF2R X * SF2R lit <= / 32)%R.
Proof.
  intros HX Hl Hv. destruct (mul_rate X lit HX Hl) as (Hr & _).
  split; [exact Hr|]. apply Rnd_below_2_49; assumption.
Qed.

Lemma sum_small c p :
  finite_nonneg c = true -> finite_nonneg p = true ->
  (SF2R c + SF2R p < 562949953421312)%R ->
  Rnd (SF2R c + SF2R p) (add c p) /\ finite_nonneg (add c p) = true /\
  (- / 32 <= SF2R (add c p) - (SF2R c + SF2R p) <= / 32)%R.
Proof.
  intros Hc Hp Hv. pose proof (add_Rnd c p Hc Hp) as Hr. fold (add c p) in Hr.
  split; [exact Hr|]. apply Rnd_below_2_49; assumption.
Qed.

(** A half in tenths: [T = 10 j + 5] is [(2 j + 1) / 2] units. *)
Lemma half_tenths T :
  0 <= T -> T mod 10 = 5 ->
  exists H, 0 < H /\ 5 * H = T /\ (IZR T / 10 = F2R H (-1))%R.
Proof.
  intros HT Hm. exists (2 * (T / 10) + 1).
  pose proof (Z.div_mod T 10 ltac:(lia)) as Hdm.
  pose proof (Z.div_pos T 10 HT ltac:(lia)).
  split; [lia|]. split; [lia|].
  rewrite F2R_half. replace T with (5 * (2 * (T / 10) + 1)) at 1 by lia.
  rewrite mult_IZR. lra.
Qed.

Lemma first_bracket_exact t :
  0 <= t <= 50000 ->
  Math_round (mul (of_Z t) lit_0_10) = of_Z ((t + 5) / 10).
Proof.
  intros Ht.
  destruct (of_Z_exact t ltac:(lia)) as [HfX HvX].
  assert (Ht0 : (0 <= IZR t <= 50000)%R) by (split; apply IZR_le; lia).
  destruct (product_small (of_Z t) lit_0_10 HfX rate_0_10) as (Hr & Hf & Herr).
  { rewrite HvX, lit_0_10_value. lra. }
  rewrite HvX, lit_0_10_value in Hr, Herr.
  apply Math_round_tenths; auto; try lia; try lra.
  intros Hm. destruct (half_tenths t ltac:(lia) Hm) as (H & H0 & H5 & HE).
  destruct (Rnd_snap _ _ H (-1) Hr) as [_ Hs]; try lia.
  - assert (1 <= IZR t)%R by (apply IZR_le; lia). lra.
  - change (53 + -1) with 52. rewrite pow2_52. lra.
  - rewrite <- HE, pow2_m53. lra.
  - rewrite Hs, <- HE. lra.
Qed.

Lemma second_bracket_exact x :
  0 <= x <= 50000 ->
  Math_round (add (of_Z 5000) (mul (of_Z x) lit_0_20)) =
  of_Z ((50000 + 2 * x + 5) / 10).
Proof.
  intros Hx.
  destruct (of_Z_exact x ltac:(lia)) as [HfX HvX].
  assert (Hx0 : (0 <= IZR x <= 50000)%R) by (split; apply IZR_le; lia).
  destruct (product_small (of_Z x) lit_0_20 HfX rate_0_20) as (_ & Hf & Herr).
  { rewrite HvX, lit_0_20_value. lra. }
  rewrite HvX, lit_0_20_value in Herr.
  assert (H5 : SF2R (of_Z 5000) = 5000%R) by (apply of_Z_value; lia).
  destruct (sum_small (of_Z 5000) _ ltac:(reflexivity) Hf) as (_ & Hfa & Herra).
  { rewrite H5. lra. }
  rewrite H5 in Herra.
  apply Math_round_tenths; auto; try lia.
  - lra.
  - rewrite plus_IZR, mult_IZR. lra.
  - intros Hm. exfalso.
    pose proof (Z.div_mod (50000 + 2 * x) 10 ltac:(lia)). lia.
Qed.

Lemma third_bracket_exact x :
  0 <= x <= 18 * 10 ^ 14 ->
  Math_round (add (of_Z 15000) (mul (of_Z x) lit_0_30)) =
  of_Z ((150000 + 3 * x + 5) / 10).
Proof.
  intros Hx.
  destruct (of_Z_exact x ltac:(lia)) as [HfX HvX].
  assert (Hx0 : (0 <= IZR x <= 1800000000000000)%R) by (split; apply IZR_le; lia).
  destruct (product_small (of_Z x) lit_0_30 HfX rate_0_30) as (Hr & Hf & Herr).
  { rewrite HvX, lit_0_30_value. lra. }
  rewrite HvX, lit_0_30_value in Hr, Herr.
  assert (H15 : SF2R (of_Z 15000) = 15000%R) by (apply of_Z_value; lia).
  destruct (sum_small (of_Z 15000) _ ltac:(reflexivity) Hf) as (Hra & Hfa & Herra).
  { rewrite H15. lra. }
  rewrite H15 in Hra, Herra.
  apply Math_round_tenths; auto; try lia.
  - lra.
  - rewrite !plus_IZR, mult_IZR. lra.
  - intros Hm.
    assert (Hm3 : (3 * x) mod 10 = 5).
    { replace (150000 + 3 * x) with (3 * x + 15000 * 10) in Hm by lia.
      rewrite Z.mod_add in Hm by lia. exact Hm. }
    destruct (half_tenths (3 * x) ltac:(lia) Hm3) as (H & H0 & H5 & HE).
    rewrite mult_IZR in HE.
    (* the product is the half exactly *)
    destruct (Rnd_snap _ _ H (-1) Hr) as [_ Hs]; try lia.
    + assert (1 <= IZR x)%R by (apply IZR_le; lia). lra.
    + change (53 + -1) with 52. rewrite pow2_52. lra.
    + rewrite <- HE, pow2_m53. lra.
    + (* and so is the sum *)
      rewrite Hs in Hra.
      destruct (Rnd_representable _ _ (30000 + H) (-1) Hra) as [_ Hsa]; try lia.
      * rewrite F2R_plus, !F2R_half. lra.
      * rewrite Hsa, <- HE, !plus_IZR, mult_IZR. lra.
Qed.

(** Above that the two rounding errors and the error of the literal can
    add up to more than a tenth, and the result is enclosed instead: with
    [n] the exact tax rounded less 15000, the product lies between
    [n - 1/2] and [n + 3/8], both of them numbers, and so does the sum less
    15000, rounding being monotone.  This holds as long as the sum stays
    below [2^50]. *)
Lemma third_bracket_exact_high x :
  18 * 10 ^ 14 <= x <= 3752999689425411 ->
  Math_round (add (of_Z 15000) (mul (of_Z x) lit_0_30)) =
  of_Z ((150000 + 3 * x + 5) / 10).
Proof.
  intros Hx.
  set (n := (3 * x + 5) / 10).
  assert (HN : (150000 + 3 * x + 5) / 10 = 15000 + n).
  { unfold n. replace (150000 + 3 * x + 5) with (3 * x + 5 + 15000 * 10) by lia.
    rewrite Z.div_add by lia. lia. }
  rewrite HN.
  pose proof (Z.div_mod (3 * x + 5) 10 ltac:(lia)) as Hdm.
  pose proof (Z.mod_pos_bound (3 * x + 5) 10 ltac:(lia)) as Hb.
  fold n in Hdm.
  assert (Hn : 540000000000000 <= n <= 1125899906827623) by lia.
  assert (Hlo : (10 * IZR n <= 3 * IZR x + 5)%R).
  { rewrite <- !mult_IZR, <- plus_IZR. apply IZR_le. lia. }
  assert (Hhi : (3 * IZR x + 5 <= 10 * IZR n + 9)%R).
  { rewrite <- !mult_IZR, <- !plus_IZR. apply IZR_le. lia. }
  assert (Hx0 : (1800000000000000 <= IZR x <= 3752999689425411)%R)
    by (split; apply IZR_le; lia).
  assert (Hn0 : (540000000000000 <= IZR n <= 1125899906827623)%R)
    by (split; apply IZR_le; lia).
  destruct (of_Z_exact x ltac:(lia)) as [HfX HvX].
  destruct (mul_rate (of_Z x) lit_0_30 HfX rate_0_30) as (Hr & Hfp & _).
  rewrite HvX, lit_0_30_value in Hr.
  set (p := mul (of_Z x) lit_0_30) in *.
  (* the product from above *)
  assert (Hup : (SF2R p <= IZR n + 3 / 8)%R).
  { destruct (Rnd_below_snap _ _ (256 * n + 103) (-8) (8 * n + 3) (-3) Hr) as [_ H];
      try lia.
    - rewrite F2R_256th, plus_IZR, mult_IZR. lra.
    - rewrite F2R_256th, plus_IZR, mult_IZR.
      change (53 + -3) with 50. rewrite pow2_50. lra.
    - rewrite F2R_256th, F2R_eighth, !plus_IZR, !mult_IZR, pow2_m53. lra.
    - rewrite F2R_eighth, plus_IZR, mult_IZR in H. lra. }
  (* the product from below *)
  assert (Hdown : (IZR n - / 2 <= SF2R p)%R).
  { destruct (Z.eq_dec ((3 * x + 5) mod 10) 0) as [E | E].
    - destruct (Rnd_snap _ _ (2 * n - 1) (-1) Hr) as [_ Hs]; try lia.
      + lra.
      + change (53 + -1) with 52. rewrite pow2_52. lra.
      + rewrite F2R_half, minus_IZR, mult_IZR, pow2_m53.
        assert (10 * IZR n = 3 * IZR x + 5)%R.
        { rewrite <- !mult_IZR, <- plus_IZR. f_equal. lia. }
        lra.
      + rewrite Hs, F2R_half, minus_IZR, mult_IZR. lra.
    - assert (H1 : (10 * IZR n + 1 <= 3 * IZR x + 5)%R).
      { rewrite <- !mult_IZR, <- !plus_IZR. apply IZR_le. lia. }
      pose proof (Rnd_above_dyadic _ _ (2 * n - 1) (-1) Hr Hfp) as H.
      rewrite F2R_half, minus_IZR, mult_IZR in H.
      assert (IZR n - / 2 = (2 * IZR n - 1) / 2)%R as -> by lra.
      apply H; try lia. lra. }
  (* the sum *)
  assert (H15 : SF2R (of_Z 15000) = 15000%R) by (apply of_Z_value; lia).
  pose proof (add_Rnd (of_Z 15000) p ltac:(reflexivity) Hfp) as Hra.
  fold (add (of_Z 15000) p) in Hra. rewrite H15 in Hra.
  destruct (Rnd_below_dyadic _ _ (8 * (15000 + n) + 3) (-3) Hra) as [Hfa Hua];
    try lia.
  { rewrite F2R_eighth, !plus_IZR, !mult_IZR, plus_IZR. lra. }
  rewrite F2R_eighth, !plus_IZR, !mult_IZR, plus_IZR in Hua.
  pose proof (Rnd_above_dyadic _ _ (2 * (15000 + n) - 1) (-1) Hra Hfa) as Hla.
  rewrite F2R_half, minus_IZR, mult_IZR, plus_IZR in Hla.
  apply Math_round_between; auto; try lia.
  rewrite plus_IZR. split; [|lra].
  assert (15000 + IZR n - / 2 = (2 * (15000 + IZR n) - 1) / 2)%R as -> by lra.
  apply Hla; try lia. lra.
Qed.

(** The last six taxable incomes before the first inexact one: the tax has
    reached [2^50]. *)
Lemma third_bracket_exact_top x :
  3752999689425412 <= x <= 3752999689425417 ->
  Math_round (add (of_Z 15000) (mul (of_Z x) lit_0_30)) =
  of_Z ((150000 + 3 * x + 5) / 10).
Proof.
  intros Hx.
  assert (H : x = 3752999689425412 \/ x = 3752999689425413 \/
              x = 3752999689425414 \/ x = 3752999689425415 \/
              x = 3752999689425416 \/ x = 3752999689425417) by lia.
  repeat destruct H as [H | H]; subst x; vm_compute; reflexivity.
Qed.

Theorem bracketTax_round_exact t :
  0 <= t <= 3752999689525417 ->
  Math_round (bracketTax (of_Z t)) = of_Z (progressiveTax_spec t).
Proof.
  intros Ht. rewrite progressiveTax_spec_tenths. unfold bracketTax, tenths.
  rewrite !le_of_Z_of_Z by lia.
  destruct (Z.leb_spec t 50000) as [H1 | H1].
  - apply first_bracket_exact. lia.
  - destruct (Z.leb_spec t 100000) as [H2 | H2].
    + rewrite sub_of_Z by lia. apply second_bracket_exact. lia.
    + rewrite sub_of_Z by lia.
      destruct (Z_le_gt_dec (t - 100000) (18 * 10 ^ 14)).
      * apply third_bracket_exact. lia.
      * destruct (Z_le_gt_dec (t - 100000) 3752999689425411).
        -- apply third_bracket_exact_high. lia.
        -- apply third_bracket_exact_top. lia.
Qed.

Lemma calculateProgressiveTax_unfold t :
  calculateProgressiveTax t = Math_round (bracketTax t).
Proof. reflexivity. Qed.

End TaxFacts.

(* ===================================================================== *)
(** * Facts about the ledger *)
(* ===================================================================== *)

Module LedgerFacts.
Import Ledger Samples.

Section Facts.
Variable keccak256 : bytes -> bytes32.

Lemma length_pos_iff (b : bytes) :
  (0 <? Z.of_nat (length b)) = true <-> b <> [].
Proof.
  destruct b as [|x b]; simpl.
  - split; [discriminate | congruence].
  - split; [discriminate | intros _; apply Z.ltb_lt; lia].
Qed.

Lemma submitTaxInfo_succeeds s msg ei ip ed dp :
  succeeds (submitTaxInfo keccak256 s msg ei ip ed dp) = true <->
  submitted s (sender msg) = false /\ ip <> [] /\ dp <> [] /\
  totalTaxpayers s < MAX_UINT256.
Proof.
  unfold submitTaxInfo, checked_incr, require.
  rewrite <- !length_pos_iff.
  destruct (submitted s (sender msg)); simpl.
  { split; [discriminate | intros [? _]; discriminate]. }
  destruct (0 <? Z.of_nat (length ip)); simpl.
  2:{ split; [discriminate | intros (_ & ? & _); discriminate]. }
  destruct (0 <? Z.of_nat (length dp)); simpl.
  2:{ split; [discriminate | intros (_ & _ & ? & _); discriminate]. }
  destruct (Z.leb_spec (totalTaxpayers s + 1) MAX_UINT256); simpl.
  - split; intros; repeat split; auto; lia.
  - split; [discriminate | intros (_ & _ & _ & ?); lia].
Qed.

Lemma calculateTax_succeeds s msg :
  succeeds (calculateTax keccak256 s msg) = true <->
  submitted s (sender msg) = true /\
  calculated (recordOf s (sender msg)) = false.
Proof.
  unfold calculateTax, require.
  destruct (submitted s (sender msg)); simpl.
  2:{ split; [discriminate | intros [? _]; discriminate]. }
  destruct (calculated (recordOf s (sender msg))); simpl.
  - split; [discriminate | intros [_ ?]; discriminate].
  - split; auto.
Qed.

Lemma getTaxOwed_succeeds s msg :
  succeeds (getTaxOwed s msg) = true <->
  submitted s (sender msg) = true /\
  calculated (recordOf s (sender msg)) = true.
Proof.
  unfold getTaxOwed, onlyTaxpayer, require.
  destruct (submitted s (sender msg)); simpl.
  2:{ split; [discriminate | intros [? _]; discriminate]. }
  destruct (calculated (recordOf s (sender msg))); simpl.
  - split; auto.
  - split; [discriminate | intros [_ ?]; discriminate].
Qed.

Lemma clearTaxRecord_succeeds s msg :
  succeeds (clearTaxRecord s msg) = true <->
  submitted s (sender msg) = true.
Proof.
  unfold clearTaxRecord, onlyTaxpayer, require.
  destruct (submitted s (sender msg)); simpl; split; auto; discriminate.
Qed.

(** Reads after each successful call. *)
Lemma get_insert_eq {V} (d : V) (m : gmap Z V) a x :
  default d (<[a := x]> m !! a) = x.
Proof. rewrite lookup_insert_eq. reflexivity. Qed.

Lemma get_insert_ne {V} (d : V) (m : gmap Z V) a b x :
  a <> b -> default d (<[a := x]> m !! b) = default d (m !! b).
Proof. intros H. rewrite lookup_insert_ne; auto. Qed.

Lemma get_delete_eq {V} (d : V) (m : gmap Z V) a :
  default d (delete a m !! a) = d.
Proof. rewrite lookup_delete_eq. reflexivity. Qed.

Lemma get_delete_ne {V} (d : V) (m : gmap Z V) a b :
  a <> b -> default d (delete a m !! b) = default d (m !! b).
Proof. intros H. rewrite lookup_delete_ne; auto. Qed.

(** Inversion of a successful call. *)
Lemma submitTaxInfo_Ok s msg ei ip ed dp s' ev :
  submitTaxInfo keccak256 s msg ei ip ed dp = Ok (s', ev) ->
  submitted s (sender msg) = false /\ ip <> [] /\ dp <> [] /\
  totalTaxpayers s < MAX_UINT256 /\
  s' = {| owner := owner s; deploymentTime := deploymentTime s;
          totalTaxpayers := totalTaxpayers s + 1;
          taxRecords :=
            <[sender msg :=
               {| incomeHash := fst ei; deductionsHash := fst ed;
                  taxOwedHash := 0; calculated := false;
                  submissionTime := timestamp msg; calculationTime := 0;
                  lastAccessTime := timestamp msg |}]> (taxRecords s);
          hasSubmitted := <[sender msg := true]> (hasSubmitted s) |}.
Proof.
  intros H.
  assert (Hs : succeeds (submitTaxInfo keccak256 s msg ei ip ed dp) = true)
    by (rewrite H; reflexivity).
  apply submitTaxInfo_succeeds in Hs. destruct Hs as (H1 & H2 & H3 & H4).
  repeat split; auto.
  revert H. unfold submitTaxInfo, checked_incr, require.
  rewrite H1. apply length_pos_iff in H2, H3. rewrite H2, H3. simpl.
  destruct (Z.leb_spec (totalTaxpayers s + 1) MAX_UINT256); [|lia].
  simpl. intros H'; inversion H'; reflexivity.
Qed.

Lemma calculateTax_Ok s msg s' ev :
  calculateTax keccak256 s msg = Ok (s', ev) ->
  submitted s (sender msg) = true /\
  calculated (recordOf s (sender msg)) = false /\
  let record := recordOf s (sender msg) in
  s' = {| owner := owner s; deploymentTime := deploymentTime s;
          totalTaxpayers := totalTaxpayers s;
          taxRecords :=
            <[sender msg :=
               {| incomeHash := incomeHash record;
                  deductionsHash := deductionsHash record;
                  taxOwedHash :=
                    keccak256 (pack_word (incomeHash record)
                               ++ pack_word (deductionsHash record)
                               ++ pack_word (timestamp msg)
                               ++ pack_string "tax_calculation");
                  calculated := true;
                  submissionTime := submissionTime record;
                  calculationTime := timestamp msg;
                  lastAccessTime := timestamp msg |}]> (taxRecords s);
          hasSubmitted := hasSubmitted s |}.
Proof.
  intros H.
  assert (Hs : succeeds (calculateTax keccak256 s msg) = true)
    by (rewrite H; reflexivity).
  apply calculateTax_succeeds in Hs. destruct Hs as (H1 & H2).
  repeat split; auto.
  revert H. unfold calculateTax, require. rewrite H1, H2. simpl.
  intros H'; inversion H'; reflexivity.
Qed.

Lemma clearTaxRecord_Ok s msg s' ev :
  clearTaxRecord s msg = Ok (s', ev) ->
  submitted s (sender msg) = true /\
  s' = {| owner := owner s; deploymentTime := deploymentTime s;
          totalTaxpayers := totalTaxpayers s;
          taxRecords := delete (sender msg) (taxRecords s);
          hasSubmitted := <[sender msg := false]> (hasSubmitted s) |}.
Proof.
  unfold clearTaxRecord, onlyTaxpayer, require.
  destruct (submitted s (sender msg)); simpl; [|discriminate].
  intros H; inversion H; auto.
Qed.

Lemma emergencyPause_Ok s msg s' ev :
  emergencyPause s msg = Ok (s', ev) -> s' = s.
Proof.
  unfold emergencyPause, require.
  destruct (sender msg =? owner s); simpl; [|discriminate].
  intros H; inversion H; auto.
Qed.

(** One step of the ledger: either storage is untouched, or one of the
    three mutating bodies ran to completion. *)
Lemma transact_cases s msg c :
  transact keccak256 s msg c = s \/
  exists s' ev, transact keccak256 s msg c = s' /\
    ((exists ei ip ed dp,
        submitTaxInfo keccak256 s msg ei ip ed dp = Ok (s', ev)) \/
     calculateTax keccak256 s msg = Ok (s', ev) \/
     clearTaxRecord s msg = Ok (s', ev)).
Proof.
  unfold transact.
  destruct c as [ei ip ed dp | | |]; simpl.
  - destruct (submitTaxInfo keccak256 s msg ei ip ed dp) as [[s' ev]| |] eqn:E;
      auto.
    right. exists s', ev. split; auto. left. eauto.
  - destruct (calculateTax keccak256 s msg) as [[s' ev]| |] eqn:E; auto.
    right. exists s', ev. auto.
  - destruct (clearTaxRecord s msg) as [[s' ev]| |] eqn:E; auto.
    right. exists s', ev. auto.
  - destruct (emergencyPause s msg) as [[s' ev]| |] eqn:E; auto.
    apply emergencyPause_Ok in E. auto.
Qed.


(** What the mappings read as after each successful call. *)
Lemma submitTaxInfo_reads s msg ei ip ed dp s' ev :
  submitTaxInfo keccak256 s msg ei ip ed dp = Ok (s', ev) ->
  (forall a, recordOf s' a =
     if sender msg =? a then submittedRecord msg ei ed else recordOf s a) /\
  (forall a, submitted s' a =
     if sender msg =? a then true else submitted s a) /\
  totalTaxpayers s' = totalTaxpayers s + 1.
Proof.
  intros H. apply submitTaxInfo_Ok in H. destruct H as (_ & _ & _ & _ & ->).
  unfold recordOf, submitted. cbn [taxRecords hasSubmitted totalTaxpayers].
  repeat split; intros a; destruct (Z.eqb_spec (sender msg) a) as [<- | Hne];
    rewrite ?get_insert_eq, ?get_insert_ne by auto; reflexivity.
Qed.

Lemma calculateTax_reads s msg s' ev :
  calculateTax keccak256 s msg = Ok (s', ev) ->
  (forall a, recordOf s' a =
     if sender msg =? a then calculatedRecord keccak256 msg (recordOf s (sender msg))
     else recordOf s a) /\
  (forall a, submitted s' a = submitted s a) /\
  totalTaxpayers s' = totalTaxpayers s.
Proof.
  intros H. apply calculateTax_Ok in H. destruct H as (_ & _ & ->).
  unfold recordOf, submitted. cbn [taxRecords hasSubmitted totalTaxpayers].
  repeat split; intros a; destruct (Z.eqb_spec (sender msg) a) as [<- | Hne];
    rewrite ?get_insert_eq, ?get_insert_ne by auto; reflexivity.
Qed.

Lemma clearTaxRecord_reads s msg s' ev :
  clearTaxRecord s msg = Ok (s', ev) ->
  (forall a, recordOf s' a =
     if sender msg =? a then zeroRecord else recordOf s a) /\
  (forall a, submitted s' a =
     if sender msg =? a then false else submitted s a) /\
  totalTaxpayers s' = totalTaxpayers s.
Proof.
  intros H. apply clearTaxRecord_Ok in H. destruct H as (_ & ->).
  unfold recordOf, submitted. cbn [taxRecords hasSubmitted totalTaxpayers].
  repeat split; intros a; destruct (Z.eqb_spec (sender msg) a) as [<- | Hne];
    rewrite ?get_insert_eq, ?get_insert_ne, ?get_delete_eq, ?get_delete_ne
      by auto; reflexivity.
Qed.

(** Every account that is marked calculated has submitted, in every
    reachable state. *)
Lemma calculated_submitted_inv s :
  reachable keccak256 s ->
  forall a, calculated (recordOf s a) = true -> submitted s a = true.
Proof.
  induction 1 as [msg Hwf | s msg c Hr IH Hwf]; intros a.
  - unfold recordOf. cbn. rewrite lookup_empty. discriminate.
  - destruct (transact_cases s msg c) as [-> | (s' & ev & -> & Hc)]; auto.
    destruct Hc as [(ei & ip & ed & dp & Hc) | [Hc | Hc]].
    + apply submitTaxInfo_reads in Hc. destruct Hc as (Hr' & Hs' & _).
      rewrite Hr', Hs'. destruct (sender msg =? a); auto.
    + pose proof (calculateTax_Ok _ _ _ _ Hc) as (Hsub & _).
      apply calculateTax_reads in Hc. destruct Hc as (Hr' & Hs' & _).
      rewrite Hr', Hs'.
      destruct (Z.eqb_spec (sender msg) a) as [<- | Hne]; auto.
    + apply clearTaxRecord_reads in Hc. destruct Hc as (Hr' & Hs' & _).
      rewrite Hr', Hs'. destruct (sender msg =? a); auto; discriminate.
Qed.

(** A calculated record carries the time of its calculation, which is
    positive, and the digest [calculateTax] stored. *)
Lemma calculated_record_inv s :
  reachable keccak256 s ->
  forall a, calculated (recordOf s a) = true ->
    0 < calculationTime (recordOf s a) /\
    taxOwedHash (recordOf s a) =
      keccak256 (pack_word (incomeHash (recordOf s a))
                 ++ pack_word (deductionsHash (recordOf s a))
                 ++ pack_word (calculationTime (recordOf s a))
                 ++ pack_string "tax_calculation").
Proof.
  induction 1 as [msg Hwf | s msg c Hr IH Hwf]; intros a.
  - unfold recordOf. cbn. rewrite lookup_empty. discriminate.
  - destruct (transact_cases s msg c) as [-> | (s' & ev & -> & Hc)]; auto.
    destruct Hc as [(ei & ip & ed & dp & Hc) | [Hc | Hc]].
    + apply submitTaxInfo_reads in Hc. destruct Hc as (Hr' & _).
      rewrite Hr'. destruct (sender msg =? a); auto; discriminate.
    + apply calculateTax_reads in Hc. destruct Hc as (Hr' & _).
      rewrite Hr'. destruct (sender msg =? a); auto.
      intros _. split; [apply Hwf | reflexivity].
    + apply clearTaxRecord_reads in Hc. destruct Hc as (Hr' & _).
      rewrite Hr'. destruct (sender msg =? a); auto; discriminate.
Qed.

(** The counter after a transaction. *)
Lemma totalTaxpayers_transact s msg c :
  totalTaxpayers (transact keccak256 s msg c) =
  totalTaxpayers s +
  match c with
  | CallSubmitTaxInfo _ _ _ _ =>
      if succeeds (execute keccak256 s msg c) then 1 else 0
  | _ => 0
  end.
Proof.
  unfold transact.
  destruct c as [ei ip ed dp | | |]; simpl.
  - destruct (submitTaxInfo keccak256 s msg ei ip ed dp) as [[s' ev]| |] eqn:E;
      simpl; try lia.
    apply submitTaxInfo_Ok in E. destruct E as (_ & _ & _ & _ & ->).
    reflexivity.
  - destruct (calculateTax keccak256 s msg) as [[s' ev]| |] eqn:E;
      simpl; try lia.
    apply calculateTax_Ok in E. destruct E as (_ & _ & ->). simpl. lia.
  - destruct (clearTaxRecord s msg) as [[s' ev]| |] eqn:E; simpl; try lia.
    apply clearTaxRecord_Ok in E. destruct E as (_ & ->). simpl. lia.
  - destruct (emergencyPause s msg) as [[s' ev]| |] eqn:E; simpl; try lia.
    apply emergencyPause_Ok in E. subst. lia.
Qed.

(** ** The sample ledgers are reachable *)


Lemma wf_deployMsg : wf_msg deployMsg.
Proof. unfold wf_msg, MAX_UINT256, deployMsg, aliceMsg, deployer, alice; cbn [sender timestamp]. lia. Qed.

Lemma wf_aliceMsg t : 0 < t <= MAX_UINT256 -> wf_msg (aliceMsg t).
Proof. unfold wf_msg, MAX_UINT256, aliceMsg, alice; cbn [sender timestamp]. lia. Qed.

Lemma wf_aliceMsg_now : wf_msg (aliceMsg 1700000100).
Proof. apply wf_aliceMsg. unfold MAX_UINT256. lia. Qed.

Lemma submitted_idleState n a : submitted (idleState n) a = false.
Proof.
  unfold submitted, idleState; cbn [hasSubmitted]. destruct (n =? 0).
  - rewrite lookup_empty. reflexivity.
  - destruct (Z.eq_dec alice a) as [<- | Hne].
    + rewrite lookup_singleton_eq. reflexivity.
    + rewrite lookup_singleton_ne by auto. reflexivity.
Qed.

Lemma transact_submit_idle n :
  0 <= n < MAX_UINT256 ->
  transact keccak256 (idleState n) (aliceMsg 1700000100) submitCall = filedState (n + 1).
Proof.
  intros Hn. unfold transact, execute, submitCall, submitTaxInfo.
  rewrite submitted_idleState. cbn [negb require mbind result_bind].
  unfold checked_incr. cbn [totalTaxpayers idleState].
  destruct (Z.leb_spec (n + 1) MAX_UINT256); [|lia].
  cbn [mbind result_bind owner deploymentTime totalTaxpayers taxRecords hasSubmitted].
  unfold filedState. f_equal.
  cbn [hasSubmitted idleState sender aliceMsg].
  destruct (n =? 0); [reflexivity | apply insert_singleton_eq].
Qed.

Lemma transact_clear_filed n :
  n <> 0 ->
  transact keccak256 (filedState n) (aliceMsg 1700000100) CallClearTaxRecord = idleState n.
Proof.
  intros Hn. unfold transact, execute, clearTaxRecord, onlyTaxpayer, submitted.
  unfold filedState.
  cbn [owner deploymentTime totalTaxpayers taxRecords hasSubmitted sender
       aliceMsg].
  rewrite lookup_singleton_eq.
  cbn [default require mbind result_bind].
  unfold idleState. f_equal; try apply delete_singleton_eq.
  destruct (Z.eqb_spec n 0); [contradiction|]. apply insert_singleton_eq.
Qed.

Lemma reachable_idleState n :
  0 <= n <= MAX_UINT256 -> reachable keccak256 (idleState n).
Proof.
  intros [Hn Hmax]. revert Hmax. pattern n. apply natlike_ind; auto.
  - intros _. apply (reachable_deploy keccak256 deployMsg wf_deployMsg).
  - intros k Hk IH Hmax.
    replace (Z.succ k) with (k + 1) by lia.
    rewrite <- (transact_clear_filed (k + 1)) by lia.
    apply reachable_call; [|apply wf_aliceMsg_now].
    rewrite <- transact_submit_idle by lia.
    apply reachable_call; [|apply wf_aliceMsg_now].
    apply IH. lia.
Qed.

Lemma reachable_filedState n :
  0 < n <= MAX_UINT256 -> reachable keccak256 (filedState n).
Proof.
  intros Hn. replace n with (n - 1 + 1) by lia.
  rewrite <- transact_submit_idle by lia.
  apply reachable_call; [|apply wf_aliceMsg_now].
  apply reachable_idleState. lia.
Qed.

End Facts.

End LedgerFacts.

(* ===================================================================== *)
(** * Facts about histories of the ledger *)
(* ===================================================================== *)

Module HistoryFacts.
Import Ledger Samples LedgerFacts History.

Section Facts.
Variable keccak256 : bytes -> bytes32.

Lemma run_nil s : run keccak256 s [] = s.
Proof. reflexivity. Qed.

Lemma run_cons s tx txs :
  run keccak256 s (tx :: txs) =
  run keccak256 (transact keccak256 s (fst tx) (snd tx)) txs.
Proof. reflexivity. Qed.

Lemma run_app s txs1 txs2 :
  run keccak256 s (txs1 ++ txs2) = run keccak256 (run keccak256 s txs1) txs2.
Proof. unfold run. apply fold_left_app. Qed.

Lemma reachable_run s txs :
  reachable keccak256 s -> Forall (fun tx => wf_msg (fst tx)) txs ->
  reachable keccak256 (run keccak256 s txs).
Proof.
  intros Hr Hwf. revert s Hr. induction Hwf as [|tx txs Htx _ IH]; intros s Hr.
  - exact Hr.
  - rewrite run_cons. apply IH. apply reachable_call; assumption.
Qed.

(** No call writes [owner] or [deploymentTime]. *)
Lemma owner_transact s msg c :
  owner (transact keccak256 s msg c) = owner s /\
  deploymentTime (transact keccak256 s msg c) = deploymentTime s.
Proof.
  destruct (transact_cases keccak256 s msg c) as [-> | (s' & ev & -> & Hc)]; auto.
  destruct Hc as [(ei & ip & ed & dp & Hc) | [Hc | Hc]].
  - apply submitTaxInfo_Ok in Hc. destruct Hc as (_ & _ & _ & _ & ->). auto.
  - apply calculateTax_Ok in Hc. destruct Hc as (_ & _ & ->). auto.
  - apply clearTaxRecord_Ok in Hc. destruct Hc as (_ & ->). auto.
Qed.

Lemma owner_run s txs :
  owner (run keccak256 s txs) = owner s /\
  deploymentTime (run keccak256 s txs) = deploymentTime s.
Proof.
  revert s. induction txs as [|tx txs IH]; intros s; [auto|].
  rewrite run_cons. destruct (IH (transact keccak256 s (fst tx) (snd tx))) as [-> ->].
  apply owner_transact.
Qed.

(** A transaction reads and writes the slots of its sender only. *)
Lemma transact_frame s msg c a :
  sender msg <> a ->
  recordOf (transact keccak256 s msg c) a = recordOf s a /\
  submitted (transact keccak256 s msg c) a = submitted s a.
Proof.
  intros Hne.
  destruct (transact_cases keccak256 s msg c) as [-> | (s' & ev & -> & Hc)]; auto.
  apply Z.eqb_neq in Hne.
  destruct Hc as [(ei & ip & ed & dp & Hc) | [Hc | Hc]].
  - apply submitTaxInfo_reads in Hc. destruct Hc as (Hr & Hs & _).
    rewrite Hr, Hs, Hne. auto.
  - apply calculateTax_reads in Hc. destruct Hc as (Hr & Hs & _).
    rewrite Hr, Hs, Hne. auto.
  - apply clearTaxRecord_reads in Hc. destruct Hc as (Hr & Hs & _).
    rewrite Hr, Hs, Hne. auto.
Qed.

Lemma run_frame s txs a :
  Forall (fun tx => sender (fst tx) <> a) txs ->
  recordOf (run keccak256 s txs) a = recordOf s a /\
  submitted (run keccak256 s txs) a = submitted s a.
Proof.
  intros H. revert s. induction H as [|tx txs Htx _ IH]; intros s; [auto|].
  rewrite run_cons. destruct (IH (transact keccak256 s (fst tx) (snd tx))) as [-> ->].
  apply transact_frame. exact Htx.
Qed.

(** The shape of a record, by the flag of its account. *)
Lemma record_shape_inv s :
  reachable keccak256 s ->
  forall a,
    (submitted s a = false -> recordOf s a = zeroRecord) /\
    (submitted s a = true ->
       0 < submissionTime (recordOf s a) /\
       (calculated (recordOf s a) = false ->
          calculationTime (recordOf s a) = 0 /\
          taxOwedHash (recordOf s a) = 0 /\
          lastAccessTime (recordOf s a) = submissionTime (recordOf s a)) /\
       (calculated (recordOf s a) = true ->
          lastAccessTime (recordOf s a) = calculationTime (recordOf s a))).
Proof.
  induction 1 as [msg Hwf | s msg c Hr IH Hwf]; intros a.
  - unfold recordOf, submitted. cbn. rewrite !lookup_empty. cbn.
    split; [reflexivity | discriminate].
  - destruct (transact_cases keccak256 s msg c) as [-> | (s' & ev & -> & Hc)]; auto.
    destruct Hc as [(ei & ip & ed & dp & Hc) | [Hc | Hc]].
    + apply submitTaxInfo_reads in Hc. destruct Hc as (Hr' & Hs' & _).
      rewrite Hr', Hs'. destruct (sender msg =? a); auto.
      split; [discriminate|]. intros _. cbn.
      split; [apply Hwf|]. split; [auto | discriminate].
    + pose proof (calculateTax_Ok _ _ _ _ _ Hc) as (Hsub & _).
      apply calculateTax_reads in Hc. destruct Hc as (Hr' & Hs' & _).
      rewrite Hr', Hs'.
      destruct (Z.eqb_spec (sender msg) a) as [<- | Hne]; auto.
      split; [rewrite Hsub; discriminate|]. intros _. cbn.
      split; [apply IH; exact Hsub|]. split; [discriminate | reflexivity].
    + apply clearTaxRecord_reads in Hc. destruct Hc as (Hr' & Hs' & _).
      rewrite Hr', Hs'. destruct (sender msg =? a); auto.
      split; [reflexivity | discriminate].
Qed.

(** A calculated record of a submitted account survives every
    transaction but the account's own [clearTaxRecord]. *)
Lemma calculated_transact s msg c a :
  submitted s a = true -> calculated (recordOf s a) = true ->
  ~ (sender msg = a /\ c = CallClearTaxRecord) ->
  recordOf (transact keccak256 s msg c) a = recordOf s a /\
  submitted (transact keccak256 s msg c) a = true.
Proof.
  intros Hs Hc Hn.
  destruct (Z.eq_dec (sender msg) a) as [E | E].
  2:{ destruct (transact_frame s msg c a E) as [-> ->]. auto. }
  subst a. unfold transact.
  destruct c as [ei ip ed dp | | |]; cbn [execute].
  - destruct (submitTaxInfo keccak256 s msg ei ip ed dp) as [[s' ev]| |] eqn:E;
      auto.
    apply submitTaxInfo_Ok in E. destruct E as (E & _). congruence.
  - destruct (calculateTax keccak256 s msg) as [[s' ev]| |] eqn:E; auto.
    apply calculateTax_Ok in E. destruct E as (_ & E & _). congruence.
  - exfalso. apply Hn. auto.
  - destruct (emergencyPause s msg) as [[s' ev]| |] eqn:E; auto.
    apply emergencyPause_Ok in E. subst. auto.
Qed.

Lemma calculated_run s txs a :
  submitted s a = true -> calculated (recordOf s a) = true ->
  Forall (fun tx => ~ (sender (fst tx) = a /\ snd tx = CallClearTaxRecord))
    txs ->
  recordOf (run keccak256 s txs) a = recordOf s a /\
  submitted (run keccak256 s txs) a = true.
Proof.
  intros Hs Hc H. revert s Hs Hc.
  induction H as [|tx txs Htx _ IH]; intros s Hs Hc; [auto|].
  rewrite run_cons.
  destruct (calculated_transact s (fst tx) (snd tx) a Hs Hc Htx) as [Hr' Hs'].
  rewrite <- Hr'. apply IH; [exact Hs' | rewrite Hr'; exact Hc].
Qed.

(** The accounts with the flag set, counted. *)
Lemma activeRecords_insert_true s a :
  submitted s a = false ->
  Z.of_nat (size (filter (fun kv : Z * bool => snd kv = true)
                    (<[a := true]> (hasSubmitted s)))) =
  activeRecords s + 1.
Proof.
  intros Hs. unfold activeRecords.
  rewrite map_filter_insert_True by reflexivity.
  rewrite map_size_insert_None; [lia|].
  apply map_lookup_filter_None. unfold submitted in Hs.
  destruct (hasSubmitted s !! a) as [b|] eqn:E; [right | left; exact E].
  intros x Hx Hp. cbn in Hs, Hp.
  pose proof (eq_trans (eq_sym E) Hx) as Hbx. inversion Hbx. subst.
  discriminate.
Qed.

Lemma activeRecords_insert_false s a :
  Z.of_nat (size (filter (fun kv : Z * bool => snd kv = true)
                    (<[a := false]> (hasSubmitted s)))) <=
  activeRecords s.
Proof.
  unfold activeRecords.
  rewrite map_filter_insert_False by (cbn; discriminate).
  rewrite map_filter_delete.
  apply inj_le.
  set (m := filter (fun kv : Z * bool => snd kv = true) (hasSubmitted s)).
  destruct (m !! a) eqn:E.
  - pose proof (map_size_delete_Some a m (ex_intro _ b E)). lia.
  - rewrite delete_id by exact E. lia.
Qed.

Lemma activeRecords_inv s :
  reachable keccak256 s -> 0 <= activeRecords s <= totalTaxpayers s.
Proof.
  induction 1 as [msg Hwf | s msg c Hr IH Hwf].
  - unfold activeRecords. cbn. rewrite map_filter_empty, map_size_empty. lia.
  - destruct (transact_cases keccak256 s msg c) as [-> | (s' & ev & -> & Hc)]; auto.
    destruct Hc as [(ei & ip & ed & dp & Hc) | [Hc | Hc]].
    + apply submitTaxInfo_Ok in Hc. destruct Hc as (Hs & _ & _ & _ & ->).
      unfold activeRecords at 1 2. cbn [hasSubmitted totalTaxpayers].
      rewrite activeRecords_insert_true by exact Hs. lia.
    + apply calculateTax_Ok in Hc. destruct Hc as (_ & _ & ->).
      unfold activeRecords in *. cbn [hasSubmitted totalTaxpayers]. exact IH.
    + apply clearTaxRecord_Ok in Hc. destruct Hc as (_ & ->).
      cbn [totalTaxpayers]. split; [unfold activeRecords; lia|].
      apply Z.le_trans with (activeRecords s); [|lia].
      apply activeRecords_insert_false.
Qed.

Lemma count_app test l1 l2 : count test (l1 ++ l2) = count test l1 + count test l2.
Proof. unfold count. rewrite List.filter_app, length_app. lia. Qed.

Lemma activeRecords_clear s a :
  submitted s a = true ->
  Z.of_nat (size (filter (fun kv : Z * bool => snd kv = true)
                    (<[a := false]> (hasSubmitted s)))) =
  activeRecords s - 1.
Proof.
  intros Hs. unfold activeRecords.
  rewrite map_filter_insert_False by (cbn; discriminate).
  rewrite map_filter_delete.
  set (m := filter (fun kv : Z * bool => snd kv = true) (hasSubmitted s)).
  assert (E : m !! a = Some true).
  { apply map_lookup_filter_Some. split; [|reflexivity].
    unfold submitted in Hs. destruct (hasSubmitted s !! a) as [[|]|]; 
      try discriminate. reflexivity. }
  pose proof (map_size_delete_Some a m (ex_intro _ true E)) as Hd.
  assert (size m <> 0%nat).
  { intros H0. apply map_size_empty_inv in H0. rewrite H0 in E.
    rewrite lookup_empty in E. discriminate. }
  etransitivity; [apply f_equal; exact Hd|].
  destruct (size m) as [|n]; [contradiction|]. cbn [Init.Nat.pred]. lia.
Qed.

(** One transaction: the counter moves with the [TaxSubmitted] events,
    the number of flagged accounts with those and the [TaxRecordCleared]
    ones. *)
Lemma transact_accounting s msg c :
  totalTaxpayers (transact keccak256 s msg c) =
    totalTaxpayers s + count isTaxSubmitted (emitted keccak256 s msg c) /\
  activeRecords (transact keccak256 s msg c) =
    activeRecords s + count isTaxSubmitted (emitted keccak256 s msg c)
    - count isTaxRecordCleared (emitted keccak256 s msg c).
Proof.
  unfold transact, emitted.
  destruct c as [ei ip ed dp | | |]; cbn [execute].
  - destruct (submitTaxInfo keccak256 s msg ei ip ed dp) as [[s' ev]| |] eqn:E;
      try (unfold count; cbn; lia).
    pose proof E as E'. apply submitTaxInfo_Ok in E'.
    destruct E' as (Hs & Hi & Hd & _ & ->).
    assert (Hev : ev = [TaxSubmitted (sender msg) (timestamp msg)
                          (keccak256 (pack_word (timestamp msg)
                                      ++ pack_address (sender msg)))]).
    { revert E. unfold submitTaxInfo, checked_incr, require. rewrite Hs.
      apply length_pos_iff in Hi, Hd. rewrite Hi, Hd. cbn.
      destruct (totalTaxpayers s + 1 <=? MAX_UINT256); cbn; [|discriminate].
      intros H; inversion H; reflexivity. }
    rewrite Hev. cbn [totalTaxpayers]. unfold activeRecords at 1.
    cbn [hasSubmitted]. rewrite activeRecords_insert_true by exact Hs.
    unfold count. cbn. lia.
  - destruct (calculateTax keccak256 s msg) as [[s' ev]| |] eqn:E;
      try (unfold count; cbn; lia).
    pose proof E as E'. apply calculateTax_Ok in E'.
    destruct E' as (Hs & Hc & ->).
    revert E. unfold calculateTax, require. rewrite Hs, Hc. cbn.
    intros H; inversion H. unfold count, activeRecords. cbn. lia.
  - destruct (clearTaxRecord s msg) as [[s' ev]| |] eqn:E; try (unfold count; cbn; lia).
    pose proof E as E'. apply clearTaxRecord_Ok in E'.
    destruct E' as (Hs & ->).
    revert E. unfold clearTaxRecord, onlyTaxpayer, require. rewrite Hs. cbn.
    intros H; inversion H. cbn [totalTaxpayers]. unfold activeRecords at 1.
    cbn [hasSubmitted]. rewrite activeRecords_clear by exact Hs.
    unfold count. cbn. lia.
  - destruct (emergencyPause s msg) as [[s' ev]| |] eqn:E; try (unfold count; cbn; lia).
    pose proof E as E'. apply emergencyPause_Ok in E'. subst s'.
    revert E. unfold emergencyPause, require.
    destruct (sender msg =? owner s); cbn; [|discriminate].
    intros H; inversion H. unfold count. cbn. lia.
Qed.

Lemma run_accounting s txs :
  totalTaxpayers (run keccak256 s txs) =
    totalTaxpayers s + count isTaxSubmitted (log keccak256 s txs) /\
  activeRecords (run keccak256 s txs) =
    activeRecords s + count isTaxSubmitted (log keccak256 s txs)
    - count isTaxRecordCleared (log keccak256 s txs).
Proof.
  revert s. induction txs as [|tx txs IH]; intros s.
  - cbn. unfold count. cbn. lia.
  - rewrite run_cons. cbn [log]. rewrite !count_app.
    destruct (IH (transact keccak256 s (fst tx) (snd tx))) as [-> ->].
    destruct (transact_accounting s (fst tx) (snd tx)) as [-> ->]. lia.
Qed.

Lemma timed_transact s now msg c :
  timed s now -> now <= timestamp msg ->
  timed (transact keccak256 s msg c) (timestamp msg).
Proof.
  intros [Hd H] Hnow.
  destruct (owner_transact s msg c) as [_ Hdt].
  split; [rewrite Hdt; lia|]. rewrite Hdt. intros a.
  destruct (H a) as (Hcs & Hsub).
  destruct (transact_cases keccak256 s msg c) as [-> | (s' & ev & -> & Hc)].
  { split; [exact Hcs|]. intros Hs. destruct (Hsub Hs) as [H1 H2].
    split; [lia|]. intros Hc. specialize (H2 Hc). lia. }
  destruct Hc as [(ei & ip & ed & dp & Hc) | [Hc | Hc]].
  - apply submitTaxInfo_reads in Hc. destruct Hc as (Hr' & Hs' & _).
    rewrite Hr', Hs'. destruct (Z.eqb_spec (sender msg) a) as [<- | Hne].
    + cbn. split; [discriminate|]. intros _. split; [lia | discriminate].
    + split; [exact Hcs|]. intros Hs. destruct (Hsub Hs) as [H1 H2].
      split; [lia|]. intros Hc. specialize (H2 Hc). lia.
  - pose proof (calculateTax_Ok _ _ _ _ _ Hc) as (Hsb & _).
    apply calculateTax_reads in Hc. destruct Hc as (Hr' & Hs' & _).
    rewrite Hr', Hs'. destruct (Z.eqb_spec (sender msg) a) as [<- | Hne].
    + cbn. split; [intros _; exact Hsb|]. intros _.
      destruct (Hsub Hsb) as [H1 _]. split; [lia|]. intros _. lia.
    + split; [exact Hcs|]. intros Hs. destruct (Hsub Hs) as [H1 H2].
      split; [lia|]. intros Hc. specialize (H2 Hc). lia.
  - apply clearTaxRecord_reads in Hc. destruct Hc as (Hr' & Hs' & _).
    rewrite Hr', Hs'. destruct (Z.eqb_spec (sender msg) a) as [<- | Hne].
    + cbn. split; discriminate.
    + split; [exact Hcs|]. intros Hs. destruct (Hsub Hs) as [H1 H2].
      split; [lia|]. intros Hc. specialize (H2 Hc). lia.
Qed.

Lemma timed_run s now txs :
  timed s now -> chronological now txs ->
  exists last, now <= last /\ timed (run keccak256 s txs) last.
Proof.
  revert s now. induction txs as [|tx txs IH]; intros s now Ht Hc.
  - exists now. split; [lia | exact Ht].
  - destruct Hc as [Hnow Hc]. rewrite run_cons.
    destruct (IH _ _ (timed_transact s now (fst tx) (snd tx) Ht Hnow) Hc)
      as (last & Hl & Ht').
    exists last. split; [lia | exact Ht'].
Qed.

Lemma timed_constructor msg : timed (fst (constructor msg)) (timestamp msg).
Proof.
  split; [cbn; lia|]. intros a. unfold recordOf, submitted. cbn.
  rewrite !lookup_empty. cbn. split; discriminate.
Qed.

End Facts.

Lemma reachable_filed : reachable sample_keccak filed.
Proof.
  apply reachable_call; [|apply wf_aliceMsg; unfold MAX_UINT256; lia].
  apply reachable_deploy. apply wf_deployMsg.
Qed.

Lemma reachable_assessed : reachable sample_keccak assessed.
Proof.
  apply reachable_call; [|apply wf_aliceMsg; unfold MAX_UINT256; lia].
  apply reachable_filed.
Qed.

(** ** [abi.encodePacked] *)

Lemma byte_of_Z_to_N z : Z.of_N (Byte.to_N (byte_of_Z z)) = z mod 256.
Proof.
  unfold byte_of_Z.
  pose proof (Z.mod_pos_bound z 256 ltac:(lia)) as Hb.
  destruct (Byte.of_N (Z.to_N (z mod 256))) as [b|] eqn:E.
  - apply Byte.to_of_N in E. rewrite E. lia.
  - apply Byte.of_N_None_iff in E. lia.
Qed.

Lemma length_be_bytes n z : length (be_bytes n z) = n.
Proof.
  revert z. induction n as [|n IH]; intros z; [reflexivity|].
  cbn [be_bytes]. rewrite length_app, IH. cbn. lia.
Qed.

Lemma be_bytes_inj n z z' :
  be_bytes n z = be_bytes n z' -> z mod 256 ^ Z.of_nat n = z' mod 256 ^ Z.of_nat n.
Proof.
  revert z z'. induction n as [|n IH]; intros z z' H.
  - cbn. rewrite !Z.mod_1_r. reflexivity.
  - cbn [be_bytes] in H. apply app_inj_tail in H. destruct H as [H1 H2].
    apply IH in H1.
    assert (Hb : z mod 256 = z' mod 256).
    { rewrite <- !byte_of_Z_to_N. congruence. }
    replace (256 ^ Z.of_nat (S n)) with (256 * 256 ^ Z.of_nat n)
      by (rewrite Nat2Z.inj_succ, Z.pow_succ_r by lia; reflexivity).
    assert (Hp : 0 < 256 ^ Z.of_nat n) by (apply Z.pow_pos_nonneg; lia).
    rewrite !Z.rem_mul_r by lia. rewrite H1, Hb. reflexivity.
Qed.

Lemma pack_word_inj z z' :
  0 <= z <= MAX_UINT256 -> 0 <= z' <= MAX_UINT256 ->
  pack_word z = pack_word z' -> z = z'.
Proof.
  unfold MAX_UINT256, pack_word. intros Hz Hz' H. apply be_bytes_inj in H.
  change (256 ^ Z.of_nat 32) with (2 ^ 256) in H.
  rewrite !Z.mod_small in H by lia. exact H.
Qed.

Lemma length_pack_word z : length (pack_word z) = 32%nat.
Proof. apply length_be_bytes. Qed.

Lemma length_pack_address a : length (pack_address a) = 20%nat.
Proof. apply length_be_bytes. Qed.

Lemma app_inj_length {A} (l1 l2 k1 k2 : list A) :
  length l1 = length k1 -> l1 ++ l2 = k1 ++ k2 -> l1 = k1 /\ l2 = k2.
Proof. intros H E. apply app_inj_1; assumption. Qed.

End HistoryFacts.

(* ===================================================================== *)
(** * Facts about calls with ether *)
(* ===================================================================== *)

Module DispatchFacts.
Import Ledger Samples LedgerFacts History HistoryFacts Dispatch.

Lemma nonpayable_zero {A : Type} (body : result A) :
  nonpayable 0 body = Ran body.
Proof. reflexivity. Qed.

Lemma nonpayable_ether {A : Type} (value : uint256) (body : result A) :
  value <> 0 -> nonpayable value body = Rejected.
Proof.
  intros H. unfold nonpayable. apply Z.eqb_neq in H. rewrite H. reflexivity.
Qed.

Lemma returned_nonpayable {A : Type} (value : uint256) (body : result A) :
  returned (nonpayable value body) = (value =? 0) && succeeds body.
Proof.
  unfold nonpayable. destruct (value =? 0); [|reflexivity].
  destruct body; reflexivity.
Qed.

(** A failure, spelled out. *)
Lemma returned_nonpayable_false {A : Type} (value : uint256)
    (body : result A) :
  returned (nonpayable value body) = false <->
  value <> 0 \/ succeeds body = false.
Proof.
  rewrite returned_nonpayable.
  destruct (Z.eqb_spec value 0) as [-> | Hne]; cbn [andb].
  - split; [auto | intros [H | H]; [contradiction | exact H]].
  - split; auto.
Qed.

Section Facts.
Variable keccak256 : bytes -> bytes32.

(** A transaction does what its function does if the dispatcher lets it
    through, and nothing otherwise. *)
Lemma send_transact s tx :
  send keccak256 s tx =
  if passes tx then transact keccak256 s (tx_msg tx) (tx_call tx) else s.
Proof.
  unfold send, passes, dispatch, transact, execute, payable, nonpayable.
  destruct (tx_call tx) as [ei ip ed dp | | |]; [reflexivity | | |];
    destruct (tx_value tx =? 0); reflexivity.
Qed.

Lemma sendAll_nil s : sendAll keccak256 s [] = s.
Proof. reflexivity. Qed.

Lemma sendAll_cons s tx txs :
  sendAll keccak256 s (tx :: txs) =
  sendAll keccak256 (send keccak256 s tx) txs.
Proof. reflexivity. Qed.

Lemma sendAll_app s txs1 txs2 :
  sendAll keccak256 s (txs1 ++ txs2) =
  sendAll keccak256 (sendAll keccak256 s txs1) txs2.
Proof. unfold sendAll. apply fold_left_app. Qed.

(** A sequence of transactions ends where its effective ones end. *)
Lemma sendAll_run s txs :
  sendAll keccak256 s txs = run keccak256 s (effective txs).
Proof.
  revert s. induction txs as [|tx txs IH]; intros s; [reflexivity|].
  rewrite sendAll_cons, send_transact, IH. unfold effective.
  cbn [List.filter]. destruct (passes tx); reflexivity.
Qed.

Lemma Forall_effective (P : Msg -> Call -> Prop) txs :
  Forall (fun tx => P (tx_msg tx) (tx_call tx)) txs ->
  Forall (fun mc => P (fst mc) (snd mc)) (effective txs).
Proof.
  induction 1 as [|tx txs Htx _ IH]; [constructor|].
  unfold effective. cbn [List.filter].
  destruct (passes tx); [|exact IH].
  cbn [List.map]. constructor; [exact Htx | exact IH].
Qed.

(** Ether opens no new state. *)
Lemma reachable_sendAll s txs :
  reachable keccak256 s -> Forall (fun tx => wf_msg (tx_msg tx)) txs ->
  reachable keccak256 (sendAll keccak256 s txs).
Proof.
  intros Hr Hwf. rewrite sendAll_run. apply reachable_run; [exact Hr|].
  apply (Forall_effective (fun msg _ => wf_msg msg)). exact Hwf.
Qed.

Lemma sendAll_frame s txs a :
  Forall (fun tx => sender (tx_msg tx) <> a) txs ->
  recordOf (sendAll keccak256 s txs) a = recordOf s a /\
  submitted (sendAll keccak256 s txs) a = submitted s a.
Proof.
  intros H. rewrite sendAll_run. apply run_frame.
  apply (Forall_effective (fun msg _ => sender msg <> a)). exact H.
Qed.

Lemma sendAll_calculated s txs a :
  submitted s a = true -> calculated (recordOf s a) = true ->
  Forall (fun tx =>
            ~ (sender (tx_msg tx) = a /\ tx_call tx = CallClearTaxRecord))
    txs ->
  recordOf (sendAll keccak256 s txs) a = recordOf s a /\
  submitted (sendAll keccak256 s txs) a = true.
Proof.
  intros Hs Hc H. rewrite sendAll_run. apply calculated_run; auto.
  apply (Forall_effective
           (fun msg c => ~ (sender msg = a /\ c = CallClearTaxRecord))).
  exact H.
Qed.

End Facts.

End DispatchFacts.

(* ===================================================================== *)
(** * Further facts about the engine *)
(* ===================================================================== *)

Module EngineFacts.
Import Number TaxEngine Rounding RoundingFacts TaxFacts.

(** The tax on an integer taxable income, as an integer. *)
Lemma calculateProgressiveTax_of_Z t :
  0 <= t <= 3752999689525417 ->
  calculateProgressiveTax (of_Z t) = of_Z ((tenths t + 5) / 10).
Proof.
  intros Ht. rewrite calculateProgressiveTax_unfold, bracketTax_round_exact by lia.
  rewrite progressiveTax_spec_tenths. reflexivity.
Qed.

Lemma getMarginalTaxRate_of_Z t :
  0 <= t < 2 ^ 53 ->
  getMarginalTaxRate (of_Z t) =
    if t <=? 50000 then "10"%string
    else if t <=? 100000 then "20"%string else "30"%string.
Proof.
  intros Ht. unfold getMarginalTaxRate. rewrite !le_of_Z_of_Z by lia.
  reflexivity.
Qed.

Lemma tenths_bounds t : 0 <= t -> t <= tenths t <= 3 * t.
Proof.
  intros Ht. unfold tenths.
  destruct (Z.leb_spec t 50000); [lia|].
  destruct (Z.leb_spec t 100000); lia.
Qed.

Lemma rounded_tenths_bounds t :
  0 <= t -> 0 <= (tenths t + 5) / 10 <= t /\
            10 * ((tenths t + 5) / 10) <= 3 * t + 5.
Proof.
  intros Ht. pose proof (tenths_bounds t Ht) as Hb.
  pose proof (Z.div_mod (tenths t + 5) 10 ltac:(lia)) as D.
  pose proof (Z.mod_pos_bound (tenths t + 5) 10 ltac:(lia)) as B.
  lia.
Qed.

(** ** Negative integers and strict comparison *)

Lemma binary_round_sign m e :
  binary_round prec emax true m e = SFopp (binary_round prec emax false m e).
Proof.
  unfold binary_round. destruct (shl_align m e _) as [mz ez].
  unfold binary_round_aux.
  destruct (shr_fexp prec emax (Zpos mz) ez loc_Exact) as [mrs e'].
  destruct (shr_fexp prec emax _ e' loc_Exact) as [mrs' e''].
  destruct (shr_m mrs') as [|p|p]; try reflexivity.
  destruct (e'' <=? emax - prec); reflexivity.
Qed.

Lemma of_Z_neg p : of_Z (Zneg p) = SFopp (of_Z (Zpos p)).
Proof. apply binary_round_sign. Qed.

(** A positive integer below [2^53] is a positive finite number. *)
Lemma of_Z_positive z :
  0 < z < 2 ^ 53 ->
  exists m e, of_Z z = S754_finite false m e /\
              SpecFloat.bounded prec emax m e = true.
Proof.
  intros Hz. destruct (of_Z_exact z ltac:(lia)) as [Hf Hv].
  apply finite_nonneg_cases in Hf. destruct Hf as [E | Hf]; [|exact Hf].
  rewrite E in Hv. cbn in Hv. assert (0 < IZR z)%R by (apply IZR_lt; lia). lra.
Qed.

Lemma of_Z_negative z :
  - 2 ^ 53 < z < 0 ->
  exists m e, of_Z z = S754_finite true m e /\
              of_Z (- z) = S754_finite false m e.
Proof.
  intros Hz. destruct (of_Z_positive (- z) ltac:(lia)) as (m & e & E & _).
  exists m, e. split; [|exact E].
  destruct z as [|p|p]; try lia. change (- Z.neg p) with (Z.pos p) in E.
  rewrite of_Z_neg, E. reflexivity.
Qed.

Lemma SFcompare_antisym x y :
  SFcompare y x = option_map CompOpp (SFcompare x y).
Proof.
  destruct x as [[|]|[|]| |[|] m1 e1]; destruct y as [[|]|[|]| |[|] m2 e2];
    try reflexivity; cbn [SFcompare option_map];
    rewrite (Z.compare_antisym e2 e1);
    destruct (e2 ?= e1); cbn [CompOpp]; try reflexivity;
    change (Pos.compare_cont Eq m2 m1) with (Pos.compare m2 m1);
    change (Pos.compare_cont Eq m1 m2) with (Pos.compare m1 m2);
    rewrite (Pos.compare_antisym m2 m1);
    destruct (m2 ?= m1)%positive; reflexivity.
Qed.

Lemma SFltb_SFleb x y :
  finite_nonneg x = true -> finite_nonneg y = true ->
  SFltb x y = negb (SFleb y x).
Proof.
  intros Hx Hy. unfold SFltb, SFleb. rewrite (SFcompare_antisym x y).
  apply finite_nonneg_cases in Hx, Hy.
  destruct Hx as [-> | (m1 & e1 & -> & _)];
    destruct Hy as [-> | (m2 & e2 & -> & _)]; cbn [SFcompare option_map];
    try reflexivity.
  destruct (e1 ?= e2); try reflexivity.
  destruct (Pos.compare_cont Eq m1 m2); reflexivity.
Qed.

Lemma lt_of_Z_of_Z a b :
  0 <= a < 2 ^ 53 -> 0 <= b < 2 ^ 53 -> SFltb (of_Z a) (of_Z b) = (a <? b).
Proof.
  intros Ha Hb. rewrite SFltb_SFleb by (apply of_Z_finite_nonneg; assumption).
  change (SFleb (of_Z b) (of_Z a)) with (le (of_Z b) (of_Z a)).
  rewrite le_of_Z_of_Z by assumption.
  destruct (Z.leb_spec b a); destruct (Z.ltb_spec a b); auto; lia.
Qed.

(** The comparisons of two integers a number holds, of either sign. *)
Lemma le_of_Z_signed a b :
  - 2 ^ 53 < a < 2 ^ 53 -> - 2 ^ 53 < b < 2 ^ 53 ->
  le (of_Z a) (of_Z b) = (a <=? b).
Proof.
  intros Ha Hb.
  destruct (Z_lt_le_dec a 0) as [Na | Pa]; destruct (Z_lt_le_dec b 0) as [Nb | Pb].
  - destruct (of_Z_negative a ltac:(lia)) as (m1 & e1 & E1 & E1').
    destruct (of_Z_negative b ltac:(lia)) as (m2 & e2 & E2 & E2').
    pose proof (le_of_Z_of_Z (- b) (- a) ltac:(lia) ltac:(lia)) as H.
    rewrite E1', E2' in H. rewrite E1, E2.
    unfold le, SFleb in *. cbn [SFcompare] in *.
    replace (a <=? b) with (- b <=? - a)
      by (destruct (Z.leb_spec (- b) (- a)); destruct (Z.leb_spec a b); auto; lia).
    rewrite <- H. rewrite (Z.compare_antisym e1 e2).
    destruct (e1 ?= e2); cbn [CompOpp]; try reflexivity.
    change (Pos.compare_cont Eq m2 m1) with (Pos.compare m2 m1).
    change (Pos.compare_cont Eq m1 m2) with (Pos.compare m1 m2).
    rewrite (Pos.compare_antisym m1 m2).
    destruct (m1 ?= m2)%positive; reflexivity.
  - destruct (of_Z_negative a ltac:(lia)) as (m1 & e1 & E1 & _). rewrite E1.
    destruct (Z.leb_spec a b); [|lia].
    destruct (Z.eq_dec b 0) as [-> | Hb0]; [reflexivity|].
    destruct (of_Z_positive b ltac:(lia)) as (m2 & e2 & E2 & _). rewrite E2.
    reflexivity.
  - destruct (of_Z_negative b ltac:(lia)) as (m2 & e2 & E2 & _). rewrite E2.
    destruct (Z.leb_spec a b); [lia|].
    destruct (Z.eq_dec a 0) as [-> | Ha0]; [reflexivity|].
    destruct (of_Z_positive a ltac:(lia)) as (m1 & e1 & E1 & _). rewrite E1.
    reflexivity.
  - apply le_of_Z_of_Z; lia.
Qed.

Lemma lt_of_Z_signed a b :
  - 2 ^ 53 < a < 2 ^ 53 -> - 2 ^ 53 < b < 2 ^ 53 ->
  SFltb (of_Z a) (of_Z b) = (a <? b).
Proof.
  intros Ha Hb.
  assert (H : SFltb (of_Z a) (of_Z b) = negb (le (of_Z b) (of_Z a))).
  { unfold SFltb, le, SFleb. rewrite (SFcompare_antisym (of_Z a) (of_Z b)).
    assert (Hc : forall z, - 2 ^ 53 < z < 2 ^ 53 ->
              of_Z z = S754_zero false \/ exists s m e, of_Z z = S754_finite s m e).
    { intros z Hz. destruct (Z_lt_le_dec z 0).
      - destruct (of_Z_negative z ltac:(lia)) as (m & e & E & _). eauto.
      - destruct (Z.eq_dec z 0) as [-> | ?]; [left; reflexivity|].
        destruct (of_Z_positive z ltac:(lia)) as (m & e & E & _). eauto. }
    destruct (Hc a Ha) as [-> | (s1 & m1 & e1 & ->)];
      destruct (Hc b Hb) as [-> | (s2 & m2 & e2 & ->)];
      cbn [SFcompare option_map]; try reflexivity.
    - destruct s2; reflexivity.
    - destruct s1; reflexivity.
    - destruct s1, s2; try reflexivity.
      + destruct (e1 ?= e2); try reflexivity.
        destruct (Pos.compare_cont Eq m1 m2); reflexivity.
      + destruct (e1 ?= e2); try reflexivity.
        destruct (Pos.compare_cont Eq m1 m2); reflexivity. }
  rewrite H, le_of_Z_signed by assumption.
  destruct (Z.leb_spec b a); destruct (Z.ltb_spec a b); auto; lia.
Qed.

(** The sum of two integers is exact below [2^53]. *)
Lemma add_of_Z a b :
  0 <= a -> 0 <= b -> a + b < 2 ^ 53 -> add (of_Z a) (of_Z b) = of_Z (a + b).
Proof.
  intros Ha Hb Hab.
  destruct (of_Z_exact a ltac:(lia)) as [Hfa Hva].
  destruct (of_Z_exact b ltac:(lia)) as [Hfb Hvb].
  destruct (of_Z_exact (a + b) ltac:(lia)) as [Hfs Hvs].
  pose proof (add_Rnd (of_Z a) (of_Z b) Hfa Hfb) as Hr.
  fold (add (of_Z a) (of_Z b)) in Hr.
  destruct (Rnd_representable _ _ (a + b) 0 Hr) as [Hf Hs]; try lia.
  - rewrite Hva, Hvb, F2R_exp0, plus_IZR. reflexivity.
  - apply finite_nonneg_eq; auto. rewrite Hs, Hva, Hvb, Hvs, plus_IZR. reflexivity.
Qed.

(** Subtracting a negative integer adds its magnitude. *)
(** Subtracting a negative integer adds its magnitude. *)
Lemma sub_of_Z_negative a b :
  0 <= a -> b < 0 -> a - b < 2 ^ 53 -> sub (of_Z a) (of_Z b) = of_Z (a - b).
Proof.
  intros Ha Hb Hab.
  destruct (of_Z_negative b ltac:(lia)) as (m & e & E & E').
  replace (a - b) with (a + - b) by lia.
  rewrite <- add_of_Z by lia. rewrite E, E'.
  destruct (Z.eq_dec a 0) as [-> | Ha0]; [reflexivity|].
  destruct (of_Z_positive a ltac:(lia)) as (ma & ea & Ea & _). rewrite Ea.
  reflexivity.
Qed.

(** ** The amounts of the single brackets *)

(** A fifth of an integer of the middle bracket, rounded. *)
Lemma second_amount_exact x :
  0 <= x <= 50000 ->
  Math_round (mul (of_Z x) lit_0_20) = of_Z ((2 * x + 5) / 10).
Proof.
  intros Hx.
  destruct (of_Z_exact x ltac:(lia)) as [HfX HvX].
  assert (Hx0 : (0 <= IZR x <= 50000)%R) by (split; apply IZR_le; lia).
  destruct (product_small (of_Z x) lit_0_20 HfX rate_0_20) as (_ & Hf & Herr).
  { rewrite HvX, lit_0_20_value. lra. }
  rewrite HvX, lit_0_20_value in Herr.
  apply Math_round_tenths; auto; try lia.
  - lra.
  - rewrite mult_IZR. lra.
  - intros Hm. exfalso. pose proof (Z.div_mod (2 * x) 10 ltac:(lia)). lia.
Qed.

(** Three tenths of an integer of the top bracket, rounded: below
    [18 * 10^14] by the size of the error, above by enclosure. *)
Lemma third_amount_exact_low x :
  0 <= x <= 18 * 10 ^ 14 ->
  Math_round (mul (of_Z x) lit_0_30) = of_Z ((3 * x + 5) / 10).
Proof.
  intros Hx.
  destruct (of_Z_exact x ltac:(lia)) as [HfX HvX].
  assert (Hx0 : (0 <= IZR x <= 1800000000000000)%R) by (split; apply IZR_le; lia).
  destruct (product_small (of_Z x) lit_0_30 HfX rate_0_30) as (Hr & Hf & Herr).
  { rewrite HvX, lit_0_30_value. lra. }
  rewrite HvX, lit_0_30_value in Hr, Herr.
  apply Math_round_tenths; auto; try lia.
  - lra.
  - rewrite mult_IZR. lra.
  - intros Hm.
    destruct (half_tenths (3 * x) ltac:(lia) Hm) as (H & H0 & H5 & HE).
    rewrite mult_IZR in HE.
    destruct (Rnd_snap _ _ H (-1) Hr) as [_ Hs]; try lia.
    + assert (1 <= IZR x)%R by (apply IZR_le; lia). lra.
    + change (53 + -1) with 52. rewrite pow2_52. lra.
    + rewrite <- HE, pow2_m53. lra.
    + rewrite Hs, <- HE, mult_IZR. lra.
Qed.

Lemma third_amount_exact_high x :
  18 * 10 ^ 14 <= x <= 3752999689425411 ->
  Math_round (mul (of_Z x) lit_0_30) = of_Z ((3 * x + 5) / 10).
Proof.
  intros Hx.
  set (n := (3 * x + 5) / 10).
  pose proof (Z.div_mod (3 * x + 5) 10 ltac:(lia)) as Hdm.
  pose proof (Z.mod_pos_bound (3 * x + 5) 10 ltac:(lia)) as Hb.
  fold n in Hdm.
  assert (Hn : 540000000000000 <= n <= 1125899906827623) by lia.
  assert (Hlo : (10 * IZR n <= 3 * IZR x + 5)%R).
  { rewrite <- !mult_IZR, <- plus_IZR. apply IZR_le. lia. }
  assert (Hhi : (3 * IZR x + 5 <= 10 * IZR n + 9)%R).
  { rewrite <- !mult_IZR, <- !plus_IZR. apply IZR_le. lia. }
  assert (Hx0 : (1800000000000000 <= IZR x <= 3752999689425411)%R)
    by (split; apply IZR_le; lia).
  assert (Hn0 : (540000000000000 <= IZR n <= 1125899906827623)%R)
    by (split; apply IZR_le; lia).
  destruct (of_Z_exact x ltac:(lia)) as [HfX HvX].
  destruct (mul_rate (of_Z x) lit_0_30 HfX rate_0_30) as (Hr & Hfp & _).
  rewrite HvX, lit_0_30_value in Hr.
  set (p := mul (of_Z x) lit_0_30) in *.
  assert (Hup : (SF2R p <= IZR n + 3 / 8)%R).
  { destruct (Rnd_below_snap _ _ (256 * n + 103) (-8) (8 * n + 3) (-3) Hr) as [_ H];
      try lia.
    - rewrite F2R_256th, plus_IZR, mult_IZR. lra.
    - rewrite F2R_256th, plus_IZR, mult_IZR.
      change (53 + -3) with 50. rewrite pow2_50. lra.
    - rewrite F2R_256th, F2R_eighth, !plus_IZR, !mult_IZR, pow2_m53. lra.
    - rewrite F2R_eighth, plus_IZR, mult_IZR in H. lra. }
  assert (Hdown : (IZR n - / 2 <= SF2R p)%R).
  { destruct (Z.eq_dec ((3 * x + 5) mod 10) 0) as [E | E].
    - destruct (Rnd_snap _ _ (2 * n - 1) (-1) Hr) as [_ Hs]; try lia.
      + lra.
      + change (53 + -1) with 52. rewrite pow2_52. lra.
      + rewrite F2R_half, minus_IZR, mult_IZR, pow2_m53.
        assert (10 * IZR n = 3 * IZR x + 5)%R.
        { rewrite <- !mult_IZR, <- plus_IZR. f_equal. lia. }
        lra.
      + rewrite Hs, F2R_half, minus_IZR, mult_IZR. lra.
    - assert (H1 : (10 * IZR n + 1 <= 3 * IZR x + 5)%R).
      { rewrite <- !mult_IZR, <- !plus_IZR. apply IZR_le. lia. }
      pose proof (Rnd_above_dyadic _ _ (2 * n - 1) (-1) Hr Hfp) as H.
      rewrite F2R_half, minus_IZR, mult_IZR in H.
      assert (IZR n - / 2 = (2 * IZR n - 1) / 2)%R as -> by lra.
      apply H; try lia. lra. }
  apply Math_round_between; auto; try lia. lra.
Qed.

Lemma third_amount_exact x :
  0 <= x <= 3752999689425417 ->
  Math_round (mul (of_Z x) lit_0_30) = of_Z ((3 * x + 5) / 10).
Proof.
  intros Hx.
  destruct (Z_le_gt_dec x (18 * 10 ^ 14)); [apply third_amount_exact_low; lia|].
  destruct (Z_le_gt_dec x 3752999689425411);
    [apply third_amount_exact_high; lia|].
  assert (H : x = 3752999689425412 \/ x = 3752999689425413 \/
              x = 3752999689425414 \/ x = 3752999689425415 \/
              x = 3752999689425416 \/ x = 3752999689425417) by lia.
  repeat destruct H as [H | H]; subst x; vm_compute; reflexivity.
Qed.

End EngineFacts.

(* ===================================================================== *)
(** * Facts about the client *)
(* ===================================================================== *)

Module ClientFacts.
Import Number TaxEngine Rounding RoundingFacts TaxFacts EngineFacts.
Import Ledger Client.

Lemma truthy_of_Z z : 0 < z < 2 ^ 53 -> truthy (of_Z z) = true.
Proof.
  intros Hz. destruct (of_Z_positive z Hz) as (m & e & -> & _). reflexivity.
Qed.

Lemma or_zero_of_Z z : - 2 ^ 53 < z < 2 ^ 53 -> or_zero (of_Z z) = of_Z z.
Proof.
  intros Hz. unfold or_zero.
  destruct (Z_lt_le_dec z 0).
  - destruct (of_Z_negative z ltac:(lia)) as (m & e & -> & _). reflexivity.
  - destruct (Z.eq_dec z 0) as [-> | ?]; [reflexivity|].
    destruct (of_Z_positive z ltac:(lia)) as (m & e & -> & _). reflexivity.
Qed.

Lemma submitTaxInfo_inputs_custom i d :
  - 2 ^ 53 < i < 2 ^ 53 -> - 2 ^ 53 < d < 2 ^ 53 ->
  submitTaxInfo_inputs true (Some key_custom) (of_Z i) (of_Z d) =
    (if i <=? 0 then Refused "Please enter valid income amount!"
     else if i <? d then Refused "Deductions cannot exceed income!"
     else Accepted (of_Z i) (of_Z d)).
Proof.
  intros Hi Hd. unfold submitTaxInfo_inputs, gt. cbn [negb].
  rewrite !or_zero_of_Z by lia.
  rewrite (le_of_Z_signed i 0) by lia.
  rewrite (lt_of_Z_signed i d) by lia. reflexivity.
Qed.

Lemma submitTaxInfo_inputs_custom_unparsed i :
  - 2 ^ 53 < i < 2 ^ 53 ->
  submitTaxInfo_inputs true (Some key_custom) (of_Z i) S754_nan =
    (if i <=? 0 then Refused "Please enter valid income amount!"
     else Accepted (of_Z i) (of_Z 0)).
Proof.
  intros Hi. unfold submitTaxInfo_inputs, gt. cbn [negb].
  rewrite !or_zero_of_Z by lia.
  change (or_zero S754_nan) with (of_Z 0).
  rewrite (le_of_Z_signed i 0) by lia.
  rewrite (lt_of_Z_signed i 0) by lia.
  destruct (Z.leb_spec i 0); [reflexivity|].
  destruct (Z.ltb_spec i 0); [lia | reflexivity].
Qed.

Lemma succeeds_true_iff (b a : bool) : (a = true <-> b = true) -> b = a.
Proof. destruct a, b; intros [H1 H2]; auto; try (symmetry; auto). Qed.

Section Arguments.
Variable keccak256 : bytes -> bytes32.
Variable toString : number -> string.

Lemma submitTaxInfo_arguments_nonempty income deductions timestamp :
  snd (fst (fst (submitTaxInfo_arguments keccak256 toString income
                   deductions timestamp))) <> [] /\
  snd (submitTaxInfo_arguments keccak256 toString income deductions
         timestamp) <> [].
Proof. split; discriminate. Qed.

Lemma estimateGasForSubmission_arguments_nonempty income deductions :
  snd (fst (fst (estimateGasForSubmission_arguments keccak256 toString
                   income deductions))) <> [] /\
  snd (estimateGasForSubmission_arguments keccak256 toString income
         deductions) <> [].
Proof. split; discriminate. Qed.

End Arguments.

End ClientFacts.

(* ===================================================================== *)
(** * The claims *)
(* ===================================================================== *)

Import Number TaxEngine Rounding RoundingFacts TaxFacts.
Import Ledger Samples LedgerFacts Dispatch DispatchFacts.

(** ** Tax engine *)

(** C1, as amended.  For integers [income] and [deductions] between 0 and
    [Number.MAX_SAFE_INTEGER] whose difference is at most 3752999689525417,
    the engine's taxable income is [max(0, income - deductions)], and
    [calculateProgressiveTax] (as well as [calculateEstimatedTax]) returns
    the three-bracket tax of the specification computed in exact arithmetic
    and rounded to the nearest integer, halves up.  The bound is the best
    one: the next taxable income is the first on which the engine differs. *)
Theorem progressive_tax_exact (income deductions : Z) :
  0 <= income <= MAX_SAFE_INTEGER -> 0 <= deductions <= MAX_SAFE_INTEGER ->
  income - deductions <= 3752999689525417 ->
  taxableIncomeOf (of_Z income) (of_Z deductions) =
    of_Z (taxableIncome_spec income deductions) /\
  calculateProgressiveTax (of_Z (taxableIncome_spec income deductions)) =
    of_Z (taxOwed_spec income deductions) /\
  calculateEstimatedTax (of_Z income) (of_Z deductions) =
    of_Z (taxOwed_spec income deductions).
Proof.
  unfold MAX_SAFE_INTEGER. intros Hi Hd Ht'.
  assert (Ht : taxableIncomeOf (of_Z income) (of_Z deductions) =
               of_Z (taxableIncome_spec income deductions))
    by (apply taxableIncomeOf_exact; lia).
  assert (Hp : calculateProgressiveTax
                 (of_Z (taxableIncome_spec income deductions)) =
               of_Z (taxOwed_spec income deductions)).
  { rewrite calculateProgressiveTax_unfold. apply bracketTax_round_exact.
    unfold taxableIncome_spec. lia. }
  repeat split; auto.
  rewrite calculateEstimatedTax_unfold, Ht, <- calculateProgressiveTax_unfold.
  exact Hp.
Qed.

(** A taxable income of 100005 owes 15001.5, which rounds up. *)
Lemma progressive_tax_exact_witness :
  (0 <= 112345 <= MAX_SAFE_INTEGER /\ 0 <= 12340 <= MAX_SAFE_INTEGER /\
   112345 - 12340 <= 3752999689525417) /\
  calculateEstimatedTax (of_Z 112345) (of_Z 12340) = of_Z 15002.
Proof.
  split; [unfold MAX_SAFE_INTEGER; lia|].
  apply (progressive_tax_exact 112345 12340); unfold MAX_SAFE_INTEGER; lia.
Defined.

(** C1 as stated fails: 3752999689525418 is an integer that a number holds
    exactly, and on it (with no deductions) the engine returns one more
    than the exact tax rounded.  The exact tax is 1125899906842625.4; it
    has passed 2^50, where consecutive doubles are a quarter apart, and the
    sum is stored as 1125899906842625.5. *)
Lemma progressive_tax_inexact_at_large_income :
  of_Z 3752999689525418 = S754_finite false 7505999379050836 (-1) /\
  taxableIncomeOf (of_Z 3752999689525418) (of_Z 0) = of_Z 3752999689525418 /\
  bracketTax (of_Z 3752999689525418) =
    S754_finite false 4503599627370502 (-2) /\
  calculateProgressiveTax (of_Z 3752999689525418) = of_Z 1125899906842626 /\
  calculateEstimatedTax (of_Z 3752999689525418) (of_Z 0) =
    of_Z 1125899906842626 /\
  progressiveTax_spec 3752999689525418 = 1125899906842625 /\
  taxOwed_spec 3752999689525418 0 = 1125899906842625 /\
  calculateProgressiveTax (of_Z 3752999689525418) <>
    of_Z (progressiveTax_spec 3752999689525418).
Proof.
  repeat (split; [vm_compute; reflexivity|]).
  intros H. vm_compute in H. discriminate H.
Qed.

(** C6.  The engine's values at the named points: 5000 at (50000, 0), 15000
    at (100000, 0), 22500 at (150000, 25000); for the medium preset 7600
    with marginal rate 20, for the high preset 22500 with marginal rate
    30.  Both functions are evaluated. *)
Theorem named_points :
  calculateEstimatedTax (of_Z 50000) (of_Z 0) = of_Z 5000 /\
  calculateEstimatedTax (of_Z 100000) (of_Z 0) = of_Z 15000 /\
  calculateEstimatedTax (of_Z 150000) (of_Z 25000) = of_Z 22500 /\
  calculateProgressiveTax (taxableIncomeOf (of_Z 50000) (of_Z 0)) =
    of_Z 5000 /\
  calculateProgressiveTax (taxableIncomeOf (of_Z 100000) (of_Z 0)) =
    of_Z 15000 /\
  calculateProgressiveTax (taxableIncomeOf (of_Z 150000) (of_Z 25000)) =
    of_Z 22500 /\
  calculateEstimatedTax (income medium) (deductions medium) = of_Z 7600 /\
  calculateProgressiveTax
    (taxableIncomeOf (income medium) (deductions medium)) = of_Z 7600 /\
  getMarginalTaxRate (taxableIncomeOf (income medium) (deductions medium)) =
    "20"%string /\
  calculateEstimatedTax (income high) (deductions high) = of_Z 22500 /\
  calculateProgressiveTax (taxableIncomeOf (income high) (deductions high)) =
    of_Z 22500 /\
  getMarginalTaxRate (taxableIncomeOf (income high) (deductions high)) =
    "30"%string.
Proof. repeat split; vm_compute; reflexivity. Qed.

(** C7.  On finite numbers that are not negative, and so on every
    non-negative integer a number holds, the tax is non-decreasing in
    income for fixed deductions and non-increasing in deductions for fixed
    income (whether or not the deductions stay below the income). *)
Theorem tax_monotone (income1 income2 deductions1 deductions2 : number) :
  finite_nonneg income1 = true -> finite_nonneg income2 = true ->
  finite_nonneg deductions1 = true -> finite_nonneg deductions2 = true ->
  le income1 income2 = true -> le deductions1 deductions2 = true ->
  le (calculateEstimatedTax income1 deductions1)
     (calculateEstimatedTax income2 deductions1) = true /\
  le (calculateEstimatedTax income1 deductions2)
     (calculateEstimatedTax income1 deductions1) = true.
Proof.
  intros Hi1 Hi2 Hd1 Hd2 Hi Hd.
  apply SFleb_finite_nonneg in Hi; auto. apply SFleb_finite_nonneg in Hd; auto.
  rewrite !calculateEstimatedTax_unfold.
  pose proof (fun i d Hi Hd => proj1 (taxableIncomeOf_spec i d Hi Hd)) as Hf.
  split; apply Math_round_mono;
    try (apply bracketTax_finite_nonneg; apply Hf; assumption);
    apply bracketTax_mono; try (apply Hf; assumption).
  - apply taxableIncomeOf_mono_income; assumption.
  - apply taxableIncomeOf_mono_deductions; assumption.
Qed.

Lemma tax_monotone_witness :
  (le (of_Z 60000) (of_Z 75000) = true /\
   le (of_Z 12000) (of_Z 20000) = true) /\
  le (calculateEstimatedTax (of_Z 60000) (of_Z 12000))
     (calculateEstimatedTax (of_Z 75000) (of_Z 12000)) = true /\
  le (calculateEstimatedTax (of_Z 60000) (of_Z 20000))
     (calculateEstimatedTax (of_Z 60000) (of_Z 12000)) = true.
Proof.
  split; [split; reflexivity|].
  apply (tax_monotone (of_Z 60000) (of_Z 75000) (of_Z 12000) (of_Z 20000));
    reflexivity.
Defined.

(** C8.  The two implementations agree on every pair of numbers, hence on
    every pair of non-negative integers: [calculateEstimatedTax(income,
    deductions)] is [calculateProgressiveTax(Math.max(0, income -
    deductions))].  The bracket bases the second one computes,
    [50000 * 0.10] and [50000 * 0.10 + 50000 * 0.20], are the numbers 5000
    and 15000 the first one writes. *)
Theorem estimated_equals_progressive (income deductions : number) :
  mul (of_Z 50000) lit_0_10 = of_Z 5000 /\
  add (mul (of_Z 50000) lit_0_10) (mul (of_Z 50000) lit_0_20) = of_Z 15000 /\
  calculateEstimatedTax income deductions =
    calculateProgressiveTax (Math_max (of_Z 0) (sub income deductions)).
Proof.
  split; [vm_compute; reflexivity|].
  split; [vm_compute; reflexivity|].
  rewrite calculateProgressiveTax_unfold. reflexivity.
Qed.

(** ** Ledger *)

(** C2, as amended.  Neither function is [payable].  In every state
    (reachable or not), for every caller and every amount of ether,
    [calculateTax] fails exactly when the call carries ether, or the
    caller has not submitted, or the record is already calculated; and
    [getTaxOwed] fails exactly when the call carries ether, or the caller
    has not submitted, or the record is not calculated; otherwise each
    returns.  A call with ether is turned down whatever the record. *)
Theorem calculateTax_getTaxOwed_failure (keccak256 : bytes -> bytes32)
    (s : Storage) (msg : Msg) (value : uint256) :
  (returned (dispatch keccak256 s msg value CallCalculateTax) = false <->
     value <> 0 \/
     submitted s (sender msg) = false \/
     calculated (recordOf s (sender msg)) = true) /\
  (returned (dispatch_getTaxOwed s msg value) = false <->
     value <> 0 \/
     submitted s (sender msg) = false \/
     calculated (recordOf s (sender msg)) = false) /\
  (value <> 0 ->
     dispatch keccak256 s msg value CallCalculateTax = Rejected /\
     dispatch_getTaxOwed s msg value = Rejected).
Proof.
  unfold dispatch, dispatch_getTaxOwed.
  rewrite !returned_nonpayable_false.
  pose proof (calculateTax_succeeds keccak256 s msg) as Hc.
  pose proof (getTaxOwed_succeeds s msg) as Hg.
  split; [|split].
  - destruct (succeeds (calculateTax keccak256 s msg)),
      (submitted s (sender msg)),
      (calculated (recordOf s (sender msg))); intuition congruence.
  - destruct (succeeds (getTaxOwed s msg)),
      (submitted s (sender msg)),
      (calculated (recordOf s (sender msg))); intuition congruence.
  - intros Hv. split; apply nonpayable_ether; exact Hv.
Qed.

(** C2 as stated fails: alice has submitted and her record is not
    calculated, and yet her [calculateTax] with one wei fails; once it is
    calculated, her [getTaxOwed] with one wei fails. *)
Lemma calculateTax_getTaxOwed_fail_with_ether :
  (reachable sample_keccak filed /\
   submitted filed alice = true /\
   calculated (recordOf filed alice) = false /\
   returned (dispatch sample_keccak filed (aliceMsg 1700000200) 1
               CallCalculateTax) = false) /\
  (reachable sample_keccak assessed /\
   submitted assessed alice = true /\
   calculated (recordOf assessed alice) = true /\
   returned (dispatch_getTaxOwed assessed (aliceMsg 1700000300) 1) = false).
Proof.
  split.
  - split; [apply HistoryFacts.reachable_filed|].
    repeat split; vm_compute; reflexivity.
  - split; [apply HistoryFacts.reachable_assessed|].
    repeat split; vm_compute; reflexivity.
Qed.

(** C3, as amended.  [submitTaxInfo] fails exactly when the caller has a
    record, or a proof is empty, or [totalTaxpayers] has reached
    2^256 - 1, where the checked increment panics; a failed call leaves
    the ledger as it was. *)
Theorem submitTaxInfo_failure (keccak256 : bytes -> bytes32) (s : Storage)
    (msg : Msg) (encryptedIncome : bytes32 * bytes32) (incomeProof : bytes)
    (encryptedDeductions : bytes32 * bytes32) (deductionsProof : bytes) :
  let call := CallSubmitTaxInfo encryptedIncome incomeProof
                encryptedDeductions deductionsProof in
  (succeeds (execute keccak256 s msg call) = false <->
     submitted s (sender msg) = true \/ incomeProof = [] \/
     deductionsProof = [] \/ MAX_UINT256 <= totalTaxpayers s) /\
  (succeeds (execute keccak256 s msg call) = false ->
     transact keccak256 s msg call = s).
Proof.
  intros call. unfold call, transact. cbn [execute].
  pose proof (submitTaxInfo_succeeds keccak256 s msg encryptedIncome
                incomeProof encryptedDeductions deductionsProof) as Hs.
  split.
  - destruct (succeeds _).
    + split; [discriminate|]. destruct Hs as [Hs _].
      destruct (Hs eq_refl) as (H1 & H2 & H3 & H4).
      intros [H | [H | [H | H]]]; try congruence. lia.
    + split; auto. intros _.
      destruct (submitted s (sender msg)); auto. right.
      destruct incomeProof as [|x ip]; auto. right.
      destruct deductionsProof as [|y dp]; auto. right.
      destruct (Z.le_gt_cases MAX_UINT256 (totalTaxpayers s)); auto.
      destruct Hs as [_ Hs]. enough (false = true) by discriminate.
      apply Hs. repeat split; auto; discriminate.
  - destruct (submitTaxInfo _ _ _ _ _ _ _) as [[s' ev]| |]; auto. discriminate.
Qed.

(** A second submission of alice, without a clear in between. *)
Lemma submitTaxInfo_failure_witness :
  succeeds (execute sample_keccak filed (aliceMsg 1700000300) submitCall) =
    false /\
  transact sample_keccak filed (aliceMsg 1700000300) submitCall = filed.
Proof.
  split; [vm_compute; reflexivity|].
  apply (submitTaxInfo_failure sample_keccak filed (aliceMsg 1700000300)
           someIncome someProof someDeductions someProof).
  vm_compute. reflexivity.
Defined.

(** C3 as stated fails: in the reachable state where the counter is full,
    alice has no record and her proofs are not empty, and yet her
    submission panics. *)
Lemma submitTaxInfo_fails_at_full_counter :
  reachable sample_keccak (idleState MAX_UINT256) /\
  submitted (idleState MAX_UINT256) alice = false /\
  someProof <> [] /\
  submitTaxInfo sample_keccak (idleState MAX_UINT256) (aliceMsg 1700000100)
    someIncome someProof someDeductions someProof = Panic 17.
Proof.
  split; [apply reachable_idleState; unfold MAX_UINT256; lia|].
  split; [apply submitted_idleState|].
  split; [discriminate|].
  unfold submitTaxInfo. rewrite submitted_idleState. reflexivity.
Qed.

(** C4, as amended.  Where the caller has submitted, a [clearTaxRecord]
    without ether succeeds, also when the counter is full; afterwards the
    caller has not submitted and the record is gone; and, provided
    [totalTaxpayers] is below 2^256 - 1, a following [submitTaxInfo] of
    the caller with non-empty proofs, with or without ether, succeeds and
    stores a fresh record stamped with the time of that submission.  With
    ether the clear is turned down: [clearTaxRecord] is not [payable]. *)
Theorem clear_then_resubmit (keccak256 : bytes -> bytes32) (s : Storage)
    (msg : Msg) :
  submitted s (sender msg) = true ->
  (forall value, value <> 0 ->
     dispatch keccak256 s msg value CallClearTaxRecord = Rejected) /\
  exists s1 ev1,
    dispatch keccak256 s msg 0 CallClearTaxRecord = Ran (Ok (s1, ev1)) /\
    submitted s1 (sender msg) = false /\
    recordOf s1 (sender msg) = zeroRecord /\
    taxRecords s1 !! sender msg = None /\
    forall (msg' : Msg) (value' : uint256)
           (encryptedIncome : bytes32 * bytes32) (incomeProof : bytes)
           (encryptedDeductions : bytes32 * bytes32)
           (deductionsProof : bytes),
      sender msg' = sender msg ->
      incomeProof <> [] -> deductionsProof <> [] ->
      totalTaxpayers s < MAX_UINT256 ->
      exists s2 ev2,
        dispatch keccak256 s1 msg' value'
          (CallSubmitTaxInfo encryptedIncome incomeProof
             encryptedDeductions deductionsProof) = Ran (Ok (s2, ev2)) /\
        submitted s2 (sender msg) = true /\
        recordOf s2 (sender msg) =
          {| incomeHash := fst encryptedIncome;
             deductionsHash := fst encryptedDeductions;
             taxOwedHash := 0; calculated := false;
             submissionTime := timestamp msg'; calculationTime := 0;
             lastAccessTime := timestamp msg' |}.
Proof.
  intros Hsub. split.
  { intros value Hv. apply nonpayable_ether. exact Hv. }
  cbn [dispatch]. rewrite nonpayable_zero.
  destruct (clearTaxRecord s msg) as [[s1 ev1]| |] eqn:Hclear.
  2,3: (assert (Hf : succeeds (clearTaxRecord s msg) = true)
          by (apply clearTaxRecord_succeeds; exact Hsub);
        rewrite Hclear in Hf; discriminate).
  pose proof (clearTaxRecord_Ok _ _ _ _ Hclear) as (_ & Hs1).
  pose proof (clearTaxRecord_reads _ _ _ _ Hclear) as (Hr1 & Hsub1 & Htot1).
  assert (Hsub1' : submitted s1 (sender msg) = false)
    by (rewrite Hsub1, Z.eqb_refl; reflexivity).
  assert (Hrec1 : recordOf s1 (sender msg) = zeroRecord)
    by (rewrite Hr1, Z.eqb_refl; reflexivity).
  exists s1, ev1.
  split; [reflexivity|]. split; [exact Hsub1'|]. split; [exact Hrec1|].
  split; [rewrite Hs1; cbn [taxRecords]; apply lookup_delete_eq|].
  intros msg' value' encryptedIncome incomeProof encryptedDeductions
    deductionsProof Hsender Hip Hdp Hmax.
  unfold payable.
  destruct (submitTaxInfo keccak256 s1 msg' encryptedIncome incomeProof
              encryptedDeductions deductionsProof) as [[s2 ev2]| |] eqn:Hsubmit.
  2,3: (assert (Hf : succeeds (submitTaxInfo keccak256 s1 msg' encryptedIncome
                                  incomeProof encryptedDeductions
                                  deductionsProof) = true)
          by (apply submitTaxInfo_succeeds; rewrite Hsender, Htot1; auto);
        rewrite Hsubmit in Hf; discriminate).
  pose proof (submitTaxInfo_reads _ _ _ _ _ _ _ _ _ Hsubmit) as (Hr2 & Hsub2 & _).
  exists s2, ev2. split; [reflexivity|]. split.
  - rewrite Hsub2, Hsender, Z.eqb_refl. reflexivity.
  - rewrite Hr2, Hsender, Z.eqb_refl. reflexivity.
Qed.

(** Alice clears her assessed record and files again, with three wei. *)
Lemma clear_then_resubmit_witness :
  submitted assessed alice = true /\
  exists s1 ev1,
    dispatch sample_keccak assessed (aliceMsg 1700000300) 0
      CallClearTaxRecord = Ran (Ok (s1, ev1)) /\
    submitted s1 alice = false /\
    recordOf s1 alice = zeroRecord /\
    taxRecords s1 !! alice = None /\
    exists s2 ev2,
      dispatch sample_keccak s1 (aliceMsg 1700000400) 3
        (CallSubmitTaxInfo someDeductions otherProof someIncome someProof)
        = Ran (Ok (s2, ev2)) /\
      submitted s2 alice = true /\
      recordOf s2 alice =
        {| incomeHash := 9; deductionsHash := 7;
           taxOwedHash := 0; calculated := false;
           submissionTime := 1700000400; calculationTime := 0;
           lastAccessTime := 1700000400 |}.
Proof.
  assert (Hsub : submitted assessed (sender (aliceMsg 1700000300)) = true)
    by (vm_compute; reflexivity).
  split; [exact Hsub|].
  destruct (clear_then_resubmit sample_keccak assessed (aliceMsg 1700000300)
              Hsub) as (_ & s1 & ev1 & H1 & H2 & H3 & H4 & H5).
  exists s1, ev1.
  split; [exact H1|]. split; [exact H2|]. split; [exact H3|].
  split; [exact H4|].
  apply (H5 (aliceMsg 1700000400) 3 someDeductions otherProof someIncome
            someProof).
  - reflexivity.
  - discriminate.
  - discriminate.
  - vm_compute. reflexivity.
Defined.

(** C4 as stated fails, in the reachable state with a full counter in
    which alice has a record: her clear with one wei is turned down; her
    clear without ether succeeds, and her next submission, with non-empty
    proofs, panics. *)
Lemma clear_then_resubmit_fails :
  reachable sample_keccak (filedState MAX_UINT256) /\
  submitted (filedState MAX_UINT256) alice = true /\
  dispatch sample_keccak (filedState MAX_UINT256) (aliceMsg 1700000100) 1
    CallClearTaxRecord = Rejected /\
  exists s' ev,
    dispatch sample_keccak (filedState MAX_UINT256) (aliceMsg 1700000100) 0
      CallClearTaxRecord = Ran (Ok (s', ev)) /\
    someProof <> [] /\
    dispatch sample_keccak s' (aliceMsg 1700000100) 0 submitCall =
      Ran (Panic 17).
Proof.
  split; [apply reachable_filedState; unfold MAX_UINT256; lia|].
  split; [reflexivity|]. split; [reflexivity|].
  eexists _, _. split; [reflexivity|]. split; [discriminate|]. reflexivity.
Qed.




(** C9.  In every reachable state, an account whose record is calculated
    has submitted; so [isCalculated] is false for an account that has not
    submitted, and in particular right after a clear. *)
Theorem calculated_implies_submitted (keccak256 : bytes -> bytes32)
    (s : Storage) (a : address) :
  reachable keccak256 s ->
  (calculated (recordOf s a) = true -> submitted s a = true) /\
  (submitted s a = false -> isCalculated s a = false) /\
  (forall msg s' ev, clearTaxRecord s msg = Ok (s', ev) ->
     submitted s' (sender msg) = false /\
     isCalculated s' (sender msg) = false).
Proof.
  intros Hr.
  pose proof (calculated_submitted_inv keccak256 s Hr a) as H.
  split; auto. split.
  - unfold isCalculated. destruct (calculated (recordOf s a)); auto.
    intros Hs. rewrite H in Hs; auto.
  - intros msg s' ev Hc. apply clearTaxRecord_reads in Hc.
    destruct Hc as (Hr' & Hs' & _). unfold isCalculated.
    rewrite Hr', Hs', Z.eqb_refl. auto.
Qed.

Lemma calculated_implies_submitted_witness :
  calculated (recordOf assessed alice) = true /\ submitted assessed alice = true.
Proof.
  split; [vm_compute; reflexivity|].
  apply (calculated_implies_submitted sample_keccak assessed alice).
  - apply reachable_call; [|apply wf_aliceMsg; unfold MAX_UINT256; lia].
    apply reachable_call; [|apply wf_aliceMsg; unfold MAX_UINT256; lia].
    apply reachable_deploy. apply wf_deployMsg.
  - vm_compute. reflexivity.
Defined.

(** C10.  The counter [getContractStats] reports never decreases: a
    transaction adds one to it if it is a successful [submitTaxInfo] and
    leaves it alone otherwise, a clear included.  So it counts successful
    submissions, and an account that submits, clears and submits again has
    added two. *)
Theorem totalTaxpayers_counts_submissions (keccak256 : bytes -> bytes32)
    (s : Storage) (msg msg1 msg2 msg3 : Msg) (c : Call)
    (income1 deductions1 income3 deductions3 : bytes32 * bytes32)
    (incomeProof1 deductionsProof1 incomeProof3 deductionsProof3 : bytes) :
  let total (s : Storage) := fst (fst (fst (getContractStats s))) in
  let submit1 :=
    CallSubmitTaxInfo income1 incomeProof1 deductions1 deductionsProof1 in
  let submit3 :=
    CallSubmitTaxInfo income3 incomeProof3 deductions3 deductionsProof3 in
  let s1 := transact keccak256 s msg1 submit1 in
  let s2 := transact keccak256 s1 msg2 CallClearTaxRecord in
  let s3 := transact keccak256 s2 msg3 submit3 in
  total s <= total (transact keccak256 s msg c) /\
  total (transact keccak256 s msg c) =
    total s +
    match c with
    | CallSubmitTaxInfo _ _ _ _ =>
        if succeeds (execute keccak256 s msg c) then 1 else 0
    | _ => 0
    end /\
  total s2 = total s1 /\
  (succeeds (execute keccak256 s msg1 submit1) = true ->
   succeeds (execute keccak256 s2 msg3 submit3) = true ->
   total s3 = total s + 2).
Proof.
  intros total submit1 submit3 s1 s2 s3.
  unfold total, s3, s2, s1, submit1, submit3, getContractStats.
  cbn [fst]. rewrite !totalTaxpayers_transact.
  split; [destruct c; try lia; destruct (succeeds _); lia|].
  split; [reflexivity|]. split; [lia|].
  intros H1 H3. rewrite H1, H3. lia.
Qed.

(** Alice files, clears and files again on a fresh ledger: two taxpayers. *)
Lemma totalTaxpayers_counts_submissions_witness :
  fst (fst (fst (getContractStats
    (transact sample_keccak
       (transact sample_keccak
          (transact sample_keccak deployed (aliceMsg 1700000100) submitCall)
          (aliceMsg 1700000200) CallClearTaxRecord)
       (aliceMsg 1700000300) submitCall)))) = 0 + 2.
Proof.
  apply (totalTaxpayers_counts_submissions sample_keccak deployed
           (aliceMsg 1700000100) (aliceMsg 1700000100) (aliceMsg 1700000200)
           (aliceMsg 1700000300) CallCalculateTax
           someIncome someDeductions someIncome someDeductions
           someProof someProof someProof someProof).
  - vm_compute. reflexivity.
  - vm_compute. reflexivity.
Defined.

(* ===================================================================== *)
(** * Further properties of the code *)
(* ===================================================================== *)

Import History HistoryFacts EngineFacts Client ClientFacts.

(** ** The ledger *)

(** X1.  Whatever is called after deployment, by whomever, the owner
    and the deployment time are those the constructor stored, and
    [getContractStats] reports them with version 1: ownership cannot be
    transferred. *)
Theorem owner_and_deploymentTime_never_change
    (keccak256 : bytes -> bytes32) (deploy : Msg) (txs : list (Msg * Call)) :
  let s := run keccak256 (fst (constructor deploy)) txs in
  owner s = sender deploy /\
  deploymentTime s = timestamp deploy /\
  getContractStats s =
    (totalTaxpayers s, timestamp deploy, sender deploy, 1).
Proof.
  intros s.
  destruct (owner_run keccak256 (fst (constructor deploy)) txs) as [Ho Hd].
  fold s in Ho, Hd. unfold getContractStats. rewrite Ho, Hd. auto.
Qed.

(** X2.  [emergencyPause] returns exactly for the owner calling without
    ether: with ether the call is turned down, the function not being
    [payable], and without it any other caller is refused by [onlyOwner].
    When it returns it has emitted nothing and left storage as it was, so
    a sequence of transactions with such a call in it, by whomever and
    with whatever ether, ends in the state it ends in without the call:
    nothing is paused. *)
Theorem emergencyPause_pauses_nothing
    (keccak256 : bytes -> bytes32) (s : Storage) (msg : Msg)
    (value : uint256) (before after : list Transaction) :
  let pause := dispatch keccak256 s msg value CallEmergencyPause in
  (returned pause = true <-> sender msg = owner s /\ value = 0) /\
  (value <> 0 -> pause = Rejected) /\
  (value = 0 -> sender msg = owner s -> pause = Ran (Ok (s, []))) /\
  (value = 0 -> sender msg <> owner s ->
     pause = Ran (Revert "Only owner can perform this action")) /\
  sendAll keccak256 s
    (before
     ++ {| tx_msg := msg; tx_value := value; tx_call := CallEmergencyPause |}
     :: after) =
  sendAll keccak256 s (before ++ after).
Proof.
  cbv zeta. cbn [dispatch].
  split; [|split; [|split; [|split]]].
  - rewrite returned_nonpayable. unfold emergencyPause, require.
    destruct (Z.eqb_spec value 0) as [Hv | Hv]; cbn [andb].
    + destruct (Z.eqb_spec (sender msg) (owner s)) as [Ho | Ho]; cbn.
      * split; auto.
      * split; [discriminate | intros [? _]; contradiction].
    + split; [discriminate | intros [_ ?]; contradiction].
  - apply nonpayable_ether.
  - intros -> Ho. rewrite nonpayable_zero. unfold emergencyPause, require.
    rewrite Ho, Z.eqb_refl. reflexivity.
  - intros -> Ho. rewrite nonpayable_zero. unfold emergencyPause, require.
    apply Z.eqb_neq in Ho. rewrite Ho. reflexivity.
  - rewrite !sendAll_app, sendAll_cons. f_equal.
    rewrite send_transact. cbn [tx_msg tx_call].
    destruct (passes _); [|reflexivity].
    unfold transact, execute.
    destruct (emergencyPause _ msg) as [[s' ev]| |] eqn:E; auto.
    apply emergencyPause_Ok in E. exact E.
Qed.

Lemma emergencyPause_pauses_nothing_witness :
  dispatch sample_keccak deployed deployMsg 0 CallEmergencyPause =
    Ran (Ok (deployed, [])) /\
  dispatch sample_keccak deployed deployMsg 1 CallEmergencyPause = Rejected.
Proof.
  destruct (emergencyPause_pauses_nothing sample_keccak deployed deployMsg 0
              [] []) as (_ & _ & H & _).
  destruct (emergencyPause_pauses_nothing sample_keccak deployed deployMsg 1
              [] []) as (_ & H' & _).
  split; [apply H; reflexivity | apply H'; discriminate].
Defined.

(** X3.  In every reachable state [hasValidTaxRecord] is [hasSubmitted]:
    a submitted record always carries a positive submission time, so the
    second test of the function never decides. *)
Theorem hasValidTaxRecord_is_hasSubmitted
    (keccak256 : bytes -> bytes32) (s : Storage) (a : address) :
  reachable keccak256 s ->
  hasValidTaxRecord s a = submitted s a /\
  (submitted s a = true -> 0 < getSubmissionTime s a).
Proof.
  intros Hr. destruct (record_shape_inv keccak256 s Hr a) as [_ H].
  unfold hasValidTaxRecord, getSubmissionTime.
  destruct (submitted s a); [|split; [reflexivity | discriminate]].
  destruct (H eq_refl) as [Hpos _]. split; [|auto].
  apply Z.ltb_lt in Hpos. rewrite Hpos. reflexivity.
Qed.

Lemma hasValidTaxRecord_is_hasSubmitted_witness :
  hasValidTaxRecord filed alice = submitted filed alice /\
  (submitted filed alice = true -> 0 < getSubmissionTime filed alice).
Proof.
  apply (hasValidTaxRecord_is_hasSubmitted sample_keccak filed alice).
  apply reachable_filed.
Defined.

(** X4.  In every reachable state an account without a submission (one
    that never submitted, or cleared its record) has the all-zero record:
    it is not calculated, both of its times read 0, it has no valid
    record, and [getLastAccessTime] reverts. *)
Theorem unsubmitted_account_reads_zero
    (keccak256 : bytes -> bytes32) (s : Storage) (a : address) :
  reachable keccak256 s -> submitted s a = false ->
  recordOf s a = zeroRecord /\
  isCalculated s a = false /\
  getSubmissionTime s a = 0 /\
  getCalculationTime s a = 0 /\
  hasValidTaxRecord s a = false /\
  getLastAccessTime s a = Revert "No tax record found".
Proof.
  intros Hr Hs. destruct (record_shape_inv keccak256 s Hr a) as [H _].
  specialize (H Hs).
  unfold isCalculated, getSubmissionTime, getCalculationTime,
    hasValidTaxRecord, getLastAccessTime.
  rewrite H, Hs. repeat split; reflexivity.
Qed.

Lemma unsubmitted_account_reads_zero_witness :
  submitted filed deployer = false /\ getSubmissionTime filed deployer = 0.
Proof.
  split; [vm_compute; reflexivity|].
  apply (unsubmitted_account_reads_zero sample_keccak filed deployer).
  - apply reachable_filed.
  - vm_compute. reflexivity.
Defined.

(** X5.  In every reachable state [getLastAccessTime] of a submitted
    account is the time of the last call that wrote its record: the
    calculation time once calculated, the submission time before.  No
    read updates it.  For an account without a submission it reverts. *)
Theorem getLastAccessTime_is_last_write
    (keccak256 : bytes -> bytes32) (s : Storage) (a : address) :
  reachable keccak256 s ->
  getLastAccessTime s a =
    if submitted s a then
      Ok (if isCalculated s a then getCalculationTime s a
          else getSubmissionTime s a)
    else Revert "No tax record found".
Proof.
  intros Hr. destruct (record_shape_inv keccak256 s Hr a) as [_ H].
  unfold getLastAccessTime, isCalculated, getCalculationTime,
    getSubmissionTime.
  destruct (submitted s a); [|reflexivity].
  destruct (H eq_refl) as (_ & Hn & Hc). cbn.
  destruct (calculated (recordOf s a)).
  - rewrite Hc; reflexivity.
  - destruct (Hn eq_refl) as (_ & _ & ->). reflexivity.
Qed.

Lemma getLastAccessTime_is_last_write_witness :
  getLastAccessTime assessed alice = Ok 1700000200.
Proof.
  rewrite (getLastAccessTime_is_last_write sample_keccak assessed alice).
  - vm_compute. reflexivity.
  - apply reachable_assessed.
Defined.

(** X6.  The times of a record follow the clock.  Along a history from
    deployment whose blocks follow one another in time, every account
    with a submission has a submission time not before the deployment
    time, and every calculated record has a calculation time not before
    its submission time. *)
Theorem record_times_follow_the_clock
    (keccak256 : bytes -> bytes32) (deploy : Msg) (txs : list (Msg * Call))
    (a : address) :
  chronological (timestamp deploy) txs ->
  let s := run keccak256 (fst (constructor deploy)) txs in
  (submitted s a = true -> deploymentTime s <= getSubmissionTime s a) /\
  (isCalculated s a = true ->
     deploymentTime s <= getSubmissionTime s a /\
     getSubmissionTime s a <= getCalculationTime s a).
Proof.
  intros Hc. cbv zeta.
  destruct (timed_run keccak256 _ _ txs (timed_constructor deploy) Hc)
    as (last & _ & _ & H).
  destruct (H a) as (Hcs & Hs).
  unfold getSubmissionTime, getCalculationTime, isCalculated. split.
  - intros Hsub. destruct (Hs Hsub) as [H1 _]. lia.
  - intros Hcal. destruct (Hs (Hcs Hcal)) as [H1 H2].
    specialize (H2 Hcal). lia.
Qed.

Lemma record_times_follow_the_clock_witness :
  chronological (timestamp deployMsg)
    [(aliceMsg 1700000100, submitCall);
     (aliceMsg 1700000200, CallCalculateTax)] /\
  (isCalculated assessed alice = true ->
     deploymentTime assessed <= getSubmissionTime assessed alice /\
     getSubmissionTime assessed alice <= getCalculationTime assessed alice).
Proof.
  assert (Hc : chronological (timestamp deployMsg)
                 [(aliceMsg 1700000100, submitCall);
                  (aliceMsg 1700000200, CallCalculateTax)])
    by (cbn; lia).
  split; [exact Hc|].
  apply (record_times_follow_the_clock sample_keccak deployMsg
           [(aliceMsg 1700000100, submitCall);
            (aliceMsg 1700000200, CallCalculateTax)] alice Hc).
Defined.

(** X7.  The round trip of a filing.  After a [submitTaxInfo] that
    returned, with or without ether, and whatever other accounts send in
    between, a [calculateTax] of the same account without ether returns,
    and its [getTaxOwed] without ether then returns the digest of the two
    first words submitted, the time of the calculation and the tag
    "tax_calculation", with a zero second word; the two times read back
    are those of the two calls. *)
Theorem getTaxOwed_after_submit_and_calculate
    (keccak256 : bytes -> bytes32) (s s1 : Storage) (ev1 : list Event)
    (msg1 msg2 msg3 : Msg) (value1 : uint256)
    (encryptedIncome : bytes32 * bytes32) (incomeProof : bytes)
    (encryptedDeductions : bytes32 * bytes32) (deductionsProof : bytes)
    (others : list Transaction) :
  dispatch keccak256 s msg1 value1
    (CallSubmitTaxInfo encryptedIncome incomeProof encryptedDeductions
       deductionsProof) = Ran (Ok (s1, ev1)) ->
  Forall (fun tx => sender (tx_msg tx) <> sender msg1) others ->
  sender msg2 = sender msg1 -> sender msg3 = sender msg1 ->
  exists s2 ev2,
    dispatch keccak256 (sendAll keccak256 s1 others) msg2 0 CallCalculateTax
      = Ran (Ok (s2, ev2)) /\
    dispatch_getTaxOwed s2 msg3 0 =
      Ran (Ok (keccak256 (pack_word (fst encryptedIncome)
                          ++ pack_word (fst encryptedDeductions)
                          ++ pack_word (timestamp msg2)
                          ++ pack_string "tax_calculation"), 0)) /\
    getSubmissionTime s2 (sender msg1) = timestamp msg1 /\
    getCalculationTime s2 (sender msg1) = timestamp msg2.
Proof.
  intros Hsub Hothers H2 H3.
  cbn [dispatch] in Hsub. unfold payable in Hsub.
  assert (Hsub' : submitTaxInfo keccak256 s msg1 encryptedIncome incomeProof
                    encryptedDeductions deductionsProof = Ok (s1, ev1))
    by congruence.
  apply submitTaxInfo_reads in Hsub'. destruct Hsub' as (Hr1 & Hs1 & _).
  destruct (sendAll_frame keccak256 s1 others (sender msg1) Hothers)
    as [Hr Hs].
  rewrite Hr1, Z.eqb_refl in Hr. rewrite Hs1, Z.eqb_refl in Hs.
  set (s1' := sendAll keccak256 s1 others) in *.
  cbn [dispatch]. unfold dispatch_getTaxOwed. rewrite nonpayable_zero.
  destruct (calculateTax keccak256 s1' msg2) as [[s2 ev2]| |] eqn:E.
  2,3: assert (Hc : succeeds (calculateTax keccak256 s1' msg2) = true)
      by (apply calculateTax_succeeds; rewrite H2, Hr, Hs; auto);
    rewrite E in Hc; discriminate.
  exists s2, ev2. split; [reflexivity|].
  apply calculateTax_reads in E. destruct E as (Hr2 & Hs2 & _).
  rewrite nonpayable_zero.
  unfold getTaxOwed, onlyTaxpayer, getSubmissionTime, getCalculationTime.
  rewrite H3, Hs2, Hs, Hr2, H2, Z.eqb_refl, Hr. auto.
Qed.

(** Alice files with four wei; bob and the deployer send what is in
    [meanwhile]; alice calculates and reads. *)
Lemma getTaxOwed_after_submit_and_calculate_witness :
  exists s2 ev2,
    dispatch sample_keccak (sendAll sample_keccak filed meanwhile)
      (aliceMsg 1700000200) 0 CallCalculateTax = Ran (Ok (s2, ev2)) /\
    dispatch_getTaxOwed s2 (aliceMsg 1700000300) 0 = Ran (Ok (112, 0)) /\
    getSubmissionTime s2 alice = 1700000100 /\
    getCalculationTime s2 alice = 1700000200.
Proof.
  apply (getTaxOwed_after_submit_and_calculate sample_keccak deployed filed
           [TaxSubmitted alice 1700000100 53]
           (aliceMsg 1700000100) (aliceMsg 1700000200) (aliceMsg 1700000300)
           4 someIncome someProof someDeductions someProof meanwhile).
  - vm_compute. reflexivity.
  - repeat constructor; discriminate.
  - reflexivity.
  - reflexivity.
Defined.

(** X8.  A history in which an account sends nothing leaves everything
    that can be read of that account as it was: its record, its flag, and
    what [getTaxOwed] and [getLastAccessTime] answer it. *)
Theorem other_accounts_untouched
    (keccak256 : bytes -> bytes32) (s : Storage) (txs : list (Msg * Call))
    (a : address) :
  Forall (fun tx => sender (fst tx) <> a) txs ->
  let s' := run keccak256 s txs in
  recordOf s' a = recordOf s a /\
  submitted s' a = submitted s a /\
  hasValidTaxRecord s' a = hasValidTaxRecord s a /\
  getLastAccessTime s' a = getLastAccessTime s a /\
  (forall msg, sender msg = a -> getTaxOwed s' msg = getTaxOwed s msg).
Proof.
  intros H s'. destruct (run_frame keccak256 s txs a H) as [Hr Hs].
  fold s' in Hr, Hs.
  unfold hasValidTaxRecord, getLastAccessTime, getTaxOwed, onlyTaxpayer.
  rewrite Hr, Hs. repeat split; auto.
  intros msg ->. rewrite Hr, Hs. reflexivity.
Qed.

Lemma other_accounts_untouched_witness :
  recordOf (run sample_keccak deployed
              [(aliceMsg 1700000100, submitCall);
               (aliceMsg 1700000200, CallCalculateTax)]) deployer =
  recordOf deployed deployer.
Proof.
  apply (other_accounts_untouched sample_keccak deployed
           [(aliceMsg 1700000100, submitCall);
            (aliceMsg 1700000200, CallCalculateTax)] deployer).
  repeat constructor; discriminate.
Defined.

(** X9.  Once an account's tax is calculated, nothing but that account's
    own [clearTaxRecord] changes its record: a further submission or
    calculation of the account reverts, the owner's [emergencyPause] does
    nothing, and other accounts cannot reach it.  So [getTaxOwed] keeps
    returning the same digest. *)
Theorem calculated_record_is_frozen
    (keccak256 : bytes -> bytes32) (s : Storage) (a : address)
    (txs : list (Msg * Call)) :
  submitted s a = true -> calculated (recordOf s a) = true ->
  Forall (fun tx => ~ (sender (fst tx) = a /\ snd tx = CallClearTaxRecord))
    txs ->
  let s' := run keccak256 s txs in
  recordOf s' a = recordOf s a /\
  submitted s' a = true /\
  (forall msg, sender msg = a ->
     getTaxOwed s' msg = Ok (taxOwedHash (recordOf s a), 0)).
Proof.
  intros Hs Hc H. cbv zeta.
  assert (Hrun : recordOf (run keccak256 s txs) a = recordOf s a /\
                 submitted (run keccak256 s txs) a = true).
  { revert s Hs Hc. induction H as [|tx txs Htx _ IH]; intros s Hs Hc; [auto|].
    rewrite run_cons.
    destruct (calculated_transact keccak256 s (fst tx) (snd tx) a Hs Hc Htx)
      as [Hr' Hs'].
    rewrite <- Hr'. apply IH; [exact Hs' | rewrite Hr'; exact Hc]. }
  destruct Hrun as [Hr' Hs']. repeat split; auto.
  intros msg Hm. unfold getTaxOwed, onlyTaxpayer. rewrite Hm, Hs', Hr', Hc.
  reflexivity.
Qed.

Lemma calculated_record_is_frozen_witness :
  getTaxOwed
    (run sample_keccak assessed
       [(aliceMsg 1700000300, submitCall);
        (aliceMsg 1700000400, CallCalculateTax);
        (deployMsg, CallEmergencyPause);
        (deployMsg, CallClearTaxRecord)])
    (aliceMsg 1700000500) = Ok (112, 0).
Proof.
  apply (calculated_record_is_frozen sample_keccak assessed alice
           [(aliceMsg 1700000300, submitCall);
            (aliceMsg 1700000400, CallCalculateTax);
            (deployMsg, CallEmergencyPause);
            (deployMsg, CallClearTaxRecord)]).
  - vm_compute. reflexivity.
  - vm_compute. reflexivity.
  - repeat constructor; intros [H1 H2]; discriminate.
  - reflexivity.
Defined.

(** X10.  [submitTaxInfo] looks at nothing of the proofs but whether they
    are empty, and at nothing of the two encrypted values but their first
    words: two submissions that agree on those have the same outcome,
    state and event alike.  No proof is verified. *)
Theorem submitTaxInfo_ignores_proof_contents
    (keccak256 : bytes -> bytes32) (s : Storage) (msg : Msg)
    (encryptedIncome encryptedIncome' : bytes32 * bytes32)
    (incomeProof incomeProof' : bytes)
    (encryptedDeductions encryptedDeductions' : bytes32 * bytes32)
    (deductionsProof deductionsProof' : bytes) :
  fst encryptedIncome = fst encryptedIncome' ->
  fst encryptedDeductions = fst encryptedDeductions' ->
  incomeProof <> [] -> incomeProof' <> [] ->
  deductionsProof <> [] -> deductionsProof' <> [] ->
  submitTaxInfo keccak256 s msg encryptedIncome incomeProof
    encryptedDeductions deductionsProof =
  submitTaxInfo keccak256 s msg encryptedIncome' incomeProof'
    encryptedDeductions' deductionsProof'.
Proof.
  intros Hi Hd H1 H1' H2 H2'. unfold submitTaxInfo.
  apply length_pos_iff in H1, H1', H2, H2'.
  rewrite H1, H1', H2, H2', Hi, Hd. reflexivity.
Qed.

Lemma submitTaxInfo_ignores_proof_contents_witness :
  submitTaxInfo sample_keccak deployed (aliceMsg 1700000100)
    (7, 0) someProof (9, 0) someProof =
  submitTaxInfo sample_keccak deployed (aliceMsg 1700000100)
    (7, 5) otherProof (9, 6) otherProof.
Proof.
  apply (submitTaxInfo_ignores_proof_contents sample_keccak deployed
           (aliceMsg 1700000100) (7, 0) (7, 5) someProof otherProof
           (9, 0) (9, 6) someProof otherProof);
    try reflexivity; discriminate.
Defined.

(** X11.  In every reachable state the number of accounts that currently
    have a submission is at most [totalTaxpayers]: the counter never
    under-reports the records in the ledger. *)
Theorem active_records_at_most_totalTaxpayers
    (keccak256 : bytes -> bytes32) (s : Storage) :
  reachable keccak256 s ->
  0 <= activeRecords s <= totalTaxpayers s /\
  totalTaxpayers s <= MAX_UINT256.
Proof.
  intros Hr. split; [apply (activeRecords_inv keccak256); exact Hr|].
  induction Hr as [msg Hwf | s msg c Hr IH Hwf].
  - unfold MAX_UINT256. cbn. lia.
  - destruct (transact_cases keccak256 s msg c) as [-> | (s' & ev & -> & Hc)]; auto.
    destruct Hc as [(ei & ip & ed & dp & Hc) | [Hc | Hc]].
    + apply submitTaxInfo_Ok in Hc. destruct Hc as (_ & _ & _ & Hlt & ->).
      cbn [totalTaxpayers]. lia.
    + apply calculateTax_Ok in Hc. destruct Hc as (_ & _ & ->). exact IH.
    + apply clearTaxRecord_Ok in Hc. destruct Hc as (_ & ->). exact IH.
Qed.

Lemma active_records_at_most_totalTaxpayers_witness :
  0 <= activeRecords assessed <= totalTaxpayers assessed /\
  totalTaxpayers assessed <= MAX_UINT256.
Proof.
  apply (active_records_at_most_totalTaxpayers sample_keccak assessed).
  apply reachable_call; [|apply wf_aliceMsg; unfold MAX_UINT256; lia].
  apply reachable_call; [|apply wf_aliceMsg; unfold MAX_UINT256; lia].
  apply reachable_deploy. apply wf_deployMsg.
Defined.

(** X12.  The events account for the counter.  Along every history from
    deployment, [totalTaxpayers] is the number of [TaxSubmitted] events
    in the log, and the number of accounts with a submission is that
    number less the number of [TaxRecordCleared] events. *)
Theorem events_account_for_the_counter
    (keccak256 : bytes -> bytes32) (deploy : Msg) (txs : list (Msg * Call)) :
  let s := run keccak256 (fst (constructor deploy)) txs in
  let events := log keccak256 (fst (constructor deploy)) txs in
  totalTaxpayers s = count isTaxSubmitted events /\
  activeRecords s =
    count isTaxSubmitted events - count isTaxRecordCleared events.
Proof.
  cbv zeta.
  destruct (run_accounting keccak256 (fst (constructor deploy)) txs) as [-> ->].
  unfold activeRecords at 1. cbn [constructor fst totalTaxpayers hasSubmitted].
  rewrite map_filter_empty, map_size_empty. lia.
Qed.

(** X13.  What each failing call answers, in the order the checks are
    made.  A call with ether to [calculateTax], [getTaxOwed],
    [clearTaxRecord], [emergencyPause] or [getLastAccessTime] is turned
    down by the dispatcher before any check of the function, and gets no
    reason at all.  [submitTaxInfo] takes ether; over an existing record
    it is refused for the record whatever the proofs are; an empty income
    proof is reported before an empty deductions proof; the overflow of
    the counter comes last, as a panic.  Called without ether,
    [calculateTax] says "No tax information submitted" to an account
    without a submission and "Tax already calculated" otherwise;
    [getTaxOwed] says "No tax record found" before "Tax not yet
    calculated"; [clearTaxRecord] and [getLastAccessTime] say "No tax
    record found". *)
Theorem revert_reasons
    (keccak256 : bytes -> bytes32) (s : Storage) (msg : Msg)
    (value : uint256)
    (encryptedIncome : bytes32 * bytes32) (incomeProof : bytes)
    (encryptedDeductions : bytes32 * bytes32) (deductionsProof : bytes) :
  let submit :=
    dispatch keccak256 s msg value
      (CallSubmitTaxInfo encryptedIncome incomeProof encryptedDeductions
         deductionsProof) in
  (value <> 0 ->
     dispatch keccak256 s msg value CallCalculateTax = Rejected /\
     dispatch_getTaxOwed s msg value = Rejected /\
     dispatch keccak256 s msg value CallClearTaxRecord = Rejected /\
     dispatch keccak256 s msg value CallEmergencyPause = Rejected /\
     dispatch_getLastAccessTime s (sender msg) value = Rejected) /\
  (submitted s (sender msg) = true ->
     submit =
       Ran (Revert "Tax information already submitted for this address") /\
     (calculated (recordOf s (sender msg)) = true ->
        dispatch keccak256 s msg 0 CallCalculateTax =
          Ran (Revert "Tax already calculated")) /\
     (calculated (recordOf s (sender msg)) = false ->
        dispatch_getTaxOwed s msg 0 =
          Ran (Revert "Tax not yet calculated"))) /\
  (submitted s (sender msg) = false ->
     dispatch keccak256 s msg 0 CallCalculateTax =
       Ran (Revert "No tax information submitted") /\
     dispatch_getTaxOwed s msg 0 = Ran (Revert "No tax record found") /\
     dispatch keccak256 s msg 0 CallClearTaxRecord =
       Ran (Revert "No tax record found") /\
     dispatch_getLastAccessTime s (sender msg) 0 =
       Ran (Revert "No tax record found") /\
     (incomeProof = [] -> submit = Ran (Revert "Income proof required")) /\
     (incomeProof <> [] -> deductionsProof = [] ->
        submit = Ran (Revert "Deductions proof required")) /\
     (incomeProof <> [] -> deductionsProof <> [] ->
      totalTaxpayers s = MAX_UINT256 -> submit = Ran (Panic 17))).
Proof.
  cbv zeta. cbn [dispatch].
  unfold dispatch_getTaxOwed, dispatch_getLastAccessTime, payable.
  split; [|rewrite !nonpayable_zero; split].
  - intros Hv. rewrite !nonpayable_ether by exact Hv. repeat split.
  - unfold submitTaxInfo, calculateTax, getTaxOwed, onlyTaxpayer.
    intros ->. split; [reflexivity|]. split; intros ->; reflexivity.
  - unfold submitTaxInfo, calculateTax, getTaxOwed, clearTaxRecord,
      getLastAccessTime, onlyTaxpayer, checked_incr.
    intros ->. do 4 (split; [reflexivity|]). split; [|split].
    + intros ->. reflexivity.
    + intros Hi ->. apply length_pos_iff in Hi. rewrite Hi. reflexivity.
    + intros Hi Hd Hmax. apply length_pos_iff in Hi, Hd.
      rewrite Hi, Hd, Hmax. reflexivity.
Qed.

(** X14.  The byte strings the contract hashes.  The three packings (of
    the submission event, of the calculation event and of the tax digest)
    have the lengths 52, 61 and 111, so no two of them are ever the same
    string; and two packings of the tax digest are the same string only
    if the income word, the deductions word and the time are the same. *)
Theorem packed_preimages_are_unambiguous
    (incomeHash deductionsHash time incomeHash' deductionsHash' time' : uint256)
    (account : address) :
  0 <= incomeHash <= MAX_UINT256 -> 0 <= incomeHash' <= MAX_UINT256 ->
  0 <= deductionsHash <= MAX_UINT256 -> 0 <= deductionsHash' <= MAX_UINT256 ->
  0 <= time <= MAX_UINT256 -> 0 <= time' <= MAX_UINT256 ->
  length (pack_word time ++ pack_address account) = 52%nat /\
  length (pack_word time ++ pack_address account ++ pack_string "calculate")
    = 61%nat /\
  length (pack_word incomeHash ++ pack_word deductionsHash
          ++ pack_word time ++ pack_string "tax_calculation") = 111%nat /\
  (pack_word incomeHash ++ pack_word deductionsHash
     ++ pack_word time ++ pack_string "tax_calculation" =
   pack_word incomeHash' ++ pack_word deductionsHash'
     ++ pack_word time' ++ pack_string "tax_calculation" <->
   incomeHash = incomeHash' /\ deductionsHash = deductionsHash' /\
   time = time').
Proof.
  intros Hi Hi' Hd Hd' Ht Ht'.
  split; [|split; [|split; [|split]]].
  - rewrite length_app, length_pack_word, length_pack_address. reflexivity.
  - rewrite !length_app, length_pack_word, length_pack_address. reflexivity.
  - rewrite !length_app, !length_pack_word. reflexivity.
  - intros H.
    apply app_inj_length in H; [|rewrite !length_pack_word; reflexivity].
    destruct H as [H1 H].
    apply app_inj_length in H; [|rewrite !length_pack_word; reflexivity].
    destruct H as [H2 H].
    apply app_inj_length in H; [|rewrite !length_pack_word; reflexivity].
    destruct H as [H3 _].
    repeat split; apply pack_word_inj; assumption.
  - intros (-> & -> & ->). reflexivity.
Qed.

Lemma packed_preimages_are_unambiguous_witness :
  pack_word 7 ++ pack_word 9 ++ pack_word 1700000200
    ++ pack_string "tax_calculation" =
  pack_word 8 ++ pack_word 9 ++ pack_word 1700000200
    ++ pack_string "tax_calculation" <->
  7 = 8 /\ 9 = 9 /\ 1700000200 = 1700000200.
Proof.
  apply (packed_preimages_are_unambiguous 7 9 1700000200 8 9 1700000200 0);
    unfold MAX_UINT256; lia.
Defined.

(** ** The engine *)

(** X15.  When the deductions are at least the income the tax is zero:
    for all finite numbers that are not negative, integer or not. *)
Theorem no_tax_when_deductions_cover_income (income deductions : number) :
  finite_nonneg income = true -> finite_nonneg deductions = true ->
  le income deductions = true ->
  taxableIncomeOf income deductions = of_Z 0 /\
  calculateEstimatedTax income deductions = of_Z 0 /\
  calculateProgressiveTax (taxableIncomeOf income deductions) = of_Z 0.
Proof.
  intros Hi Hd Hle. apply SFleb_finite_nonneg in Hle; auto.
  destruct (taxableIncomeOf_spec income deductions Hi Hd) as (_ & _ & Hz & _).
  specialize (Hz Hle).
  rewrite calculateEstimatedTax_unfold, calculateProgressiveTax_unfold, Hz.
  repeat split; vm_compute; reflexivity.
Qed.

Lemma no_tax_when_deductions_cover_income_witness :
  le (of_Z 30000) (of_Z 45000) = true /\
  calculateEstimatedTax (of_Z 30000) (of_Z 45000) = of_Z 0.
Proof.
  split; [reflexivity|].
  apply (no_tax_when_deductions_cover_income (of_Z 30000) (of_Z 45000));
    reflexivity.
Defined.

(** X16.  On finite numbers that are not negative the tax is a finite
    number that is a non-negative integer, whatever fractions or
    magnitudes come in: never NaN, never an infinity, never negative. *)
Theorem tax_is_a_nonnegative_integer (income deductions : number) :
  finite_nonneg income = true -> finite_nonneg deductions = true ->
  finite_nonneg (calculateEstimatedTax income deductions) = true /\
  exists n : Z,
    0 <= n /\ SF2R (calculateEstimatedTax income deductions) = IZR n.
Proof.
  intros Hi Hd.
  destruct (taxableIncomeOf_spec income deductions Hi Hd) as (Ht & _).
  destruct (bracketTax_finite_nonneg _ Ht) as (Hb & _).
  destruct (Math_round_finite_nonneg _ Hb) as (Hr & n & Hn & Hfl).
  rewrite calculateEstimatedTax_unfold. split; [exact Hr|].
  exists n. split; [|exact Hn].
  pose proof (finite_nonneg_nonneg _ Hr) as H0. rewrite Hn in H0.
  apply le_IZR. exact H0.
Qed.

Lemma tax_is_a_nonnegative_integer_witness :
  finite_nonneg (calculateEstimatedTax max_float (of_Z 1)) = true /\
  exists n : Z,
    0 <= n /\ SF2R (calculateEstimatedTax max_float (of_Z 1)) = IZR n.
Proof.
  apply (tax_is_a_nonnegative_integer max_float (of_Z 1)); reflexivity.
Defined.

(** X17.  A NaN income or a NaN deductions amount gives a NaN tax, and a
    NaN taxable income falls through both comparisons into the top
    bracket: its tax is NaN and its marginal rate reads "30". *)
Theorem tax_of_NaN (x : number) :
  calculateEstimatedTax S754_nan x = S754_nan /\
  calculateEstimatedTax x S754_nan = S754_nan /\
  calculateProgressiveTax S754_nan = S754_nan /\
  getMarginalTaxRate S754_nan = "30"%string.
Proof.
  repeat split; try reflexivity.
  unfold calculateEstimatedTax.
  replace (sub x S754_nan) with S754_nan by (destruct x as [| | |[|] ? ?]; reflexivity).
  reflexivity.
Qed.

(** X18.  The marginal rate is the tax on the next 100 units: for an
    integer taxable income [t] such that [t] and [t + 100] are in the
    same bracket, the tax at [t + 100] is the tax at [t] plus 10, 20 or
    30, the number [getMarginalTaxRate] returns as a string at [t].
    Across a bracket boundary the increase is between 10 and 30. *)
Theorem marginal_rate_is_tax_on_next_100 (t : Z) :
  0 <= t -> t + 100 <= 3752999689525417 ->
  exists T r : Z,
    calculateProgressiveTax (of_Z t) = of_Z T /\
    calculateProgressiveTax (of_Z (t + 100)) = of_Z (T + r) /\
    10 <= r <= 30 /\
    (t + 100 <= 50000 ->
       r = 10 /\ getMarginalTaxRate (of_Z t) = "10"%string) /\
    (50000 < t -> t + 100 <= 100000 ->
       r = 20 /\ getMarginalTaxRate (of_Z t) = "20"%string) /\
    (100000 < t ->
       r = 30 /\ getMarginalTaxRate (of_Z t) = "30"%string).
Proof.
  intros H0 Hmax.
  exists ((tenths t + 5) / 10),
         ((tenths (t + 100) + 5) / 10 - (tenths t + 5) / 10).
  rewrite !calculateProgressiveTax_of_Z by lia.
  rewrite getMarginalTaxRate_of_Z by lia.
  split; [reflexivity|]. split; [f_equal; lia|].
  pose proof (Z.div_mod (tenths t + 5) 10 ltac:(lia)) as D1.
  pose proof (Z.mod_pos_bound (tenths t + 5) 10 ltac:(lia)) as B1.
  pose proof (Z.div_mod (tenths (t + 100) + 5) 10 ltac:(lia)) as D2.
  pose proof (Z.mod_pos_bound (tenths (t + 100) + 5) 10 ltac:(lia)) as B2.
  unfold tenths in *.
  destruct (Z.leb_spec t 50000); destruct (Z.leb_spec (t + 100) 50000);
    destruct (Z.leb_spec t 100000); destruct (Z.leb_spec (t + 100) 100000);
    try lia; repeat split; try lia; intros; try lia; split; try lia; reflexivity.
Qed.

Lemma marginal_rate_is_tax_on_next_100_witness :
  exists T r : Z,
    calculateProgressiveTax (of_Z 63000) = of_Z T /\
    calculateProgressiveTax (of_Z (63000 + 100)) = of_Z (T + r) /\
    10 <= r <= 30 /\
    (63000 + 100 <= 50000 ->
       r = 10 /\ getMarginalTaxRate (of_Z 63000) = "10"%string) /\
    (50000 < 63000 -> 63000 + 100 <= 100000 ->
       r = 20 /\ getMarginalTaxRate (of_Z 63000) = "20"%string) /\
    (100000 < 63000 ->
       r = 30 /\ getMarginalTaxRate (of_Z 63000) = "30"%string).
Proof.
  apply (marginal_rate_is_tax_on_next_100 63000); lia.
Defined.

(** ** The client *)

(** X19.  What the custom form lets through.  With the two fields parsed
    to integers, the submission goes on exactly when the income is
    positive and the deductions do not exceed it; a field that does not
    parse counts as 0.  Negative deductions pass both tests, and the
    taxable income is then larger than the income. *)
Theorem custom_inputs_accepted (i d : Z) :
  - MAX_SAFE_INTEGER <= i <= MAX_SAFE_INTEGER ->
  - MAX_SAFE_INTEGER <= d <= MAX_SAFE_INTEGER ->
  submitTaxInfo_inputs true (Some key_custom) (of_Z i) (of_Z d) =
    (if i <=? 0 then Refused "Please enter valid income amount!"
     else if i <? d then Refused "Deductions cannot exceed income!"
     else Accepted (of_Z i) (of_Z d)) /\
  submitTaxInfo_inputs true (Some key_custom) S754_nan (of_Z d) =
    Refused "Please enter valid income amount!" /\
  submitTaxInfo_inputs true (Some key_custom) (of_Z i) S754_nan =
    (if i <=? 0 then Refused "Please enter valid income amount!"
     else Accepted (of_Z i) (of_Z 0)) /\
  (0 < i -> d < 0 -> i - d <= MAX_SAFE_INTEGER ->
     submitTaxInfo_inputs true (Some key_custom) (of_Z i) (of_Z d) =
       Accepted (of_Z i) (of_Z d) /\
     taxableIncomeOf (of_Z i) (of_Z d) = of_Z (i - d)).
Proof.
  unfold MAX_SAFE_INTEGER. intros Hi Hd.
  pose proof (submitTaxInfo_inputs_custom i d ltac:(lia) ltac:(lia)) as Hmain.
  split; [exact Hmain|]. split; [reflexivity|].
  split; [apply submitTaxInfo_inputs_custom_unparsed; lia|].
  intros Hi0 Hd0 Hid. split.
  - rewrite Hmain. destruct (Z.leb_spec i 0); [lia|].
    destruct (Z.ltb_spec i d); [lia | reflexivity].
  - unfold taxableIncomeOf. rewrite sub_of_Z_negative by lia.
    apply Math_max_0_finite_nonneg. apply of_Z_finite_nonneg. lia.
Qed.

Lemma custom_inputs_accepted_witness :
  submitTaxInfo_inputs true (Some key_custom) (of_Z 60000) (of_Z (-40000)) =
    Accepted (of_Z 60000) (of_Z (-40000)) /\
  taxableIncomeOf (of_Z 60000) (of_Z (-40000)) = of_Z (60000 - -40000).
Proof.
  apply (custom_inputs_accepted 60000 (-40000));
    unfold MAX_SAFE_INTEGER; lia.
Defined.

(** X20.  A custom submission with a positive income and no deductions
    (the field left empty, or 0) is accepted, but the result view tests
    the kept deductions for truth before it computes anything, so for
    such a submission it never shows the calculation; the same holds
    whenever the kept income or deductions is 0 or NaN. *)
Theorem no_details_without_deductions (i : Z) (x : number) :
  0 < i <= MAX_SAFE_INTEGER ->
  submitTaxInfo_inputs true (Some key_custom) (of_Z i) (of_Z 0) =
    Accepted (of_Z i) (of_Z 0) /\
  submitTaxInfo_inputs true (Some key_custom) (of_Z i) S754_nan =
    Accepted (of_Z i) (of_Z 0) /\
  viewTaxResult_calculation (Some (of_Z i, of_Z 0)) = None /\
  viewTaxResult_calculation (Some (x, of_Z 0)) = None /\
  viewTaxResult_calculation (Some (of_Z 0, x)) = None /\
  viewTaxResult_calculation (Some (x, S754_nan)) = None /\
  viewTaxResult_calculation (Some (S754_nan, x)) = None.
Proof.
  unfold MAX_SAFE_INTEGER. intros Hi.
  pose proof (submitTaxInfo_inputs_custom i 0 ltac:(lia) ltac:(lia)) as H1.
  pose proof (submitTaxInfo_inputs_custom_unparsed i ltac:(lia)) as H2.
  destruct (Z.leb_spec i 0); [lia|]. destruct (Z.ltb_spec i 0); [lia|].
  split; [exact H1|]. split; [exact H2|].
  unfold viewTaxResult_calculation.
  change (truthy (of_Z 0)) with false. change (truthy S754_nan) with false.
  rewrite !andb_false_r. cbn [andb]. repeat split.
Qed.

Lemma no_details_without_deductions_witness :
  submitTaxInfo_inputs true (Some key_custom) (of_Z 80000) (of_Z 0) =
    Accepted (of_Z 80000) (of_Z 0) /\
  viewTaxResult_calculation (Some (of_Z 80000, of_Z 0)) = None.
Proof.
  split;
    apply (no_details_without_deductions 80000 (of_Z 0));
    unfold MAX_SAFE_INTEGER; lia.
Defined.

(** X21.  The figures of the result view.  For an integer income and
    integer deductions, positive and not above the income, the view
    computes the taxable income [income - deductions] and a tax [T] that
    is an integer between 0 and the taxable income and at most 30% of it
    (up to the rounding); the after-tax income it shows is
    [income - T] exactly, and not negative. *)
Theorem result_view_figures (i d : Z) :
  0 < d <= i -> i <= MAX_SAFE_INTEGER -> i - d <= 3752999689525417 ->
  exists (T : Z) (c : TaxCalculation),
    viewTaxResult_calculation (Some (of_Z i, of_Z d)) = Some c /\
    taxableIncome c = of_Z (i - d) /\
    calculatedTax c = of_Z T /\
    afterTaxIncome c = of_Z (i - T) /\
    marginalRate c =
      (if i - d <=? 50000 then "10"%string
       else if i - d <=? 100000 then "20"%string else "30"%string) /\
    0 <= T <= i - d /\ 10 * T <= 3 * (i - d) + 5 /\ 0 <= i - T.
Proof.
  unfold MAX_SAFE_INTEGER. intros Hd Hi Ht.
  destruct (rounded_tenths_bounds (i - d) ltac:(lia)) as [HT HT'].
  set (T := (tenths (i - d) + 5) / 10) in *.
  assert (Htax : Math_max (of_Z 0) (sub (of_Z i) (of_Z d)) = of_Z (i - d)).
  { rewrite sub_of_Z by lia. apply Math_max_0_finite_nonneg.
    apply of_Z_finite_nonneg. lia. }
  exists T. eexists. unfold viewTaxResult_calculation.
  rewrite !truthy_of_Z by lia. cbn [andb]. split; [reflexivity|].
  cbn [taxableIncome calculatedTax afterTaxIncome marginalRate].
  rewrite Htax, calculateProgressiveTax_of_Z by lia. fold T.
  rewrite getMarginalTaxRate_of_Z by lia.
  rewrite sub_of_Z by lia.
  repeat split; lia.
Qed.

Lemma result_view_figures_witness :
  exists (T : Z) (c : TaxCalculation),
    viewTaxResult_calculation (Some (of_Z 75000, of_Z 12000)) = Some c /\
    taxableIncome c = of_Z (75000 - 12000) /\
    calculatedTax c = of_Z T /\
    afterTaxIncome c = of_Z (75000 - T) /\
    marginalRate c =
      (if 75000 - 12000 <=? 50000 then "10"%string
       else if 75000 - 12000 <=? 100000 then "20"%string
       else "30"%string) /\
    0 <= T <= 75000 - 12000 /\ 10 * T <= 3 * (75000 - 12000) + 5 /\
    0 <= 75000 - T.
Proof.
  apply (result_view_figures 75000 12000); unfold MAX_SAFE_INTEGER; lia.
Defined.

(** X22.  The breakdown adds up.  For an integer taxable income [t] and
    the tax [T] the engine computes for it, the amounts
    [getDetailedTaxBreakdown] prints per bracket are [T] in the first
    bracket, 5000 and [T - 5000] in the second, and 5000, 10000 and
    [T - 15000] in the third: their sum is the total printed on the last
    line.  The amounts are given to [toLocaleString] as numbers. *)
Theorem breakdown_adds_up (toLocaleString : number -> string) (t : Z) :
  0 <= t <= 3752999689525417 ->
  exists T : Z,
    calculateProgressiveTax (of_Z t) = of_Z T /\
    getDetailedTaxBreakdown toLocaleString (of_Z t) (of_Z T) =
      (let breakdown := "üìä Tax Bracket Breakdown:" ++ nl in
       let breakdown :=
         if (t <=? 50000)%Z then
           breakdown
           ++ ("‚Ä¢ 10% bracket: $" ++ toLocaleString (of_Z T)
               ++ " (on $" ++ toLocaleString (of_Z t) ++ ")" ++ nl)
         else if (t <=? 100000)%Z then
           (breakdown
            ++ ("‚Ä¢ 10% bracket: $" ++ toLocaleString (of_Z 5000)
                ++ " (on first $50,000)" ++ nl))
           ++ ("‚Ä¢ 20% bracket: $" ++ toLocaleString (of_Z (T - 5000)%Z)
               ++ " (on $" ++ toLocaleString (of_Z (t - 50000)%Z)
               ++ ")" ++ nl)
         else
           ((breakdown
             ++ ("‚Ä¢ 10% bracket: $" ++ toLocaleString (of_Z 5000)
                 ++ " (on first $50,000)" ++ nl))
            ++ ("‚Ä¢ 20% bracket: $" ++ toLocaleString (of_Z 10000)
                ++ " (on next $50,000)" ++ nl))
           ++ ("‚Ä¢ 30% bracket: $" ++ toLocaleString (of_Z (T - 15000)%Z)
               ++ " (on $" ++ toLocaleString (of_Z (t - 100000)%Z)
               ++ ")" ++ nl) in
       breakdown
       ++ ("‚Ä¢ Total Tax: $" ++ toLocaleString (of_Z T) ++ nl ++ nl))%string.
Proof.
  intros Ht. exists ((tenths t + 5) / 10).
  split; [apply calculateProgressiveTax_of_Z; exact Ht|].
  unfold getDetailedTaxBreakdown, tenths. cbv zeta.
  rewrite !le_of_Z_of_Z by lia.
  destruct (Z.leb_spec t 50000) as [H1 | H1].
  - rewrite <- first_bracket_exact by lia. reflexivity.
  - change (Math_round (mul (of_Z 50000) lit_0_10)) with (of_Z 5000).
    change (Math_round (mul (of_Z 50000) lit_0_20)) with (of_Z 10000).
    destruct (Z.leb_spec t 100000) as [H2 | H2].
    + rewrite sub_of_Z by lia. rewrite second_amount_exact by lia.
      replace ((50000 + 2 * (t - 50000) + 5) / 10 - 5000)
        with ((2 * (t - 50000) + 5) / 10); [reflexivity|].
      replace (50000 + 2 * (t - 50000) + 5)
        with (2 * (t - 50000) + 5 + 5000 * 10) by lia.
      rewrite Z.div_add by lia. lia.
    + rewrite sub_of_Z by lia. rewrite third_amount_exact by lia.
      replace ((150000 + 3 * (t - 100000) + 5) / 10 - 15000)
        with ((3 * (t - 100000) + 5) / 10); [reflexivity|].
      replace (150000 + 3 * (t - 100000) + 5)
        with (3 * (t - 100000) + 5 + 15000 * 10) by lia.
      rewrite Z.div_add by lia. lia.
Qed.

Lemma breakdown_adds_up_witness :
  exists T : Z,
    calculateProgressiveTax (of_Z 120000) = of_Z T /\
    getDetailedTaxBreakdown (fun _ => "#"%string) (of_Z 120000) (of_Z T) =
      ((((("üìä Tax Bracket Breakdown:" ++ nl)
         ++ ("‚Ä¢ 10% bracket: $" ++ "#" ++ " (on first $50,000)" ++ nl))
        ++ ("‚Ä¢ 20% bracket: $" ++ "#" ++ " (on next $50,000)" ++ nl))
       ++ ("‚Ä¢ 30% bracket: $" ++ "#" ++ " (on $" ++ "#" ++ ")" ++ nl))
      ++ ("‚Ä¢ Total Tax: $" ++ "#" ++ nl ++ nl))%string.
Proof.
  apply (breakdown_adds_up (fun _ => "#"%string) 120000). lia.
Defined.



(** X24.  The proofs the client builds are never empty, whatever the
    amounts and the clock: so a submission from the client is refused by
    the contract only for an existing record (or a full counter), never
    for a proof.  The different arguments [estimateGasForSubmission]
    builds pass the same checks, so the estimate succeeds exactly when
    the submission will.  The second word of both encrypted values is
    zero. *)
Theorem client_submission_passes_proof_checks
    (keccak256 : bytes -> bytes32) (toString : number -> string)
    (s : Storage) (msg : Msg) (income deductions timestamp : number)
    (encryptedIncome : bytes32 * bytes32) (incomeProof : bytes)
    (encryptedDeductions : bytes32 * bytes32) (deductionsProof : bytes)
    (estimateIncome : bytes32 * bytes32) (estimateIncomeProof : bytes)
    (estimateDeductions : bytes32 * bytes32)
    (estimateDeductionsProof : bytes) :
  submitTaxInfo_arguments keccak256 toString income deductions timestamp =
    (encryptedIncome, incomeProof, encryptedDeductions, deductionsProof) ->
  estimateGasForSubmission_arguments keccak256 toString income deductions =
    (estimateIncome, estimateIncomeProof, estimateDeductions,
     estimateDeductionsProof) ->
  incomeProof <> [] /\ deductionsProof <> [] /\
  snd encryptedIncome = 0 /\ snd encryptedDeductions = 0 /\
  (succeeds (submitTaxInfo keccak256 s msg encryptedIncome incomeProof
               encryptedDeductions deductionsProof) = true <->
   submitted s (sender msg) = false /\ totalTaxpayers s < MAX_UINT256) /\
  succeeds (submitTaxInfo keccak256 s msg estimateIncome
              estimateIncomeProof estimateDeductions
              estimateDeductionsProof) =
  succeeds (submitTaxInfo keccak256 s msg encryptedIncome incomeProof
              encryptedDeductions deductionsProof).
Proof.
  intros Ha He.
  destruct (submitTaxInfo_arguments_nonempty keccak256 toString income
              deductions timestamp) as [Hi Hd].
  destruct (estimateGasForSubmission_arguments_nonempty keccak256 toString
              income deductions) as [Hi' Hd'].
  rewrite Ha in Hi, Hd. rewrite He in Hi', Hd'. cbn [fst snd] in *.
  assert (Hz : snd encryptedIncome = 0 /\ snd encryptedDeductions = 0).
  { unfold submitTaxInfo_arguments in Ha. inversion Ha. split; reflexivity. }
  destruct Hz as [Hz1 Hz2].
  pose proof (submitTaxInfo_succeeds keccak256 s msg encryptedIncome
                incomeProof encryptedDeductions deductionsProof) as H1.
  pose proof (submitTaxInfo_succeeds keccak256 s msg estimateIncome
                estimateIncomeProof estimateDeductions
                estimateDeductionsProof) as H2.
  split; [exact Hi|]. split; [exact Hd|].
  split; [exact Hz1|]. split; [exact Hz2|]. split.
  - rewrite H1. intuition.
  - apply succeeds_true_iff. rewrite H1, H2. intuition.
Qed.

Lemma client_submission_passes_proof_checks_witness :
  toUtf8Bytes ("proof_income_" ++ "#" ++ "_" ++ "#") <> [] /\
  (succeeds
     (submitTaxInfo sample_keccak deployed (aliceMsg 1700000100)
        (sample_keccak (toUtf8Bytes ("#" ++ "#")), ZeroHash)
        (toUtf8Bytes ("proof_income_" ++ "#" ++ "_" ++ "#"))
        (sample_keccak (toUtf8Bytes ("#" ++ "#")), ZeroHash)
        (toUtf8Bytes ("proof_deductions_" ++ "#" ++ "_" ++ "#"))) = true <->
   submitted deployed (sender (aliceMsg 1700000100)) = false /\
   totalTaxpayers deployed < MAX_UINT256).
Proof.
  destruct (client_submission_passes_proof_checks sample_keccak
              (fun _ => "#"%string) deployed (aliceMsg 1700000100)
              (of_Z 75000) (of_Z 12000) (of_Z 1700000100000)
              _ _ _ _ _ _ _ _ eq_refl eq_refl)
    as (H1 & _ & _ & _ & H2 & _).
  split; [exact H1 | exact H2].
Defined.

(** X25.  When the result view runs into a revert.  [viewTaxResult]
    stops at its own test with the message that the tax is not yet
    calculated if [isCalculated] says so of [this.account].  Otherwise,
    if the signer is still that account and the account has not cleared
    its record while the reads were under way, whatever else was sent, it
    retrieves the digest with a zero second word and the two times of the
    record, both positive.  But [getTaxOwed] is answered to the signer:
    after a change of account it reverts in front of a calculated
    [this.account] when the signer has no record, or one that is not
    calculated, and the function ends in its [catch] block with the
    reason the block tests for. *)
Theorem result_view_and_its_catch
    (keccak256 : bytes -> bytes32) (s : Storage)
    (txs2 txs3 txs4 : list Transaction) (signer account : address)
    (now : uint256) :
  reachable keccak256 s ->
  let s2 := sendAll keccak256 s txs2 in
  let s3 := sendAll keccak256 s2 txs3 in
  let s4 := sendAll keccak256 s3 txs4 in
  let view := viewTaxResult_retrieve true signer account s s2 s3 s4 now in
  (isCalculated s account = false ->
     view =
       ViewMessage "‚ùå Tax not yet calculated. Please calculate tax first.") /\
  (isCalculated s account = true -> signer = account ->
     Forall (fun tx => ~ (sender (tx_msg tx) = account /\
                          tx_call tx = CallClearTaxRecord))
       (txs2 ++ txs3 ++ txs4) ->
     view =
       ViewRetrieved (taxOwedHash (recordOf s account), 0)
         (getSubmissionTime s account) (getCalculationTime s account) /\
     0 < getSubmissionTime s account /\ 0 < getCalculationTime s account) /\
  (isCalculated s account = true -> submitted s2 signer = false ->
     view = ViewCaught (Ran (Revert "No tax record found"))) /\
  (isCalculated s account = true -> submitted s2 signer = true ->
     calculated (recordOf s2 signer) = false ->
     view = ViewCaught (Ran (Revert "Tax not yet calculated"))).
Proof.
  intros Hr. cbv zeta.
  unfold viewTaxResult_retrieve, dispatch_getTaxOwed, isCalculated.
  cbn [negb]. rewrite nonpayable_zero. unfold getTaxOwed, onlyTaxpayer.
  cbn [sender].
  split; [|split; [|split]].
  - intros ->. reflexivity.
  - intros Ec -> Hall. rewrite Ec. cbn [negb].
    pose proof (calculated_submitted_inv keccak256 s Hr account Ec) as Hs.
    rewrite <- !sendAll_app.
    apply Forall_app in Hall. destruct Hall as [H2 H34].
    assert (H23 : Forall (fun tx => ~ (sender (tx_msg tx) = account /\
                                       tx_call tx = CallClearTaxRecord))
                    (txs2 ++ txs3)).
    { apply Forall_app. split; [exact H2|].
      apply Forall_app in H34. apply H34. }
    assert (H234 : Forall (fun tx => ~ (sender (tx_msg tx) = account /\
                                        tx_call tx = CallClearTaxRecord))
                     ((txs2 ++ txs3) ++ txs4)).
    { apply Forall_app. split; [exact H23|].
      apply Forall_app in H34. apply H34. }
    destruct (sendAll_calculated keccak256 s txs2 account Hs Ec H2)
      as [Hr2 Hs2].
    destruct (sendAll_calculated keccak256 s _ account Hs Ec H23)
      as [Hr3 _].
    destruct (sendAll_calculated keccak256 s _ account Hs Ec H234)
      as [Hr4 _].
    unfold getSubmissionTime, getCalculationTime.
    rewrite Hs2, Hr2, Hr3, Hr4, Ec.
    split; [reflexivity|].
    destruct (record_shape_inv keccak256 s Hr account) as [_ H].
    destruct (H Hs) as (Hpos & _).
    destruct (calculated_record_inv keccak256 s Hr account Ec) as [Hc _].
    split; assumption.
  - intros -> ->. reflexivity.
  - intros -> -> ->. reflexivity.
Qed.

(** Alice views her assessed record while bob and the deployer send what
    is in [meanwhile]; and she views it after the wallet has changed to
    her account from bob's, for whom the signer was built. *)
Lemma result_view_and_its_catch_witness :
  viewTaxResult_retrieve true alice alice assessed
    (sendAll sample_keccak assessed meanwhile)
    (sendAll sample_keccak assessed meanwhile)
    (sendAll sample_keccak assessed meanwhile) 1700000300 =
    ViewRetrieved (112, 0) 1700000100 1700000200 /\
  viewTaxResult_retrieve true bob alice assessed assessed assessed assessed
    1700000300 = ViewCaught (Ran (Revert "No tax record found")).
Proof.
  destruct (result_view_and_its_catch sample_keccak assessed meanwhile [] []
              alice alice 1700000300 reachable_assessed)
    as (_ & H & _).
  destruct (result_view_and_its_catch sample_keccak assessed [] [] []
              bob alice 1700000300 reachable_assessed)
    as (_ & _ & H' & _).
  split.
  - destruct H as (H & _).
    + vm_compute. reflexivity.
    + reflexivity.
    + repeat constructor; intros [H1 H2]; discriminate.
    + cbv zeta in H. rewrite !sendAll_nil in H. rewrite H.
      vm_compute. reflexivity.
  - cbv zeta in H'. rewrite !sendAll_nil in H'. apply H'.
    + vm_compute. reflexivity.
    + vm_compute. reflexivity.
Defined.

(** X26.  The estimate and the result agree.  Whenever the result view
    shows a calculation, its tax is the estimate [calculateEstimatedTax]
    gives for the same income and deductions.  A preset is submitted as
    it stands, whatever the input fields hold; the estimate
    [selectScenario] displays for it is the tax the result view shows
    after the calculation, namely 2500, 7600 and 22500 for the three
    presets, of which only the first is the preset's [expectedTax]. *)
Theorem preset_estimate_is_result_view_tax
    (key : ScenarioKey) (incomeInput deductionsInput : number) :
  key <> key_custom ->
  (forall income deductions c,
     viewTaxResult_calculation (Some (income, deductions)) = Some c ->
     calculatedTax c = calculateEstimatedTax income deductions) /\
  submitTaxInfo_inputs true (Some key) incomeInput deductionsInput =
    Accepted (income (scenarios key)) (deductions (scenarios key)) /\
  (exists c,
     viewTaxResult_calculation
       (Some (income (scenarios key), deductions (scenarios key))) = Some c /\
     selectScenario_estimatedTax key = Some (calculatedTax c)) /\
  selectScenario_estimatedTax key =
    Some (of_Z match key with
               | key_low => 2500
               | key_medium => 7600
               | _ => 22500
               end) /\
  expectedTax (scenarios key) =
    of_Z match key with
         | key_low => 2500
         | key_medium => 10800
         | _ => 29000
         end.
Proof.
  intros Hk. split.
  - intros income deductions c. unfold viewTaxResult_calculation.
    destruct (truthy income && truthy deductions); [|discriminate].
    intros H; inversion H. reflexivity.
  - destruct key; try contradiction; repeat split; try reflexivity;
      eexists; split; reflexivity.
Qed.

Lemma preset_estimate_is_result_view_tax_witness :
  selectScenario_estimatedTax key_medium = Some (of_Z 7600) /\
  expectedTax (scenarios key_medium) = of_Z 10800.
Proof.
  destruct (preset_estimate_is_result_view_tax key_medium (of_Z 0) (of_Z 0))
    as (_ & _ & _ & H1 & H2); [discriminate|].
  split; [exact H1 | exact H2].
Defined.

(** X27.  Pending transactions.  Adding a hash always shows the pending
    message; adding a hash that was not pending and removing it again
    gives back the map as it was.  But when [tx.wait()] throws, the hash
    is never removed: it stays in the map, no later confirmed transaction
    removes it, and the message shown when that later one is removed
    still counts a pending transaction. *)
Theorem pending_transaction_stays_after_exception
    (toString : nat -> string)
    (pendingTransactions : gmap string Pending.PendingTransaction)
    (txHash description later laterDescription : string)
    (now after : number) :
  pendingTransactions !! txHash = None -> txHash <> later ->
  let entry :=
    {| Pending.description := description; Pending.timestamp := now |} in
  let failed :=
    Pending.awaitReceipt toString pendingTransactions txHash description
      now false in
  snd (Pending.addPendingTransaction toString pendingTransactions txHash
         description now) <> None /\
  Pending.awaitReceipt toString pendingTransactions txHash description
    now true = pendingTransactions /\
  failed !! txHash = Some entry /\
  Pending.awaitReceipt toString failed later laterDescription after true
    !! txHash = Some entry /\
  snd (Pending.removePendingTransaction toString
         (fst (Pending.addPendingTransaction toString failed later
                 laterDescription after)) later) <> None.
Proof.
  intros Hfresh Hne.
  unfold Pending.awaitReceipt, Pending.addPendingTransaction,
    Pending.removePendingTransaction.
  cbv zeta. cbn [fst snd]. split; [|split; [|split; [|split]]].
  - unfold Pending.updatePendingTransactionsDisplay. cbv zeta.
    rewrite map_size_insert_None by exact Hfresh. discriminate.
  - rewrite delete_insert_id by exact Hfresh. reflexivity.
  - rewrite lookup_insert_eq. reflexivity.
  - rewrite lookup_delete_ne by auto. rewrite lookup_insert_ne by auto.
    rewrite lookup_insert_eq. reflexivity.
  - unfold Pending.updatePendingTransactionsDisplay. cbv zeta.
    set (m := <[txHash := _]> pendingTransactions).
    set (m' := delete later (<[later := _]> m)).
    assert (Hm : m' !! txHash <> None).
    { unfold m', m. rewrite lookup_delete_ne by auto.
      rewrite lookup_insert_ne by auto. rewrite lookup_insert_eq.
      discriminate. }
    assert (Hs : size m' <> 0%nat).
    { intros H0. apply map_size_empty_inv in H0. apply Hm. rewrite H0.
      apply lookup_empty. }
    destruct (size m') as [|k]; [contradiction | discriminate].
Qed.

Lemma pending_transaction_stays_after_exception_witness :
  Pending.awaitReceipt (fun _ => "#"%string) ∅ "0xaa" "Tax Submission"
    (of_Z 1) true = ∅ /\
  Pending.awaitReceipt (fun _ => "#"%string) ∅ "0xaa" "Tax Submission"
    (of_Z 1) false !! "0xaa"%string =
    Some {| Pending.description := "Tax Submission";
            Pending.timestamp := of_Z 1 |}.
Proof.
  destruct (pending_transaction_stays_after_exception (fun _ => "#"%string)
              ∅ "0xaa" "Tax Submission" "0xbb" "Tax Calculation"
              (of_Z 1) (of_Z 2)) as (_ & H1 & H2 & _).
  - apply lookup_empty.
  - discriminate.
  - split; [exact H1 | exact H2].
Defined.

